(** * Lefty's graffiti wall

    A shallow embedding of the wall's item store ([getGraffiti],
    [addGraffiti], [saveImageBlob]), of the tool layer in front of it
    ([normalizePercentPair], [spray_text], [spray_image]), of the snapshot
    compositor ([loadImageSource], [generateWallSnapshot]) and of the
    session router ([createMcpRouter]).

    JavaScript numbers are IEEE binary64 values: they are Rocq's primitive
    floats.  A string is the sequence of the UTF-8 bytes of the JavaScript
    string.  The file system is a finite map from absolute paths to file
    contents.  Every [async] function is a computation in a
    state-and-exception monad over the [World]; the interleaving model of
    the last part lets another task run where the source awaits, and
    between the two system calls of a write. *)

From Stdlib Require Import ZArith Floats Ascii String List Lia Bool.
From Stdlib Require Import OrdersEx DecimalString Sorted Permutation.
From Stdlib Require DecimalPos DecimalZ.
From stdpp Require Import gmap strings.

Abbreviation number := float.

(** What [JSON.parse] hands back where a number is declared: a number, or
    [null]. *)
Abbreviation json_number := (option number).

(** ** The JavaScript runtime pieces the source calls *)

Module JS.

(** [value >= 0], [value < 1] and friends compare as IEEE does: every
    comparison with NaN is false. *)
Definition ge (a b : number) : bool := (b <=? a)%float.
Definition lt (a b : number) : bool := (a <? b)%float.
Definition le (a b : number) : bool := (a <=? b)%float.
Definition gt (a b : number) : bool := (b <? a)%float.

(** [!v] on a number that may be [undefined]. *)
Definition falsy (v : option number) : bool :=
  match v with
  | None => true
  | Some n => (n =? 0)%float || PrimFloat.is_nan n
  end.

(** [Math.max(1, v)]. *)
Definition Math_max1 (v : number) : number :=
  if PrimFloat.is_nan v then PrimFloat.nan
  else if (v <? 1)%float then 1%float else v.

(** The integral part of a non-negative [v] below 2^52. *)
Definition floor_small (v : number) : number :=
  let r := ((v + 0x1p52) - 0x1p52)%float in
  if (v <? r)%float then (r - 1)%float else r.

(** [Math.round]: the nearest integer, halves going up. *)
Definition Math_round (v : number) : number :=
  if PrimFloat.is_nan v then v
  else if (0x1p52 <=? PrimFloat.abs v)%float then v
  else if (0 <=? v)%float then
    let f := floor_small v in
    if (0.5 <=? v - f)%float then (f + 1)%float else f
  else
    let a := PrimFloat.abs v in
    let f := floor_small a in
    if (0.5 <? a - f)%float then (- (f + 1))%float else (- f)%float.

(** [ToNumber] at an arithmetic operator: [null] counts as 0. *)
Definition ToNumber (v : json_number) : number :=
  match v with
  | Some n => n
  | None => 0%float
  end.

(** [String(n)] for an integral time value. *)
Definition String_of_int (n : Z) : string :=
  NilZero.string_of_int (Z.to_int n).

(** [s.startsWith(p)]. *)
Definition startsWith (s p : string) : bool := String.prefix p s.

(** [s.split("/")]. *)
Fixpoint split_slash (s : string) : list string :=
  match s with
  | EmptyString => [EmptyString]
  | String c rest =>
      if Ascii.eqb c "/" then EmptyString :: split_slash rest
      else match split_slash rest with
           | [] => [String c EmptyString]
           | seg :: segs => String c seg :: segs
           end
  end.

(** [s.replace(/^\/+/, "")]. *)
Fixpoint strip_leading_slashes (s : string) : string :=
  match s with
  | String c rest => if Ascii.eqb c "/" then strip_leading_slashes rest else s
  | EmptyString => EmptyString
  end.

End JS.

(** ** Paths

    [node:path] on a POSIX host.  A normalised absolute path is its list of
    segments; [to_path] writes it out. *)

Module Path.

Definition proper (seg : string) : bool :=
  negb (String.eqb seg "" || String.eqb seg "." || String.eqb seg "..").

(** The segment walk of [path.normalize]/[path.resolve] on an absolute
    path: [stack] holds the segments kept so far, innermost first. *)
Fixpoint normalizeString (stack : list string) (segs : list string) : list string :=
  match segs with
  | [] => stack
  | seg :: rest =>
      if String.eqb seg "" || String.eqb seg "." then normalizeString stack rest
      else if String.eqb seg ".." then normalizeString (tail stack) rest
      else normalizeString (seg :: stack) rest
  end.

Fixpoint to_path_tail (segs : list string) : string :=
  match segs with
  | [] => ""
  | seg :: rest => "/" +:+ seg +:+ to_path_tail rest
  end.

Definition to_path (segs : list string) : string :=
  match segs with
  | [] => "/"
  | _ => to_path_tail segs
  end.

(** [path.resolve(base, rel)] for an absolute, normalised [base] and a
    [rel] that does not start with a slash. *)
Definition resolve (base : list string) (rel : string) : list string :=
  rev (normalizeString (rev base) (JS.split_slash rel)).

(** [process.cwd()], whatever the host reports, is normalised. *)
Definition normalize_absolute (raw : string) : list string :=
  rev (normalizeString [] (JS.split_slash raw)).

End Path.

(** ** Data model

    The types of lib/graffiti.ts declare [number] fields.  What callers
    hand to [addGraffiti] are numbers; an item that has been through the
    store file is whatever [JSON.parse] made of it, under the cast to
    [GraffitiItem[]]: a [null] may stand where a number is declared.  So
    the records take the type of their number fields as a parameter. *)

Record Position_of (N : Type) := { x : N; y : N }.
Arguments x {N} _.
Arguments y {N} _.
Arguments Build_Position_of {N} _ _.

Record Dimensions_of (N : Type) := { width : N; height : N }.
Arguments width {N} _.
Arguments height {N} _.
Arguments Build_Dimensions_of {N} _ _.

Abbreviation Position := (Position_of number).
Abbreviation Dimensions := (Dimensions_of number).

Record GraffitiImage := {
  image_id : string;
  imageUrl : string;
  image_position : Position_of json_number;
  dimensions : Dimensions_of json_number;
  image_rotation : json_number;
  image_opacity : json_number;
  image_createdAt : string
}.

Record GraffitiText := {
  text_id : string;
  text : string;
  font : string;
  color : string;
  text_position : Position_of json_number;
  size : json_number;
  text_rotation : json_number;
  text_opacity : json_number;
  text_createdAt : string
}.

(** [GraffitiItem = GraffitiImage | GraffitiText], told apart by [type]. *)
Inductive GraffitiItem :=
  | Image (item : GraffitiImage)
  | Text (item : GraffitiText).

Definition id (item : GraffitiItem) : string :=
  match item with
  | Image i => image_id i
  | Text t => text_id t
  end.

Definition createdAt (item : GraffitiItem) : string :=
  match item with
  | Image i => image_createdAt i
  | Text t => text_createdAt t
  end.

Definition position (item : GraffitiItem) : Position_of json_number :=
  match item with
  | Image i => image_position i
  | Text t => text_position t
  end.

(** [Omit<GraffitiImage, "id" | "createdAt">] and its text sibling. *)
Record NewGraffitiImage := {
  new_imageUrl : string;
  new_image_position : Position;
  new_dimensions : Dimensions;
  new_image_rotation : number;
  new_image_opacity : number
}.

Record NewGraffitiText := {
  new_text : string;
  new_font : string;
  new_color : string;
  new_text_position : Position;
  new_size : number;
  new_text_rotation : number;
  new_text_opacity : number
}.

Inductive NewGraffitiItem :=
  | NewImage (item : NewGraffitiImage)
  | NewText (item : NewGraffitiText).

(** An object of numbers, as an object whose number fields may be
    [null]. *)
Definition position_of (p : Position) : Position_of json_number :=
  {| x := Some (x p); y := Some (y p) |}.

Definition dimensions_of (d : Dimensions) : Dimensions_of json_number :=
  {| width := Some (width d); height := Some (height d) |}.

(** [{ ...item, id, createdAt }]. *)
Definition with_id_createdAt (item : NewGraffitiItem) (i c : string) : GraffitiItem :=
  match item with
  | NewImage n =>
      Image {| image_id := i; imageUrl := new_imageUrl n;
               image_position := position_of (new_image_position n);
               dimensions := dimensions_of (new_dimensions n);
               image_rotation := Some (new_image_rotation n);
               image_opacity := Some (new_image_opacity n);
               image_createdAt := c |}
  | NewText n =>
      Text {| text_id := i; text := new_text n; font := new_font n;
              color := new_color n;
              text_position := position_of (new_text_position n);
              size := Some (new_size n);
              text_rotation := Some (new_text_rotation n);
              text_opacity := Some (new_text_opacity n); text_createdAt := c |}
  end.

(** ** Items through JSON

    [JSON.parse(JSON.stringify(v))]: JSON has no NaN, no infinity and no
    negative zero.  [JSON.stringify] writes NaN and the infinities as
    [null] and negative zero as [0]; every other number comes back as it
    was, and so does every string. *)
Definition JSON_number (v : json_number) : json_number :=
  match v with
  | Some n =>
      if PrimFloat.is_finite n
      then Some (if PrimFloat.is_zero n && PrimFloat.get_sign n then 0%float else n)
      else None
  | None => None
  end.

Definition JSON_position (p : Position_of json_number) : Position_of json_number :=
  {| x := JSON_number (x p); y := JSON_number (y p) |}.

Definition JSON_dimensions (d : Dimensions_of json_number) : Dimensions_of json_number :=
  {| width := JSON_number (width d); height := JSON_number (height d) |}.

Definition JSON_item (item : GraffitiItem) : GraffitiItem :=
  match item with
  | Image i =>
      Image {| image_id := image_id i; imageUrl := imageUrl i;
               image_position := JSON_position (image_position i);
               dimensions := JSON_dimensions (dimensions i);
               image_rotation := JSON_number (image_rotation i);
               image_opacity := JSON_number (image_opacity i);
               image_createdAt := image_createdAt i |}
  | Text t =>
      Text {| text_id := text_id t; text := text t; font := font t; color := color t;
              text_position := JSON_position (text_position t);
              size := JSON_number (size t);
              text_rotation := JSON_number (text_rotation t);
              text_opacity := JSON_number (text_opacity t);
              text_createdAt := text_createdAt t |}
  end.

(** ** Bytes, as [sharp] sees them

    A [Buffer] is described by what it holds: bytes no decoder accepts, or
    an encoded picture.  A picture is a stored bitmap, the SVG document of
    a text item, the PNG a sticker pipeline wrote, or the PNG a composite
    wrote. *)
#[warnings="-register-all"]
Inductive Buffer :=
  | Bytes (raw : string)
  | Bitmap (label : string) (w h : option number)
  | SvgText (item : GraffitiText) (w h : number)
  | Sticker (src : Buffer) (targetWidth targetHeight : number)
            (rotation opacity : json_number) (info_width info_height : number)
  | Composite (base : Buffer) (overlays : list (Buffer * option (number * number))).

(** [sharp.OverlayOptions]: [input], and [left]/[top] when given. *)
Abbreviation OverlayOptions := (Buffer * option (number * number))%type.

(** [await sharp(input).metadata()]: the pixel size, or [None] when sharp
    rejects the input.  A composite keeps the size of its base. *)
Fixpoint sharp_metadata (b : Buffer) : option (option number * option number) :=
  match b with
  | Bytes _ => None
  | Bitmap _ w h => Some (w, h)
  | SvgText _ w h => Some (Some w, Some h)
  | Sticker _ _ _ _ _ iw ih => Some (Some iw, Some ih)
  | Composite base _ => sharp_metadata base
  end.

(** A file holds the text [JSON.stringify] writes for an item collection,
    or anything else; a file that was opened for writing and not written
    yet holds no bytes, [Binary (Bytes "")]. *)
Inductive File :=
  | Json (items : list GraffitiItem)
  | Binary (b : Buffer).

(** What a file's bytes are to an image reader. *)
Definition file_bytes (f : File) : Buffer :=
  match f with
  | Json _ => Bytes "json"
  | Binary b => b
  end.

(** ** The world outside the program *)

Inductive Event :=
  | EvRead (path : string)
  | EvWrite (path : string)
  | EvFetch (url : string)
  | EvComposite (layers : nat).

Record World := {
  fs : gmap string File;     (* files by absolute path *)
  uuids : nat;               (* calls of [randomUUID] so far *)
  ticks : nat;               (* calls of [new Date()] so far *)
  trace : list Event         (* I/O performed so far, oldest first *)
}.

(** What the host decides: the working directory, the random ids, the
    clock, date parsing, the collation of [localeCompare] (the sign of the
    comparison), base64 decoding, the network, the size of what sharp's
    resize, rotate and ensureAlpha pipeline puts out, if it accepts its
    parameters, whether sharp renders the SVG document of a text item, and
    URL syntax. *)
Record Runtime := {
  cwd : string;
  randomUUID : nat -> string;
  toISOString : nat -> string;
  Date_parse : string -> option Z;
  localeCompare : string -> string -> Z;
  Buffer_from_base64 : string -> Buffer;
  fetch : string -> option Buffer;
  toBuffer_info : number -> number -> json_number -> json_number -> option (number * number);
  renders_svg : GraffitiText -> number -> number -> bool;
  is_url : string -> bool
}.

Inductive Error :=
  | SyntaxError
  | ENOENT
  | ZodError
  | NoBackground
  | UnknownDimensions
  | SharpError.

Inductive Outcome (A : Type) :=
  | Return (a : A)
  | Throw (e : Error).
Arguments Return {A} a.
Arguments Throw {A} e.

(** An [async] function: it runs from a world, returns or throws, and
    leaves a world. *)
Definition M (A : Type) : Type := World -> Outcome A * World.

Definition ret {A} (a : A) : M A := fun w => (Return a, w).
Definition throw {A} (e : Error) : M A := fun w => (Throw e, w).
Definition bind {A B} (m : M A) (k : A -> M B) : M B :=
  fun w => match m w with
           | (Return a, w') => k a w'
           | (Throw e, w') => (Throw e, w')
           end.
(** [try { m } catch { h }]. *)
Definition try_catch {A} (m : M A) (h : M A) : M A :=
  fun w => match m w with
           | (Return a, w') => (Return a, w')
           | (Throw _, w') => h w'
           end.

Declare Scope js_scope.
Delimit Scope js_scope with js.
Notation "'let*' a ':=' m 'in' k" := (bind m (fun a => k))
  (at level 10, a name, m at level 100, k at level 200) : js_scope.
Notation "m ';;' k" := (bind m (fun _ => k))
  (at level 100, k at level 200, right associativity) : js_scope.
Open Scope js_scope.

Definition emit (e : Event) : M unit :=
  fun w => (Return tt, {| fs := fs w; uuids := uuids w; ticks := ticks w;
                          trace := trace w ++ [e] |}).

(** [fs.access(path)]. *)
Definition access (path : string) : M unit :=
  fun w => match fs w !! path with
           | Some _ => (Return tt, w)
           | None => (Throw ENOENT, w)
           end.

(** [fs.readFile(path)]. *)
Definition readFile (path : string) : M File :=
  emit (EvRead path);;
  fun w => match fs w !! path with
           | Some f => (Return f, w)
           | None => (Throw ENOENT, w)
           end.

(** [fs.writeFile(path, data)], after the [mkdir] of its directory. *)
Definition writeFile (path : string) (f : File) : M unit :=
  emit (EvWrite path);;
  fun w => (Return tt, {| fs := <[path := f]> (fs w); uuids := uuids w;
                          ticks := ticks w; trace := trace w |}).

(** [array.sort(compare)]: the sort is stable (ECMAScript 2019), so with a
    consistent comparator its result is the one insertion gives, each
    element going in front of the first kept element it does not exceed.
    With a comparator that is not consistent the order is left to the
    implementation, and is this one here. *)
Section Sort.
Context {A : Type} (compare : A -> A -> Z).

Fixpoint insert (a : A) (sorted : list A) : list A :=
  match sorted with
  | [] => [a]
  | b :: rest =>
      if (compare a b <=? 0)%Z then a :: b :: rest
      else b :: insert a rest
  end.

Fixpoint sort (l : list A) : list A :=
  match l with
  | [] => []
  | a :: rest => insert a (sort rest)
  end.
End Sort.

(** ** The item store (lib/graffiti.ts) *)

Section Store.
Variable rt : Runtime.

Definition cwd_segments : list string := Path.normalize_absolute (cwd rt).

(** [path.join(process.cwd(), "data", "graffiti.json")]. *)
Definition DATA_FILE : string :=
  Path.to_path (cwd_segments ++ ["data"; "graffiti.json"]).
Definition PUBLIC_DIR : list string := cwd_segments ++ ["public"].
Definition UPLOAD_DIR : list string := PUBLIC_DIR ++ ["uploads"].
Definition SNAPSHOT_DIR : list string := UPLOAD_DIR ++ ["snapshots"].
Definition BACKGROUND_CANDIDATES : list string :=
  ["leftys-bg.png"; "bathroom-wall.jpg"; "bathroom-wall.png"].

Definition draw_uuid : M string :=
  fun w => (Return (randomUUID rt (uuids w)),
            {| fs := fs w; uuids := S (uuids w); ticks := ticks w;
               trace := trace w |}).

(** [new Date().toISOString()]. *)
Definition draw_now : M string :=
  fun w => (Return (toISOString rt (ticks w)),
            {| fs := fs w; uuids := uuids w; ticks := S (ticks w);
               trace := trace w |}).

Definition ensureDataFile : M unit :=
  try_catch (access DATA_FILE) (writeFile DATA_FILE (Json [])).

(** [JSON.parse(raw) as GraffitiItem[]]. *)
Definition JSON_parse (raw : File) : M (list GraffitiItem) :=
  match raw with
  | Json items => ret (map JSON_item items)
  | Binary _ => throw SyntaxError
  end.

(** [(a, b) => a.createdAt.localeCompare(b.createdAt)]. *)
Definition by_createdAt (a b : GraffitiItem) : Z :=
  localeCompare rt (createdAt a) (createdAt b).

Definition getGraffiti : M (list GraffitiItem) :=
  ensureDataFile;;
  let* raw := readFile DATA_FILE in
  let* parsed := JSON_parse raw in
  ret (sort by_createdAt parsed).

(** [const next = { ...item, id: randomUUID(), createdAt: ... }]: the
    part of [addGraffiti] before its first [await]. *)
Definition make_next (item : NewGraffitiItem) : M GraffitiItem :=
  let* i := draw_uuid in
  let* c := draw_now in
  ret (with_id_createdAt item i c).

Definition addGraffiti (item : NewGraffitiItem) : M GraffitiItem :=
  let* next := make_next item in
  let* existing := getGraffiti in
  writeFile DATA_FILE (Json (existing ++ [next]));;
  ret next.

(** ** Data URLs *)

Definition word_char (c : ascii) : bool :=
  let n := nat_of_ascii c in
  ((48 <=? n) && (n <=? 57) || (65 <=? n) && (n <=? 90)
   || (97 <=? n) && (n <=? 122) || (n =? 95))%nat.

(** [[a-zA-Z0-9.+-]]. *)
Definition mime_char (c : ascii) : bool :=
  let n := nat_of_ascii c in
  ((48 <=? n) && (n <=? 57) || (65 <=? n) && (n <=? 90)
   || (97 <=? n) && (n <=? 122) || (n =? 46) || (n =? 43) || (n =? 45))%nat.

Fixpoint drop_prefix (p s : string) : option string :=
  match p, s with
  | EmptyString, _ => Some s
  | String a p', String b s' => if Ascii.eqb a b then drop_prefix p' s' else None
  | String _ _, EmptyString => None
  end.

Fixpoint span (cls : ascii -> bool) (s : string) : string * string :=
  match s with
  | EmptyString => (EmptyString, EmptyString)
  | String c rest =>
      if cls c then let (run, tl) := span cls rest in (String c run, tl)
      else (EmptyString, s)
  end.

(** What [.] refuses: LF, CR, U+2028 and U+2029, the last two being the
    bytes E2 80 A8 and E2 80 A9. *)
Definition separator_tail (rest : string) : bool :=
  match rest with
  | String b (String c _) =>
      Ascii.eqb b "128" && (Ascii.eqb c "168" || Ascii.eqb c "169")
  | _ => false
  end.

Fixpoint has_line_terminator (s : string) : bool :=
  match s with
  | EmptyString => false
  | String c rest =>
      Ascii.eqb c "010" || Ascii.eqb c "013"
      || Ascii.eqb c "226" && separator_tail rest
      || has_line_terminator rest
  end.

(** [s.match(/^data:image\/C+;base64,(.+)$/)] for a character class [C]
    without the semicolon: the run of [C] and the payload. *)
Definition match_data_url (cls : ascii -> bool) (s : string) : option (string * string) :=
  match drop_prefix "data:image/" s with
  | None => None
  | Some rest =>
      let (run, tl) := span cls rest in
      if String.eqb run "" then None
      else match drop_prefix ";base64," tl with
           | None => None
           | Some payload =>
               if String.eqb payload "" || has_line_terminator payload then None
               else Some (run, payload)
           end
  end.

Definition saveImageBlob (base64OrDataUrl : string) : M string :=
  let dataUrlMatch := match_data_url word_char base64OrDataUrl in
  let ext := match dataUrlMatch with Some (e, _) => e | None => "png" end in
  let base64 := match dataUrlMatch with Some (_, b) => b | None => base64OrDataUrl end in
  let* uuid := draw_uuid in
  let fileName := uuid +:+ "." +:+ ext in
  let outPath := Path.to_path (UPLOAD_DIR ++ [fileName]) in
  writeFile outPath (Binary (Buffer_from_base64 rt base64));;
  ret ("/uploads/" +:+ fileName).
End Store.

(** ** The tool layer (mcp/routes.ts) *)

Section Tools.
Variable rt : Runtime.

(** [z.number().min(lo).max(hi)]. *)
Definition in_range (lo hi v : number) : bool := JS.ge v lo && JS.le v hi.
Definition percent := in_range 0 100.
Definition rotation := in_range (-360) 360.
Definition opacity := in_range 0 1.

Definition positionSchema (p : Position) : bool := percent (x p) && percent (y p).
Definition dimensionsSchema (d : Dimensions) : bool :=
  percent (width d) && percent (height d).

(** The arguments of [spray_text], defaults filled in. *)
Record SprayTextArgs := {
  st_text : string;
  st_font : string;
  st_color : string;
  st_position : Position;
  st_size : number;
  st_rotation : number;
  st_opacity : number
}.

Definition sprayTextSchema (args : SprayTextArgs) : bool :=
  negb (String.eqb (st_text args) "")
  && positionSchema (st_position args)
  && in_range 8 300 (st_size args)
  && rotation (st_rotation args)
  && opacity (st_opacity args).

Record SprayImageArgs := {
  si_image_url : option string;
  si_image_blob : option string;
  si_position : Position;
  si_dimensions : Dimensions;
  si_rotation : number;
  si_opacity : number
}.

Definition sprayImageSchema (args : SprayImageArgs) : bool :=
  match si_image_url args with Some u => is_url rt u | None => true end
  && positionSchema (si_position args)
  && dimensionsSchema (si_dimensions args)
  && rotation (si_rotation args)
  && opacity (si_opacity args).

(** [Boolean(s)] for an optional string. *)
Definition truthy (s : option string) : bool :=
  match s with
  | Some v => negb (String.eqb v "")
  | None => false
  end.

(** The [refine] of [sprayImageInput]. *)
Definition sprayImageInput (args : SprayImageArgs) : bool :=
  sprayImageSchema args && (truthy (si_image_url args) || truthy (si_image_blob args)).

Definition fractionRange (value : number) : bool :=
  JS.ge value 0 && JS.lt value 1.

Definition normalizePercentPair (first second : number) : number * number * bool :=
  let shouldNormalize := fractionRange first && fractionRange second in
  if negb shouldNormalize then (first, second, false)
  else ((first * 100)%float, (second * 100)%float, true).

(** The record [spray_text] hands to [addGraffiti]. *)
Definition spray_text_item (args : SprayTextArgs) : NewGraffitiItem :=
  let '(first, second, _) :=
    normalizePercentPair (x (st_position args)) (y (st_position args)) in
  NewText {| new_text := st_text args; new_font := st_font args;
             new_color := st_color args;
             new_text_position := {| x := first; y := second |};
             new_size := st_size args;
             new_text_rotation := st_rotation args;
             new_text_opacity := st_opacity args |}.

(** The handler of [spray_text], behind the schema the server checks the
    arguments against: the stored item and the text of the reply. *)
Definition spray_text (args : SprayTextArgs) : M (GraffitiItem * string) :=
  if negb (sprayTextSchema args) then throw ZodError
  else
    let '(_, _, normalized) :=
      normalizePercentPair (x (st_position args)) (y (st_position args)) in
    let* item := addGraffiti rt (spray_text_item args) in
    ret (item,
         if normalized
         then "spray_text created " +:+ id item
              +:+ " (normalized 0-1 position fractions to 0-100 percentages)"
         else "spray_text created " +:+ id item).

Definition spray_image_item (args : SprayImageArgs) (url : string) : NewGraffitiItem :=
  let '(px, py, _) :=
    normalizePercentPair (x (si_position args)) (y (si_position args)) in
  let '(dw, dh, _) :=
    normalizePercentPair (width (si_dimensions args)) (height (si_dimensions args)) in
  NewImage {| new_imageUrl := url;
              new_image_position := {| x := px; y := py |};
              new_dimensions := {| width := dw; height := dh |};
              new_image_rotation := si_rotation args;
              new_image_opacity := si_opacity args |}.

Definition spray_image (args : SprayImageArgs) : M (GraffitiItem * string) :=
  if negb (sprayImageSchema args) then throw ZodError
  else if negb (sprayImageInput args) then throw ZodError
  else
    let '(_, _, normalizedPosition) :=
      normalizePercentPair (x (si_position args)) (y (si_position args)) in
    let '(_, _, normalizedDimensions) :=
      normalizePercentPair (width (si_dimensions args)) (height (si_dimensions args)) in
    let* url :=
      match si_image_url args with
      | Some u => ret u
      | None => saveImageBlob rt (default "" (si_image_blob args))
      end in
    let* item := addGraffiti rt (spray_image_item args url) in
    ret (item,
         if normalizedPosition || normalizedDimensions
         then "spray_image created " +:+ id item
              +:+ " (normalized 0-1 fractions to 0-100 percentages)"
         else "spray_image created " +:+ id item).

(** A tool invocation: the tool's name with its arguments. *)
Inductive ToolCall :=
  | call_spray_text (args : SprayTextArgs)
  | call_spray_image (args : SprayImageArgs).

Definition callTool (call : ToolCall) : M (GraffitiItem * string) :=
  match call with
  | call_spray_text args => spray_text args
  | call_spray_image args => spray_image args
  end.
End Tools.

(** ** The snapshot compositor (lib/graffiti.ts) *)

Record SnapshotResult := {
  result_imageUrl : string;
  result_width : number;
  result_height : number;
  itemCount : nat;
  skippedImages : nat;
  fromCache : bool;
  snapshotKey : string
}.

Section Snapshot.
Variable rt : Runtime.

Definition percentToPixels (value : json_number) (size : number) : number :=
  ((JS.ToNumber value / 100) * size)%float.

Fixpoint resolveBackgroundPath_from (candidates : list string) : M string :=
  match candidates with
  | [] => throw NoBackground
  | fileName :: rest =>
      let filePath := Path.to_path (PUBLIC_DIR rt ++ [fileName]) in
      try_catch (access filePath;; ret filePath) (resolveBackgroundPath_from rest)
  end.

Definition resolveBackgroundPath : M string :=
  resolveBackgroundPath_from BACKGROUND_CANDIDATES.

Definition lower (c : ascii) : ascii :=
  let n := nat_of_ascii c in
  if ((65 <=? n) && (n <=? 90))%nat then ascii_of_nat (n + 32) else c.

Fixpoint lowercase (s : string) : string :=
  match s with
  | EmptyString => EmptyString
  | String c rest => String (lower c) (lowercase rest)
  end.

(** [/^https?:\/\//i.test(s)]. *)
Definition is_http (s : string) : bool :=
  String.prefix "http://" (lowercase s) || String.prefix "https://" (lowercase s).

Definition loadImageSource (imageUrl : string) : M (option Buffer) :=
  match match_data_url mime_char imageUrl with
  | Some (_, payload) => ret (Some (Buffer_from_base64 rt payload))
  | None =>
      if JS.startsWith imageUrl "/" then
        let publicRoot := Path.to_path (PUBLIC_DIR rt) in
        let resolvedPath :=
          Path.to_path (Path.resolve (PUBLIC_DIR rt) (JS.strip_leading_slashes imageUrl)) in
        if negb (JS.startsWith resolvedPath (publicRoot +:+ "/")) then ret None
        else try_catch (let* f := readFile resolvedPath in ret (Some (file_bytes f)))
                       (ret None)
      else if is_http imageUrl then
        emit (EvFetch imageUrl);;
        ret (fetch rt imageUrl)
      else ret None
  end.

(** [Buffer.from(svg)] for the document [textOverlaySvg] writes from the
    item and the size of the wall: the lines of the text, the font and
    the colour through [escapeXml], the numbers as they print.  Writing
    it never fails; whether sharp takes the document is settled where it
    is decoded, in [composite]. *)
Definition textOverlaySvg (item : GraffitiText) (w h : number) : Buffer :=
  SvgText item w h.

(** [sharp(src).resize(..).rotate(..).ensureAlpha(..).png().toBuffer()]:
    sharp rejects bytes it cannot decode. *)
Definition sticker (src : Buffer) (targetWidth targetHeight : number)
           (rot op : json_number) : M (Buffer * (number * number)) :=
  match sharp_metadata src with
  | None => throw SharpError
  | Some _ =>
      match toBuffer_info rt targetWidth targetHeight rot op with
      | None => throw SharpError
      | Some (iw, ih) =>
          ret (Sticker src targetWidth targetHeight rot op iw ih, (iw, ih))
      end
  end.

(** sharp composites only what is no larger than the base. *)
Definition overlay_fits (w h : number) (o : OverlayOptions) : bool :=
  match sharp_metadata (fst o) with
  | Some (Some ow, Some oh) => JS.le ow w && JS.le oh h
  | _ => false
  end.

(** An overlay sharp can decode: the SVG document of a text item is one
    when the host's renderer takes it; [escapeXml] sees to five
    characters, not to every character XML refuses. *)
Definition overlay_decodes (o : OverlayOptions) : bool :=
  match fst o with
  | SvgText item w h => renders_svg rt item w h
  | _ => true
  end.

(** [background.composite(overlays).png().toBuffer()]. *)
Definition composite (background : Buffer) (w h : number)
           (overlays : list OverlayOptions) : M Buffer :=
  emit (EvComposite (length overlays));;
  if forallb (overlay_fits w h) overlays && forallb overlay_decodes overlays
  then ret (Composite background overlays)
  else throw SharpError.

(** One turn of [for (const item of items)]: the overlay it pushes, or
    [None] when it counts a skipped image. *)
Definition overlay_of (w h : number) (item : GraffitiItem) : M (option OverlayOptions) :=
  match item with
  | Text t => ret (Some (textOverlaySvg t w h, None))
  | Image i =>
      let* imageSource := loadImageSource (imageUrl i) in
      match imageSource with
      | None => ret None
      | Some src =>
          let targetWidth :=
            JS.Math_max1 (JS.Math_round (percentToPixels (width (dimensions i)) w)) in
          let targetHeight :=
            JS.Math_max1 (JS.Math_round (percentToPixels (height (dimensions i)) h)) in
          let centerX := percentToPixels (x (image_position i)) w in
          let centerY := percentToPixels (y (image_position i)) h in
          let* out := sticker src targetWidth targetHeight
                              (image_rotation i) (image_opacity i) in
          let '(data, (info_width, info_height)) := out in
          ret (Some (data,
                     Some (JS.Math_round (centerX - info_width / 2)%float,
                           JS.Math_round (centerY - info_height / 2)%float)))
      end
  end.

Fixpoint overlay_loop (w h : number) (items : list GraffitiItem)
         (overlays : list OverlayOptions) (skipped : nat)
  : M (list OverlayOptions * nat) :=
  match items with
  | [] => ret (overlays, skipped)
  | item :: rest =>
      let* o := overlay_of w h item in
      match o with
      | Some ov => overlay_loop w h rest (overlays ++ [ov]) skipped
      | None => overlay_loop w h rest overlays (skipped + 1)
      end
  end.

(** The [reduce] over the items. *)
Definition latest_step (latest : option Z) (item : GraffitiItem) : option Z :=
  match Date_parse rt (createdAt item) with
  | None => latest
  | Some parsed =>
      match latest with
      | None => Some parsed
      | Some l => if (parsed >? l)%Z then Some parsed else latest
      end
  end.

Definition latestChangeMs (items : list GraffitiItem) : option Z :=
  fold_left latest_step items None.

Definition snapshotKey_of (items : list GraffitiItem) : string :=
  match latestChangeMs items with
  | None => "empty"
  | Some ms => JS.String_of_int ms
  end.

Definition snapshot_fileName (key : string) : string :=
  "wall-snapshot-" +:+ key +:+ ".png".

Definition snapshot_path (key : string) : string :=
  Path.to_path (SNAPSHOT_DIR rt ++ [snapshot_fileName key]).

(** The [try] block: [fs.access(outPath)], then
    [sharp(outPath).metadata()]. *)
Definition cached_metadata (outPath : string)
  : M (option number * option number) :=
  access outPath;;
  let* f := readFile outPath in
  match sharp_metadata (file_bytes f) with
  | Some meta => ret meta
  | None => throw SharpError
  end.

Definition generateWallSnapshot : M SnapshotResult :=
  let* items := getGraffiti rt in
  let key := snapshotKey_of items in
  let fileName := snapshot_fileName key in
  let outPath := snapshot_path key in
  let* cached := try_catch (let* meta := cached_metadata outPath in ret (Some meta))
                           (ret None) in
  match cached with
  | Some meta =>
      ret {| result_imageUrl := "/uploads/snapshots/" +:+ fileName;
             result_width := default 0%float (fst meta);
             result_height := default 0%float (snd meta);
             itemCount := length items;
             skippedImages := 0;
             fromCache := true;
             snapshotKey := key |}
  | None =>
      let* backgroundPath := resolveBackgroundPath in
      let* backgroundFile := readFile backgroundPath in
      let background := file_bytes backgroundFile in
      match sharp_metadata background with
      | None => throw SharpError
      | Some metadata =>
          if JS.falsy (fst metadata) || JS.falsy (snd metadata)
          then throw UnknownDimensions
          else
            let w := default 0%float (fst metadata) in
            let h := default 0%float (snd metadata) in
            let* loop := overlay_loop w h items [] 0 in
            let '(overlays, skipped) := loop in
            let* snapshotBuffer := composite background w h overlays in
            writeFile outPath (Binary snapshotBuffer);;
            ret {| result_imageUrl := "/uploads/snapshots/" +:+ fileName;
                   result_width := w;
                   result_height := h;
                   itemCount := length items;
                   skippedImages := skipped;
                   fromCache := false;
                   snapshotKey := key |}
      end
  end.
End Snapshot.

(** ** The session router (mcp/routes.ts) *)

Module Router.

Inductive Method := POST | GET | DELETE.

Record Request := {
  method : Method;
  mcp_session_id : option string;   (* [req.header("mcp-session-id")] *)
  isInitializeRequest : bool        (* [isInitializeRequest(req.body)] *)
}.

Record Response := { status : nat; body : string }.

(** The two maps of [createMcpRouter], by session id; a transport and a
    server are known by the order in which they were constructed.
    [closed] lists the servers whose [close()] was called. *)
Record Registry := {
  transports : gmap string nat;
  servers : gmap string nat;
  constructed : nat;
  closed : list nat;
  generated : nat                   (* calls of [sessionIdGenerator] so far *)
}.

(** What [transport.handleRequest] does to a transport that has not been
    initialised: it accepts the handshake (draws the session id, fires
    [onsessioninitialized]), answers without doing so, or throws. *)
Inductive FreshReply :=
  | Initialized (st : nat)
  | Refused (st : nat)
  | FreshThrows (message : string).

(** What it does to a transport that has its session: it answers, closes
    the transport (firing [onclose]), or throws.  The SDK never runs the
    handshake on such a transport again. *)
Inductive LiveReply :=
  | Answered (st : nat)
  | Closed (st : nat)
  | LiveThrows (message : string).

Section Handlers.
Variable rt : Runtime.
Variable handle_fresh : Request -> FreshReply.
Variable handle_live : string -> Request -> LiveReply.

(** [sessionId ? transports.get(sessionId) : undefined], with the id
    the transport was stored under. *)
Definition lookup_transport (reg : Registry) (req : Request) : option string :=
  match mcp_session_id req with
  | Some sessionId =>
      if String.eqb sessionId "" then None
      else match transports reg !! sessionId with
           | Some _ => Some sessionId
           | None => None
           end
  | None => None
  end.

(** [onsessioninitialized]. *)
Definition onsessioninitialized (i : string) (transport server : nat)
           (reg : Registry) : Registry :=
  {| transports := <[i := transport]> (transports reg);
     servers := <[i := server]> (servers reg);
     constructed := constructed reg;
     closed := closed reg;
     generated := generated reg |}.

(** [transport.onclose]. *)
Definition onclose (i : string) (reg : Registry) : Registry :=
  {| transports := delete i (transports reg);
     servers := delete i (servers reg);
     constructed := constructed reg;
     closed := match servers reg !! i with
               | Some closedServer => closed reg ++ [closedServer]
               | None => closed reg
               end;
     generated := generated reg |}.

Definition handle_existing (i : string) (req : Request) (reg : Registry)
  : option Response * Registry :=
  match handle_live i req with
  | Answered st => (Some {| status := st; body := "" |}, reg)
  | Closed st => (Some {| status := st; body := "" |}, onclose i reg)
  | LiveThrows _ => (None, reg)
  end.

(** [router.post("/mcp", ...)]. *)
Definition post (req : Request) (reg : Registry) : Response * Registry :=
  match lookup_transport reg req with
  | Some i =>
      match handle_existing i req reg with
      | (Some res, reg') => (res, reg')
      | (None, reg') => ({| status := 500; body := "error" |}, reg')
      end
  | None =>
      if negb (isInitializeRequest req) then
        ({| status := 400; body := "Client must send initialize request first" |}, reg)
      else
        let server := constructed reg in
        let transport := S (constructed reg) in
        let reg1 := {| transports := transports reg; servers := servers reg;
                       constructed := S (S (constructed reg));
                       closed := closed reg; generated := generated reg |} in
        match handle_fresh req with
        | Initialized st =>
            let i := randomUUID rt (generated reg1) in
            let reg2 := {| transports := transports reg1; servers := servers reg1;
                           constructed := constructed reg1; closed := closed reg1;
                           generated := S (generated reg1) |} in
            ({| status := st; body := "" |},
             onsessioninitialized i transport server reg2)
        | Refused st => ({| status := st; body := "" |}, reg1)
        | FreshThrows _ => ({| status := 500; body := "error" |}, reg1)
        end
  end.

(** [router.get("/mcp", ...)] and [router.delete("/mcp", ...)]. *)
Definition get_or_delete (req : Request) (reg : Registry) : option Response * Registry :=
  match lookup_transport reg req with
  | None => (Some {| status := 400; body := "No active MCP session." |}, reg)
  | Some i => handle_existing i req reg
  end.

(** One request through the router; [None] is a rejected promise no
    handler caught. *)
Definition route (req : Request) (reg : Registry) : option Response * Registry :=
  match method req with
  | POST => let (res, reg') := post req reg in (Some res, reg')
  | GET => get_or_delete req reg
  | DELETE => get_or_delete req reg
  end.
End Handlers.

End Router.

(** ** Appends that overlap

    [addGraffiti] gives way at each [await]: before [fs.access], before
    the [fs.writeFile] that creates the file, before [fs.readFile] and
    before the final [fs.writeFile].  And [fs.writeFile] is two system
    calls, an [open] that leaves the file empty and a [write], with other
    tasks running in between.  A task is an [addGraffiti] call stopped at
    one of these points; a schedule says which task runs its next stretch.

    Every [write] goes to the start of the file.  Where the file is empty,
    as an [open] left it, it then holds the text written.  Where another
    task has written since, what it holds depends on the lengths of the two
    texts, the tail of the longer one staying: the model does not say, and
    [step] is [None].  So [run] follows the interleavings in which every
    [write] finds the file empty; a text is taken to go out in one [write]
    and to come in by one [read]. *)

Module Tasks.

Inductive Task :=
  | Called (item : NewGraffitiItem)
  | AtAccess (next : GraffitiItem)
  | AtCreate (next : GraffitiItem)
  | Creating (next : GraffitiItem)
  | AtRead (next : GraffitiItem)
  | AtWrite (next : GraffitiItem) (existing : list GraffitiItem)
  | Writing (next : GraffitiItem) (existing : list GraffitiItem)
  | Settled (result : Outcome GraffitiItem).

(** [open(path, "w")]: the file is there and empty. *)
Definition open_w (path : string) : M unit :=
  writeFile path (Binary (Bytes "")).

(** [write] of a whole file at its start. *)
Definition write (path : string) (f : File) (w : World) : option World :=
  match fs w !! path with
  | Some (Binary (Bytes EmptyString)) =>
      Some {| fs := <[path := f]> (fs w); uuids := uuids w; ticks := ticks w;
              trace := trace w |}
  | _ => None
  end.

Section Steps.
Variable rt : Runtime.

Definition step (t : Task) (w : World) : option (Task * World) :=
  match t with
  | Called item =>
      match make_next rt item w with
      | (Return next, w') => Some (AtAccess next, w')
      | (Throw e, w') => Some (Settled (Throw e), w')
      end
  | AtAccess next =>
      match access (DATA_FILE rt) w with
      | (Return _, w') => Some (AtRead next, w')
      | (Throw _, w') => Some (AtCreate next, w')
      end
  | AtCreate next =>
      match open_w (DATA_FILE rt) w with
      | (Return _, w') => Some (Creating next, w')
      | (Throw e, w') => Some (Settled (Throw e), w')
      end
  | Creating next =>
      match write (DATA_FILE rt) (Json []) w with
      | Some w' => Some (AtRead next, w')
      | None => None
      end
  | AtRead next =>
      match (let* raw := readFile (DATA_FILE rt) in
             let* parsed := JSON_parse raw in
             ret (sort (by_createdAt rt) parsed)) w with
      | (Return existing, w') => Some (AtWrite next (existing ++ [next]), w')
      | (Throw e, w') => Some (Settled (Throw e), w')
      end
  | AtWrite next existing =>
      match open_w (DATA_FILE rt) w with
      | (Return _, w') => Some (Writing next existing, w')
      | (Throw e, w') => Some (Settled (Throw e), w')
      end
  | Writing next existing =>
      match write (DATA_FILE rt) (Json existing) w with
      | Some w' => Some (Settled (Return next), w')
      | None => None
      end
  | Settled r => Some (Settled r, w)
  end.

(** The task at index [i] runs one stretch. *)
Definition step_at (i : nat) (tasks : list Task) (w : World)
  : option (list Task * World) :=
  match tasks !! i with
  | Some t =>
      match step t w with
      | Some (t', w') => Some (<[i := t']> tasks, w')
      | None => None
      end
  | None => Some (tasks, w)
  end.

Fixpoint run (schedule : list nat) (tasks : list Task) (w : World)
  : option (list Task * World) :=
  match schedule with
  | [] => Some (tasks, w)
  | i :: rest =>
      match step_at i tasks w with
      | Some (tasks', w') => run rest tasks' w'
      | None => None
      end
  end.

Definition settled (t : Task) : bool :=
  match t with
  | Settled (Return _) => true
  | _ => false
  end.

(** One call after the other: each task runs all its stretches, seven at
    most, before the next one starts. *)
Definition one_by_one (n : nat) : list nat :=
  flat_map (fun i => repeat i 7) (seq 0 n).
End Steps.

End Tasks.

(** ** The rest of lib/graffiti.ts: [escapeXml] *)

(** [s.replaceAll(c, by)] for a pattern of one character. *)
Fixpoint replaceAll (c : ascii) (by_ : string) (s : string) : string :=
  match s with
  | EmptyString => EmptyString
  | String a rest =>
      if Ascii.eqb a c then by_ +:+ replaceAll c by_ rest
      else String a (replaceAll c by_ rest)
  end.

Definition quot : ascii := "034".
Definition apos : ascii := "039".

Definition escapeXml (value : string) : string :=
  replaceAll apos "&apos;"
    (replaceAll quot "&quot;"
       (replaceAll ">" "&gt;"
          (replaceAll "<" "&lt;"
             (replaceAll "&" "&amp;" value)))).

(** ** The command-line client (mcp/client.ts) *)

Module Client.

(** A parsed JSON value. *)
#[warnings="-register-all"]
Inductive Json :=
  | JNull
  | JBool (b : bool)
  | JNumber (n : number)
  | JString (s : string)
  | JArray (elements : list Json)
  | JObject (members : list (string * Json)).

(** [typeof v === "string"]. *)
Definition as_string (v : option Json) : option string :=
  match v with
  | Some (JString s) => Some s
  | _ => None
  end.

Section Inline.
(** [bytes.toString("base64")]. *)
Variable toString_base64 : Buffer -> string.
(** The absolute path the operating system resolves a path to from the
    client's working directory, by its directories and links, if it
    resolves at all. *)
Variable realpath : string -> option string.

(** [readFile(path)] on a path as the user wrote it. *)
Definition readFile_as_written (path : string) : M File :=
  match realpath path with
  | Some absolute => readFile absolute
  | None => throw ENOENT
  end.

(** [args] is a [Record<string, unknown>]: its own keys and their
    values. *)
Definition maybeInlineImageBlob (args : gmap string Json) : M (gmap string Json) :=
  match as_string (args !! "image_blob_file") with
  | None => ret args
  | Some path =>
      let* bytes := readFile_as_written path in
      let next := <["image_blob" := JString (toString_base64 (file_bytes bytes))]> args in
      ret (delete "image_blob_file" next)
  end.
End Inline.

End Client.

(** ** A host to run the model on

    A working directory, ids and a clock that never repeat, and
    [Date.parse] on the format [toISOString] writes
    ([YYYY-MM-DDTHH:mm:ss.sssZ]); any other string is not a date here. *)

Module Host.

Definition digit (c : ascii) : option Z :=
  let n := nat_of_ascii c in
  if ((48 <=? n) && (n <=? 57))%nat then Some (Z.of_nat n - 48)%Z else None.

Fixpoint digits (s : string) (acc : Z) : option Z :=
  match s with
  | EmptyString => Some acc
  | String c rest =>
      match digit c with
      | Some d => digits rest (acc * 10 + d)%Z
      | None => None
      end
  end.

Definition field (s : string) (from len : nat) : option Z :=
  digits (String.substring from len s) 0%Z.

Definition leap (year : Z) : bool :=
  ((year mod 4 =? 0) && negb (year mod 100 =? 0) || (year mod 400 =? 0))%Z.

Definition days_in_month (year month : Z) : Z :=
  if (month =? 2)%Z then (if leap year then 29 else 28)%Z
  else if ((month =? 4) || (month =? 6) || (month =? 9) || (month =? 11))%Z
       then 30%Z else 31%Z.

(** Days from 1970-01-01 to the given civil date. *)
Definition days_from_civil (year month day : Z) : Z :=
  let y := (if month <=? 2 then year - 1 else year)%Z in
  let era := (y / 400)%Z in
  let yoe := (y - era * 400)%Z in
  let mp := (if month >? 2 then month - 3 else month + 9)%Z in
  let doy := ((153 * mp + 2) / 5 + day - 1)%Z in
  let doe := (yoe * 365 + yoe / 4 - yoe / 100 + doy)%Z in
  (era * 146097 + doe - 719468)%Z.

Definition separators_ok (s : string) : bool :=
  String.eqb (String.substring 4 1 s) "-" && String.eqb (String.substring 7 1 s) "-"
  && String.eqb (String.substring 10 1 s) "T" && String.eqb (String.substring 13 1 s) ":"
  && String.eqb (String.substring 16 1 s) ":" && String.eqb (String.substring 19 1 s) "."
  && String.eqb (String.substring 23 1 s) "Z".

Definition parse_iso (s : string) : option Z :=
  if negb ((String.length s =? 24)%nat && separators_ok s) then None
  else
    match field s 0 4, field s 5 2, field s 8 2,
          field s 11 2, field s 14 2, field s 17 2, field s 20 3 with
    | Some year, Some month, Some day, Some hour, Some minute, Some second, Some ms =>
        if ((1 <=? month) && (month <=? 12) && (1 <=? day)
            && (day <=? days_in_month year month)
            && (hour <=? 23) && (minute <=? 59) && (second <=? 59))%Z
        then Some ((((days_from_civil year month day * 24 + hour) * 60 + minute) * 60
                    + second) * 1000 + ms)%Z
        else None
    | _, _, _, _, _, _, _ => None
    end.

Definition decimal (n : nat) : string := NilZero.string_of_uint (Nat.to_uint n).

Definition pad3 (n : nat) : string :=
  let s := decimal (n mod 1000) in
  match String.length s with
  | 1 => "00" +:+ s
  | 2 => "0" +:+ s
  | _ => s
  end.

(** The clock: one millisecond per reading, from 2024-01-01. *)
Definition clock (n : nat) : string :=
  "2024-01-01T00:00:" +:+ String.substring 1 2 (pad3 (100 + (n / 1000) mod 60))
  +:+ "." +:+ pad3 n +:+ "Z".

Definition png (label : string) (w h : number) : Buffer := Bitmap label (Some w) (Some h).

(** Base64 payloads decode to bytes that are no image, except the one
    payload that stands for a 10 by 10 sticker. *)
Definition from_base64 (payload : string) : Buffer :=
  if String.eqb payload "c3RpY2tlcg==" then png "sticker" 10 10 else Bytes payload.

(** The network serves one picture. *)
Definition network (url : string) : option Buffer :=
  if String.eqb url "https://example.com/tag.png" then Some (png "tag" 64 64) else None.

(** A rotation by nothing keeps the size; the host knows no other. *)
Definition rotated (w h : number) (angle alpha : json_number) : option (number * number) :=
  match angle with
  | Some a => if (a =? 0)%float then Some (w, h) else None
  | None => None
  end.

(** Collation by code units: on the strings [clock] writes, all of one
    length with digits between the same separators, that is the order of
    every collation. *)
Definition collate (a b : string) : Z :=
  match String_as_OT.compare a b with
  | Lt => (-1)%Z
  | Eq => 0%Z
  | Gt => 1%Z
  end.

(** The characters XML takes, among those below 128: tab, line feed,
    carriage return, and the space and what follows it. *)
Definition xml_char (c : ascii) : bool :=
  let n := nat_of_ascii c in
  ((32 <=? n) || (n =? 9) || (n =? 10) || (n =? 13))%nat.

Fixpoint xml_text (s : string) : bool :=
  match s with
  | EmptyString => true
  | String c rest => xml_char c && xml_text rest
  end.

Definition renders (item : GraffitiText) (w h : number) : bool :=
  xml_text (text item) && xml_text (font item) && xml_text (color item).

Definition runtime : Runtime :=
  {| cwd := "/srv/leftys";
     randomUUID := fun n => "uuid-" +:+ decimal n;
     toISOString := clock;
     Date_parse := parse_iso;
     localeCompare := collate;
     Buffer_from_base64 := from_base64;
     fetch := network;
     toBuffer_info := rotated;
     renders_svg := renders;
     is_url := fun s => String.prefix "http://" s || String.prefix "https://" s |}.

Definition world (files : list (string * File)) : World :=
  {| fs := list_to_map files; uuids := 0; ticks := 0; trace := [] |}.

Definition background : string * File :=
  ("/srv/leftys/public/leftys-bg.png", Binary (png "wall" 1000 800)).

Definition new_tag : NewGraffitiItem :=
  NewText {| new_text := "hi"; new_font := "Impact, sans-serif"; new_color := "#111111";
             new_text_position := {| x := 10%float; y := 10%float |}; new_size := 20;
             new_text_rotation := 0; new_text_opacity := 1 |}.

(** The tag [new_tag] under an id and a time. *)
Definition tag (i c : string) : GraffitiItem := with_id_createdAt new_tag i c.

Definition sticker_item (i c url : string) : GraffitiItem :=
  Image {| image_id := i; imageUrl := url;
           image_position := {| x := Some 50%float; y := Some 50%float |};
           dimensions := {| width := Some 20%float; height := Some 20%float |};
           image_rotation := Some 0%float; image_opacity := Some 1%float;
           image_createdAt := c |}.

Definition store (items : list GraffitiItem) : string * File :=
  ("/srv/leftys/data/graffiti.json", Json items).

End Host.

(** * Vocabulary of the facts

    Worlds after some I/O, what the compositor's steps compute apart from
    the I/O they log, the statements of the specification in its own
    words, and the walls the facts are tried on. *)

(** The world after some more I/O was logged. *)
Definition logged (events : list Event) (w : World) : World :=
  {| fs := fs w; uuids := uuids w; ticks := ticks w; trace := trace w ++ events |}.

(** The world after a file was put in place. *)
Definition stored (path : string) (f : File) (w : World) : World :=
  {| fs := <[path := f]> (fs w); uuids := uuids w; ticks := ticks w; trace := trace w |}.

(** ** The store *)

(** The host's collation is an order on strings: any two compare one way
    or the other, and transitively. *)
Definition collation_is_an_order (rt : Runtime) : Prop :=
  (forall a b, (localeCompare rt a b <= 0 \/ localeCompare rt b a <= 0)%Z)
  /\ (forall a b c,
        (localeCompare rt a b <= 0 -> localeCompare rt b c <= 0 -> localeCompare rt a c <= 0)%Z).

(** The time an item was created at, where its [createdAt] is a date. *)
Definition time_of (rt : Runtime) (item : GraffitiItem) : option Z :=
  Date_parse rt (createdAt item).

(** Every [createdAt] of the items is a date, and the collation puts two
    of these strings in the order of their dates: so it is for what
    [toISOString] writes, digits in fixed places from the year down to
    the millisecond. *)
Definition collates_by_date (rt : Runtime) (items : list GraffitiItem) : bool :=
  forallb
    (fun a =>
       forallb
         (fun b =>
            match time_of rt a, time_of rt b with
            | Some ta, Some tb =>
                Bool.eqb (localeCompare rt (createdAt a) (createdAt b) <=? 0)%Z (ta <=? tb)%Z
            | _, _ => false
            end)
         items)
    items.

(** The time an item sorts at: its date, or zero where it has none. *)
Definition instant (rt : Runtime) (item : GraffitiItem) : Z := default 0%Z (time_of rt item).

(** The comparator that looks at the dates. *)
Definition by_time (rt : Runtime) (a b : GraffitiItem) : Z :=
  match (instant rt a ?= instant rt b)%Z with
  | Lt => (-1)%Z
  | Eq => 0%Z
  | Gt => 1%Z
  end.

(** [a] was created no later than [b]. *)
Definition no_later (rt : Runtime) (a b : GraffitiItem) : Prop :=
  exists ta tb, time_of rt a = Some ta /\ time_of rt b = Some tb /\ (ta <= tb)%Z.

(** The item was created at time [t]. *)
Definition created_at (rt : Runtime) (t : Z) (item : GraffitiItem) : bool :=
  match time_of rt item with
  | Some u => (u =? t)%Z
  | None => false
  end.

(** Every [createdAt] of the items is a date. *)
Definition dated (rt : Runtime) (items : list GraffitiItem) : bool :=
  forallb (fun item => match time_of rt item with Some _ => true | None => false end) items.

(** Numbers a JSON text holds: neither NaN nor an infinity. *)
Definition finite_numbers (item : NewGraffitiItem) : bool :=
  match item with
  | NewImage n =>
      PrimFloat.is_finite (x (new_image_position n))
      && PrimFloat.is_finite (y (new_image_position n))
      && PrimFloat.is_finite (width (new_dimensions n))
      && PrimFloat.is_finite (height (new_dimensions n))
      && PrimFloat.is_finite (new_image_rotation n)
      && PrimFloat.is_finite (new_image_opacity n)
  | NewText n =>
      PrimFloat.is_finite (x (new_text_position n))
      && PrimFloat.is_finite (y (new_text_position n))
      && PrimFloat.is_finite (new_size n)
      && PrimFloat.is_finite (new_text_rotation n)
      && PrimFloat.is_finite (new_text_opacity n)
  end.

(** The zero with the sign bit set. *)
Definition negative_zero (v : number) : bool := PrimFloat.is_zero v && PrimFloat.get_sign v.

Definition has_negative_zero (item : NewGraffitiItem) : bool :=
  match item with
  | NewImage n =>
      negative_zero (x (new_image_position n))
      || negative_zero (y (new_image_position n))
      || negative_zero (width (new_dimensions n))
      || negative_zero (height (new_dimensions n))
      || negative_zero (new_image_rotation n)
      || negative_zero (new_image_opacity n)
  | NewText n =>
      negative_zero (x (new_text_position n))
      || negative_zero (y (new_text_position n))
      || negative_zero (new_size n)
      || negative_zero (new_text_rotation n)
      || negative_zero (new_text_opacity n)
  end.

(** [a === b] for two numbers or [null]s. *)
Definition same_number (a b : json_number) : bool :=
  match a, b with
  | Some m, Some n => (m =? n)%float
  | None, None => true
  | _, _ => false
  end.

(** Two items with the same strings and with numbers that compare equal
    field by field. *)
Definition same_item (a b : GraffitiItem) : bool :=
  match a, b with
  | Image i, Image j =>
      String.eqb (image_id i) (image_id j)
      && String.eqb (imageUrl i) (imageUrl j)
      && same_number (x (image_position i)) (x (image_position j))
      && same_number (y (image_position i)) (y (image_position j))
      && same_number (width (dimensions i)) (width (dimensions j))
      && same_number (height (dimensions i)) (height (dimensions j))
      && same_number (image_rotation i) (image_rotation j)
      && same_number (image_opacity i) (image_opacity j)
      && String.eqb (image_createdAt i) (image_createdAt j)
  | Text s, Text t =>
      String.eqb (text_id s) (text_id t)
      && String.eqb (text s) (text t)
      && String.eqb (font s) (font t)
      && String.eqb (color s) (color t)
      && same_number (x (text_position s)) (x (text_position t))
      && same_number (y (text_position s)) (y (text_position t))
      && same_number (size s) (size t)
      && same_number (text_rotation s) (text_rotation t)
      && same_number (text_opacity s) (text_opacity t)
      && String.eqb (text_createdAt s) (text_createdAt t)
  | _, _ => false
  end.

(** The claim on [append] and [list] as the specification words it: the
    listing after the append is the listing before with one entry put in,
    the record the append returned. *)
Definition append_lists_the_returned_record
           (rt : Runtime) (item : NewGraffitiItem) (w : World) : Prop :=
  forall prior next w1 after,
    fst (getGraffiti rt w) = Return prior ->
    addGraffiti rt item w = (Return next, w1) ->
    fst (getGraffiti rt w1) = Return after ->
    exists before behind, prior = before ++ behind /\ after = before ++ next :: behind.

(** ** The tool layer *)

(** The normalization rule in the words of the specification: a pair with
    both components in [0,1) is a pair of fractions and is multiplied by
    100; any other pair is used as it is. *)
Definition in_unit_interval (v : number) : bool := ((0 <=? v) && (v <? 1))%float.

Definition normalized (pair : number * number) : number * number :=
  if in_unit_interval (fst pair) && in_unit_interval (snd pair)
  then ((fst pair * 100)%float, (snd pair * 100)%float)
  else pair.

(** The pairs a call supplies, and the pairs of a stored item. *)
Definition supplied_position (call : ToolCall) : number * number :=
  match call with
  | call_spray_text args => (x (st_position args), y (st_position args))
  | call_spray_image args => (x (si_position args), y (si_position args))
  end.

Definition supplied_dimensions (call : ToolCall) : option (number * number) :=
  match call with
  | call_spray_text _ => None
  | call_spray_image args => Some (width (si_dimensions args), height (si_dimensions args))
  end.

Definition stored_position (item : GraffitiItem) : json_number * json_number :=
  (x (position item), y (position item)).

Definition stored_dimensions (item : GraffitiItem) : option (json_number * json_number) :=
  match item with
  | Image i => Some (width (dimensions i), height (dimensions i))
  | Text _ => None
  end.

(** A pair of numbers as a record holds it. *)
Definition held (pair : number * number) : json_number * json_number :=
  (Some (fst pair), Some (snd pair)).

(** The schema the server holds a call against. *)
Definition accepted_call (rt : Runtime) (call : ToolCall) : bool :=
  match call with
  | call_spray_text args => sprayTextSchema args
  | call_spray_image args => sprayImageInput rt args
  end.

(** ** The snapshot key *)

(** The greatest of some time values. *)
Fixpoint maximum (l : list Z) : option Z :=
  match l with
  | [] => None
  | t :: rest =>
      match maximum rest with
      | None => Some t
      | Some m => Some (Z.max t m)
      end
  end.

(** The time values of the items whose [createdAt] is a date. *)
Definition timestamps (rt : Runtime) (items : list GraffitiItem) : list Z :=
  omap (fun item => Date_parse rt (createdAt item)) items.

(** The key as the specification words it: the greatest [createdAt] time
    over all the items, each of them a date, or the sentinel for the empty
    store. *)
Definition key_of_all_items (rt : Runtime) (items : list GraffitiItem) (key : string) : Prop :=
  match items with
  | [] => key = "empty"
  | _ =>
      exists ms,
        key = JS.String_of_int ms
        /\ Exists (fun item => Date_parse rt (createdAt item) = Some ms) items
        /\ Forall (fun item => exists t, Date_parse rt (createdAt item) = Some t /\ (t <= ms)%Z)
                  items
  end.

(** ** The compositor *)

Section Compositor.
Variable rt : Runtime.

(** The directory a local image URL resolves to. *)
Definition local_target (url : string) : list string :=
  Path.resolve (PUBLIC_DIR rt) (JS.strip_leading_slashes url).

(** The guard of [loadImageSource]. *)
Definition guard_passes (url : string) : bool :=
  JS.startsWith (Path.to_path (local_target url)) (Path.to_path (PUBLIC_DIR rt) +:+ "/").

(** The bytes [loadImageSource] comes back with. *)
Definition source_bytes (files : gmap string File) (url : string) : option Buffer :=
  match match_data_url mime_char url with
  | Some (_, payload) => Some (Buffer_from_base64 rt payload)
  | None =>
      if JS.startsWith url "/" then
        if guard_passes url
        then file_bytes <$> files !! Path.to_path (local_target url)
        else None
      else if is_http url then fetch rt url
      else None
  end.

(** The I/O it performs on the way. *)
Definition source_events (url : string) : list Event :=
  match match_data_url mime_char url with
  | Some _ => []
  | None =>
      if JS.startsWith url "/" then
        if guard_passes url then [EvRead (Path.to_path (local_target url))] else []
      else if is_http url then [EvFetch url]
      else []
  end.

(** The overlay an item contributes: none for an image without bytes; an
    exception when sharp rejects the bytes. *)
Definition overlay_pure (files : gmap string File) (w h : number) (item : GraffitiItem)
  : Outcome (option OverlayOptions) :=
  match item with
  | Text t => Return (Some (textOverlaySvg t w h, None))
  | Image i =>
      match source_bytes files (imageUrl i) with
      | None => Return None
      | Some src =>
          match fst (sticker rt src
                       (JS.Math_max1 (JS.Math_round (percentToPixels (width (dimensions i)) w)))
                       (JS.Math_max1 (JS.Math_round (percentToPixels (height (dimensions i)) h)))
                       (image_rotation i) (image_opacity i)
                       {| fs := files; uuids := 0; ticks := 0; trace := [] |}) with
          | Throw e => Throw e
          | Return (data, (info_width, info_height)) =>
              Return (Some (data,
                Some (JS.Math_round
                        (percentToPixels (x (image_position i)) w - info_width / 2)%float,
                      JS.Math_round
                        (percentToPixels (y (image_position i)) h - info_height / 2)%float)))
          end
      end
  end.

Definition item_events (item : GraffitiItem) : list Event :=
  match item with
  | Text _ => []
  | Image i => source_events (imageUrl i)
  end.

(** The [for] loop. *)
Fixpoint loop_pure (files : gmap string File) (w h : number) (items : list GraffitiItem)
         (overlays : list OverlayOptions) (skipped : nat)
  : Outcome (list OverlayOptions * nat) :=
  match items with
  | [] => Return (overlays, skipped)
  | item :: rest =>
      match overlay_pure files w h item with
      | Throw e => Throw e
      | Return (Some ov) => loop_pure files w h rest (overlays ++ [ov]) skipped
      | Return None => loop_pure files w h rest overlays (skipped + 1)
      end
  end.

Fixpoint loop_events (files : gmap string File) (w h : number) (items : list GraffitiItem)
  : list Event :=
  match items with
  | [] => []
  | item :: rest =>
      item_events item
      ++ match overlay_pure files w h item with
         | Throw _ => []
         | Return _ => loop_events files w h rest
         end
  end.

(** The background [resolveBackgroundPath] settles on. *)
Fixpoint background_path (files : gmap string File) (candidates : list string) : option string :=
  match candidates with
  | [] => None
  | fileName :: rest =>
      match files !! Path.to_path (PUBLIC_DIR rt ++ [fileName]) with
      | Some _ => Some (Path.to_path (PUBLIC_DIR rt ++ [fileName]))
      | None => background_path files rest
      end
  end.

(** The metadata of the cached snapshot, if sharp can read one. *)
Definition cached_artifact (files : gmap string File) (path : string)
  : option (option number * option number) :=
  match files !! path with
  | Some f => sharp_metadata (file_bytes f)
  | None => None
  end.

End Compositor.

(** The world after the [try] block looked for a cached snapshot. *)
Definition peeked (path : string) (w : World) : World :=
  match fs w !! path with
  | Some _ => logged [EvRead path] w
  | None => w
  end.

(** What a cache hit returns. *)
Definition hit_result (key : string) (meta : option number * option number) (count : nat)
  : SnapshotResult :=
  {| result_imageUrl := "/uploads/snapshots/" +:+ snapshot_fileName key;
     result_width := default 0%float (fst meta);
     result_height := default 0%float (snd meta);
     itemCount := count;
     skippedImages := 0;
     fromCache := true;
     snapshotKey := key |}.

(** What a fresh render returns. *)
Definition fresh_result (key : string) (w h : number) (count skipped : nat) : SnapshotResult :=
  {| result_imageUrl := "/uploads/snapshots/" +:+ snapshot_fileName key;
     result_width := w;
     result_height := h;
     itemCount := count;
     skippedImages := skipped;
     fromCache := false;
     snapshotKey := key |}.

(** An image item for which [loadImageSource] comes back with [null]. *)
Definition unresolved (rt : Runtime) (w : World) (item : GraffitiItem) : bool :=
  match item with
  | Image i =>
      match fst (loadImageSource rt (imageUrl i) w) with
      | Return None => true
      | _ => false
      end
  | Text _ => false
  end.

(** An image item for which [loadImageSource] comes back with bytes that
    are no image to sharp. *)
Definition undecodable (rt : Runtime) (w : World) (item : GraffitiItem) : bool :=
  match item with
  | Image i =>
      match fst (loadImageSource rt (imageUrl i) w) with
      | Return (Some src) => match sharp_metadata src with Some _ => false | None => true end
      | _ => false
      end
  | Text _ => false
  end.

(** The claim as the specification words it: the render returns, and its
    counter is the number of image items that cannot be resolved or
    decoded. *)
Definition skips_every_unusable_image (rt : Runtime) (w : World) : Prop :=
  forall items,
    fst (getGraffiti rt w) = Return items ->
    exists r,
      fst (generateWallSnapshot rt w) = Return r
      /\ skippedImages r
         = length (List.filter (fun item => unresolved rt w item
                                            || undecodable rt w item) items).

(** sharp goes through with the item: [loadImageSource] finds no bytes
    for it, or the sticker pipeline returns. *)
Definition accepted (rt : Runtime) (w : World) (wd ht : number) (item : GraffitiItem) : Prop :=
  exists o, fst (overlay_of rt wd ht item w) = Return o.

(** The overlay the loop pushes for the item. *)
Definition draws (rt : Runtime) (w : World) (wd ht : number)
           (item : GraffitiItem) (ov : OverlayOptions) : Prop :=
  fst (overlay_of rt wd ht item w) = Return (Some ov).

(** The claim on the cache as the specification words it: a render that
    finds the artifact of an earlier render returns what was recorded
    with it, the pixel size and the item and skip counts. *)
Definition hit_returns_the_recorded_metadata (rt : Runtime) (w : World) : Prop :=
  forall first w1 second,
    generateWallSnapshot rt w = (Return first, w1) ->
    fst (generateWallSnapshot rt w1) = Return second ->
    fromCache second = true
    /\ snapshotKey second = snapshotKey first
    /\ result_width second = result_width first
    /\ result_height second = result_height first
    /\ itemCount second = itemCount first
    /\ skippedImages second = skippedImages first.

(** ** The traversal guard *)

Fixpoint slash_free (s : string) : bool :=
  match s with
  | EmptyString => true
  | String c rest => negb (Ascii.eqb c "/") && slash_free rest
  end.

(** A segment of a normalised path: a name, not empty, not a dot, not two
    dots, without a slash. *)
Definition segment (s : string) : bool := Path.proper s && slash_free s.

(** A path under the asset root, by the test the guard applies. *)
Definition under_public (rt : Runtime) (path : string) : Prop :=
  JS.startsWith path (Path.to_path (PUBLIC_DIR rt) +:+ "/") = true.

(** The I/O a render may do: it reads the store file and files under the
    asset root. *)
Definition permitted (rt : Runtime) (e : Event) : Prop :=
  match e with
  | EvRead path => path = DATA_FILE rt \/ under_public rt path
  | _ => True
  end.

(** All the I/O a computation logs satisfies [P]. *)
Definition logs {A} (P : Event -> Prop) (m : M A) : Prop :=
  forall w, exists events, trace (snd (m w)) = trace w ++ events /\ Forall P events.

(** ** The session router *)

(** The request is the handshake: a Router.POST whose body is an initialize
    request. *)
Definition is_initialization (req : Router.Request) : bool :=
  match Router.method req with
  | Router.POST => Router.isInitializeRequest req
  | _ => false
  end.

(** The request carries no session id, an empty one, or one the
    registry does not know. *)
Definition unknown_session (reg : Router.Registry) (req : Router.Request) : Prop :=
  match Router.mcp_session_id req with
  | None => True
  | Some sessionId => sessionId = "" \/ Router.transports reg !! sessionId = None
  end.

(** ** Calls of [addGraffiti] *)

Section Calls.
Variable rt : Runtime.

(** The world once [addGraffiti] has drawn its id and its time. *)
Definition drawn_from (w : World) : World :=
  {| fs := fs w; uuids := S (uuids w); ticks := S (ticks w); trace := trace w |}.

Definition next_of (item : NewGraffitiItem) (w : World) : GraffitiItem :=
  with_id_createdAt item (randomUUID rt (uuids w)) (toISOString rt (ticks w)).

(** Some stretches of one task, nothing in between. *)
Fixpoint stretches (n : nat) (t : Tasks.Task) (w : World) : option (Tasks.Task * World) :=
  match n with
  | O => Some (t, w)
  | S n' =>
      match Tasks.step rt t w with
      | Some (t', w') => stretches n' t' w'
      | None => None
      end
  end.

(** Seven of them are one call of [addGraffiti]. *)
Definition whole_call (t : Tasks.Task) (w : World) : option (Tasks.Task * World) :=
  stretches 7 t w.

(** The calls made one after the other. *)
Fixpoint append_all (items : list NewGraffitiItem) (w : World)
  : list (Outcome GraffitiItem) * World :=
  match items with
  | [] => ([], w)
  | item :: rest =>
      let (r, w1) := addGraffiti rt item w in
      let (rs, w2) := append_all rest w1 in
      (r :: rs, w2)
  end.

(** The records the calls return, in the order of the calls. *)
Fixpoint records (items : list NewGraffitiItem) (u t : nat) : list GraffitiItem :=
  match items with
  | [] => []
  | item :: rest =>
      with_id_createdAt item (randomUUID rt u) (toISOString rt t) :: records rest (S u) (S t)
  end.

End Calls.

(** The claim as the specification words it: however the calls overlap,
    once all have returned the store lists as many items as calls were
    made, under distinct ids. *)
Definition every_schedule_keeps_every_append
           (rt : Runtime) (items : list NewGraffitiItem) (w : World) : Prop :=
  forall schedule tasks w',
    Tasks.run rt schedule (map Tasks.Called items) w = Some (tasks, w') ->
    forallb Tasks.settled tasks = true ->
    exists listed,
      fst (getGraffiti rt w') = Return listed
      /\ length listed = length items
      /\ List.NoDup (map id listed).


(** ** Walls, calls and requests to try the facts on *)

Definition half_way_sticker : ToolCall :=
  call_spray_image
    {| si_image_url := Some "https://example.com/tag.png"; si_image_blob := None;
       si_position := {| x := 0.5%float; y := 0.5%float |};
       si_dimensions := {| width := 24%float; height := 24%float |};
       si_rotation := 10; si_opacity := 0.5 |}.

Definition half_way_tag : ToolCall :=
  call_spray_text
    {| st_text := "hi"; st_font := "Impact, sans-serif"; st_color := "#111111";
       st_position := {| x := 0.5%float; y := 0.5%float |}; st_size := 20;
       st_rotation := 0; st_opacity := 1 |}.

Definition half_way_stored : GraffitiItem :=
  Image {| image_id := "uuid-0"; imageUrl := "https://example.com/tag.png";
           image_position := {| x := Some 50%float; y := Some 50%float |};
           dimensions := {| width := Some 24%float; height := Some 24%float |};
           image_rotation := Some 10%float; image_opacity := Some 0.5%float;
           image_createdAt := "2024-01-01T00:00:00.000Z" |}.

(** A tag sprayed at the left edge, its zero with the sign bit set. *)
Definition tag_at_negative_zero : SprayTextArgs :=
  {| st_text := "hi"; st_font := "Impact, sans-serif"; st_color := "#111111";
     st_position := {| x := (-0)%float; y := 10%float |}; st_size := 20;
     st_rotation := 0; st_opacity := 1 |}.

(** A wall with one sticker whose file is missing, rendered once, then a
    tag sprayed within the same millisecond. *)
Definition missing_sticker : GraffitiItem :=
  Host.sticker_item "s" "2024-01-01T00:00:00.000Z" "/uploads/missing.png".

Definition wall_with_missing_sticker : World :=
  Host.world [Host.store [missing_sticker]; Host.background].

Definition wall_rendered_once : World :=
  snd (generateWallSnapshot Host.runtime wall_with_missing_sticker).

Definition wall_with_a_tag_more : World :=
  stored (DATA_FILE Host.runtime)
         (Json [missing_sticker; Host.tag "t" "2024-01-01T00:00:00.000Z"])
         wall_rendered_once.

(** A wall with a sticker whose file is missing, a tag, and a sticker the
    network serves. *)
Definition three_items : list GraffitiItem :=
  [missing_sticker;
   Host.tag "t" "2024-01-01T00:00:00.001Z";
   Host.sticker_item "n" "2024-01-01T00:00:00.002Z" "https://example.com/tag.png"].

Definition wall_with_three : World :=
  Host.world [Host.store three_items; Host.background].

(** A wall with a sticker whose bytes are found and are no image. *)
Definition wall_with_junk : World :=
  Host.world [Host.store [Host.sticker_item "j" "2024-01-01T00:00:00.000Z"
                                            "data:image/png;base64,AAAA"];
              Host.background].

(** A wall with a text that holds the control character U+0001. *)
Definition wall_with_a_control_character : World :=
  Host.world [Host.store [Text {| text_id := "c"; text := String "001" "hi";
                                  font := "Impact, sans-serif"; color := "#111111";
                                  text_position := {| x := Some 10%float; y := Some 10%float |};
                                  size := Some 20%float; text_rotation := Some 0%float;
                                  text_opacity := Some 1%float;
                                  text_createdAt := "2024-01-01T00:00:00.000Z" |}];
              Host.background].

(** A sticker pointing at the store file through the parent of the root. *)
Definition escaping_sticker : GraffitiImage :=
  {| image_id := "e"; imageUrl := "/../data/graffiti.json";
     image_position := {| x := Some 50%float; y := Some 50%float |};
     dimensions := {| width := Some 20%float; height := Some 20%float |};
     image_rotation := Some 0%float; image_opacity := Some 1%float;
     image_createdAt := "2024-01-01T00:00:00.000Z" |}.

(** A sticker whose file would lie under [uploads]. *)
Definition uploaded_sticker : GraffitiImage :=
  {| image_id := "u"; imageUrl := "/uploads/missing.png";
     image_position := {| x := Some 50%float; y := Some 50%float |};
     dimensions := {| width := Some 20%float; height := Some 20%float |};
     image_rotation := Some 0%float; image_opacity := Some 1%float;
     image_createdAt := "2024-01-01T00:00:00.000Z" |}.

(** A transport that accepts every handshake and closes on DELETE. *)
Definition accepting (req : Router.Request) : Router.FreshReply := Router.Initialized 200.

Definition serving (i : string) (req : Router.Request) : Router.LiveReply :=
  match Router.method req with
  | Router.DELETE => Router.Closed 200
  | _ => Router.Answered 200
  end.

Definition no_sessions : Router.Registry :=
  {| Router.transports := ∅; Router.servers := ∅; Router.constructed := 0;
     Router.closed := []; Router.generated := 0 |}.

Definition stale_call : Router.Request :=
  {| Router.method := Router.POST; Router.mcp_session_id := Some "stale";
     Router.isInitializeRequest := false |}.

Definition handshake : Router.Request :=
  {| Router.method := Router.POST; Router.mcp_session_id := None;
     Router.isInitializeRequest := true |}.

Ltac run_io :=
  unfold bind, try_catch, ret, throw, emit, access, readFile, writeFile; cbn.

(** * Vocabulary of the further facts *)

(** ** [escapeXml] *)

(** The entity of a character, or the character itself. *)
Definition escape_char (c : ascii) : string :=
  if Ascii.eqb c "&" then "&amp;"
  else if Ascii.eqb c "<" then "&lt;"
  else if Ascii.eqb c ">" then "&gt;"
  else if Ascii.eqb c quot then "&quot;"
  else if Ascii.eqb c apos then "&apos;"
  else String c EmptyString.

(** One pass over the string, character by character. *)
Fixpoint escape_each (s : string) : string :=
  match s with
  | EmptyString => EmptyString
  | String c rest => escape_char c +:+ escape_each rest
  end.

Fixpoint has_char (c : ascii) (s : string) : bool :=
  match s with
  | EmptyString => false
  | String a rest => Ascii.eqb a c || has_char c rest
  end.

(** ** Worlds to try the further facts on *)

(** A store file cut off in the middle of a write. *)
Definition torn_store : World :=
  Host.world [("/srv/leftys/data/graffiti.json", Binary (Bytes "[{")); Host.background].

(** ** Data URLs and uploads *)

Fixpoint every_char (cls : ascii -> bool) (s : string) : bool :=
  match s with
  | EmptyString => true
  | String c rest => cls c && every_char cls rest
  end.

(** A data URL: the prefix, a media subtype, the base64 marker and a
    payload on one line. *)
Definition data_url (subtype payload : string) : string :=
  "data:image/" +:+ subtype +:+ ";base64," +:+ payload.

(** The file name [saveImageBlob] gives the next upload, the segments of
    the path it writes, and the text it decodes. *)
Definition blob_extension (blob : string) : string :=
  match match_data_url word_char blob with
  | Some (ext, _) => ext
  | None => "png"
  end.

Definition blob_payload (blob : string) : string :=
  match match_data_url word_char blob with
  | Some (_, base64) => base64
  | None => blob
  end.

Definition upload_name (rt : Runtime) (w : World) (blob : string) : string :=
  randomUUID rt (uuids w) +:+ "." +:+ blob_extension blob.

(** ** Calls to try the further facts on *)

(** A text sprayed off the wall. *)
Definition off_the_wall : ToolCall :=
  call_spray_text
    {| st_text := "hi"; st_font := "Impact, sans-serif"; st_color := "#111111";
       st_position := {| x := 120%float; y := 10%float |}; st_size := 20;
       st_rotation := 0; st_opacity := 1 |}.

Definition url_and_blob : SprayImageArgs :=
  {| si_image_url := Some "https://example.com/tag.png";
     si_image_blob := Some "c3RpY2tlcg==";
     si_position := {| x := 50%float; y := 50%float |};
     si_dimensions := {| width := 20%float; height := 20%float |};
     si_rotation := 0; si_opacity := 1 |}.

Definition blob_only : SprayImageArgs :=
  {| si_image_url := None;
     si_image_blob := Some "c3RpY2tlcg==";
     si_position := {| x := 50%float; y := 50%float |};
     si_dimensions := {| width := 20%float; height := 20%float |};
     si_rotation := 0; si_opacity := 1 |}.

(** ** What a computation leaves alone *)

(** The computation leaves the file at [path], or its absence, as it
    was. *)
Definition keeps {A} (path : string) (m : M A) : Prop :=
  forall w, fs (snd (m w)) !! path = fs w !! path.

(** It does so at least when it throws. *)
Definition keeps_when_it_throws {A} (path : string) (m : M A) : Prop :=
  forall w e, fst (m w) = Throw e -> fs (snd (m w)) !! path = fs w !! path.

(** A path in the snapshot directory, by its string. *)
Definition under_snapshots (rt : Runtime) (path : string) : bool :=
  JS.startsWith path (Path.to_path (SNAPSHOT_DIR rt) +:+ "/").

(** A wall whose one tag is dated at the instant the host's clock reads
    first. *)
Definition wall_of_now : World :=
  Host.world [Host.store [Host.tag "a" "2024-01-01T00:00:00.000Z"]; Host.background].

(** ** Requests in sequence *)

(** A request, with what the SDK's transports answer when it comes. *)
Record Exchange := {
  answers_fresh : Router.Request -> Router.FreshReply;
  answers_live : string -> Router.Request -> Router.LiveReply;
  request : Router.Request
}.

(** The registry after the requests, one after the other. *)
Definition serve (rt : Runtime) (exchanges : list Exchange) (reg : Router.Registry)
  : Router.Registry :=
  fold_left
    (fun reg e =>
       snd (Router.route rt (answers_fresh e) (answers_live e) (request e) reg))
    exchanges reg.

(** The two maps of the router go in step: they hold the same sessions,
    each with the server and the transport constructed for it together;
    no two sessions share a server; the servers of the sessions held are
    not closed; and no server was closed twice. *)
Definition in_step (reg : Router.Registry) : Prop :=
  (forall i, is_Some (Router.transports reg !! i) <-> is_Some (Router.servers reg !! i))
  /\ (forall i t s, Router.transports reg !! i = Some t -> Router.servers reg !! i = Some s ->
                    t = S s)
  /\ (forall i s, Router.servers reg !! i = Some s ->
                  s < Router.constructed reg /\ ~ In s (Router.closed reg))
  /\ (forall i j s, Router.servers reg !! i = Some s -> Router.servers reg !! j = Some s ->
                    i = j)
  /\ List.NoDup (Router.closed reg)
  /\ Forall (fun s => s < Router.constructed reg) (Router.closed reg).

Definition live_session : Router.Registry :=
  snd (Router.route Host.runtime accepting serving handshake no_sessions).

Definition delete_call : Router.Request :=
  {| Router.method := Router.DELETE; Router.mcp_session_id := Some "uuid-0";
     Router.isInitializeRequest := false |}.

(** A transport that throws on whatever it is handed. *)
Definition crashing (i : string) (req : Router.Request) : Router.LiveReply :=
  Router.LiveThrows "boom".

(** ** The client's files *)

(** The path the operating system resolves a name to from a working
    directory, for names without links: the name itself where it starts
    at the root, the name under the directory otherwise. *)
Definition from_directory (cwd : string) (path : string) : option string :=
  Some (if JS.startsWith path "/"
        then Path.to_path (Path.normalize_absolute path)
        else Path.to_path (Path.resolve (Path.normalize_absolute cwd) path)).

(** The arguments of the README's example, and a world that holds the
    file in the directory the client runs in. *)
Definition sample_args : gmap string Client.Json :=
  {[ "image_blob_file" := Client.JString "./sample.png";
     "position" := Client.JObject [("x", Client.JNumber 50); ("y", Client.JNumber 50)] ]}.

Definition client_world : World :=
  Host.world [("/home/me/sample.png", Binary (Host.png "sample" 10 10))].

(** * Facts *)

(** ** Sorting with a consistent comparator *)

Section SortFacts.
Context {A : Type} (compare : A -> A -> Z).
Hypothesis compare_total : forall a b, (compare a b <= 0 \/ compare b a <= 0)%Z.
Hypothesis compare_trans :
  forall a b c, (compare a b <= 0 -> compare b c <= 0 -> compare a c <= 0)%Z.

Let le (a b : A) : Prop := (compare a b <= 0)%Z.

Lemma insert_perm a l : Permutation (insert compare a l) (a :: l).
Proof.
  induction l as [|b l IH]; simpl; [reflexivity|].
  destruct (compare a b <=? 0)%Z; [reflexivity|].
  rewrite IH. apply perm_swap.
Qed.

Lemma sort_perm l : Permutation (sort compare l) l.
Proof.
  induction l as [|a l IH]; simpl; [constructor|].
  rewrite insert_perm. now constructor.
Qed.

Lemma sort_length l : length (sort compare l) = length l.
Proof. apply Permutation_length, sort_perm. Qed.

Lemma insert_sorted a l :
  StronglySorted le l -> StronglySorted le (insert compare a l).
Proof.
  induction 1 as [|b l Hs IH Hb]; simpl.
  - repeat constructor.
  - destruct (compare a b <=? 0)%Z eqn:E.
    + apply Z.leb_le in E. constructor; [now constructor|].
      constructor; [exact E|].
      rewrite List.Forall_forall in Hb. rewrite (List.Forall_forall (le a)). intros c Hc.
      apply compare_trans with b; [exact E | now apply Hb].
    + apply Z.leb_gt in E. constructor; [exact IH|].
      assert (Hba : le b a) by (destruct (compare_total a b); [lia | assumption]).
      rewrite (List.Forall_forall (le b)). intros c Hc.
      apply (Permutation_in _ (insert_perm a l)) in Hc. destruct Hc as [<-|Hc]; [exact Hba|].
      rewrite List.Forall_forall in Hb. now apply Hb.
Qed.

Lemma sort_sorted l : StronglySorted le (sort compare l).
Proof. induction l; simpl; [constructor | now apply insert_sorted]. Qed.

(** Stability: elements that compare as equal among themselves are not
    reordered. *)
Lemma insert_filter (p : A -> bool) a l :
  (forall b c, p b = true -> p c = true -> (compare b c <= 0)%Z) ->
  List.filter p (insert compare a l) = List.filter p (a :: l).
Proof.
  intros Hp. induction l as [|b l IH]; [reflexivity|].
  cbn [insert]. destruct (compare a b <=? 0)%Z eqn:E; [reflexivity|].
  apply Z.leb_gt in E. cbn [List.filter] in *. rewrite IH.
  destruct (p a) eqn:Ea, (p b) eqn:Eb; try reflexivity.
  specialize (Hp a b Ea Eb). lia.
Qed.

Lemma sort_filter (p : A -> bool) l :
  (forall b c, p b = true -> p c = true -> (compare b c <= 0)%Z) ->
  List.filter p (sort compare l) = List.filter p l.
Proof.
  intros Hp. induction l as [|a l IH]; [reflexivity|].
  cbn [sort]. rewrite insert_filter by exact Hp. cbn [List.filter]. now rewrite IH.
Qed.

(** Inserting in front of a list in which [x] sits with only larger
    elements behind it leaves [x] where it is among the others. *)
Lemma insert_around a x before behind :
  Forall (fun b => (0 < compare b x)%Z) behind ->
  exists before' behind',
    insert compare a (before ++ behind) = before' ++ behind'
    /\ insert compare a (before ++ x :: behind) = before' ++ x :: behind'
    /\ Forall (fun b => (0 < compare b x)%Z) behind'.
Proof.
  intros Hbehind. induction before as [|b before IH]; cbn [app insert].
  - destruct (compare a x <=? 0)%Z eqn:E.
    + apply Z.leb_le in E. exists [a], behind. repeat split; [|exact Hbehind].
      destruct behind as [|c behind]; [reflexivity|]. cbn [insert].
      inversion Hbehind as [|? ? Hc _]; subst.
      assert (Hxc : (compare x c <= 0)%Z) by (destruct (compare_total x c); [assumption | lia]).
      assert (Hac : (compare a c <= 0)%Z) by (now apply compare_trans with x).
      apply Z.leb_le in Hac. now rewrite Hac.
    + apply Z.leb_gt in E. exists [], (insert compare a behind). repeat split.
      rewrite List.Forall_forall. intros c Hc.
      apply (Permutation_in _ (insert_perm a behind)) in Hc.
      destruct Hc as [<-|Hc]; [exact E|]. rewrite List.Forall_forall in Hbehind. now apply Hbehind.
  - destruct (compare a b <=? 0)%Z.
    + exists (a :: b :: before), behind. now repeat split.
    + destruct IH as (before' & behind' & H1 & H2 & H3).
      exists (b :: before'), behind'. cbn [app]. rewrite H1, H2. now repeat split.
Qed.

(** Sorting after pushing [x] puts [x] into the sorted list and moves
    nothing else. *)
Lemma sort_push l x :
  exists before behind,
    sort compare l = before ++ behind
    /\ sort compare (l ++ [x]) = before ++ x :: behind
    /\ Forall (fun b => (0 < compare b x)%Z) behind.
Proof.
  induction l as [|a l IH]; cbn [app sort].
  - exists [], []. repeat split. constructor.
  - destruct IH as (before & behind & H1 & H2 & H3). rewrite H1, H2.
    apply insert_around. exact H3.
Qed.

(** Sorting what is sorted changes nothing. *)
Lemma sort_of_sorted l : StronglySorted le l -> sort compare l = l.
Proof.
  induction 1 as [|a l Hs IH Ha]; [reflexivity|]. cbn [sort]. rewrite IH.
  destruct l as [|b l]; [reflexivity|]. cbn [insert].
  inversion Ha as [|? ? Hab _]; subst. unfold le in Hab. apply Z.leb_le in Hab.
  now rewrite Hab.
Qed.

(** Two insertions can be swapped when one element is strictly smaller. *)
Lemma insert_insert a b l :
  (0 < compare a b)%Z ->
  insert compare b (insert compare a l) = insert compare a (insert compare b l).
Proof.
  intros Hab.
  assert (Hba : (compare b a <= 0)%Z) by (destruct (compare_total a b); [lia | assumption]).
  induction l as [|c l IH]; cbn [insert].
  - apply Z.leb_le in Hba. apply Z.leb_gt in Hab. now rewrite Hba, Hab.
  - destruct (compare a c <=? 0)%Z eqn:Eac.
    + apply Z.leb_le in Eac.
      assert (Hbc : (compare b c <=? 0)%Z = true) by (apply Z.leb_le; now apply compare_trans with a).
      cbn [insert]. apply Z.leb_le in Hba. apply Z.leb_gt in Hab. rewrite Hba, Hbc. cbn [insert].
      now rewrite Hab, (proj2 (Z.leb_le _ _) Eac).
    + cbn [insert]. destruct (compare b c <=? 0)%Z eqn:Ebc; cbn [insert].
      * apply Z.leb_gt in Hab. now rewrite Hab, Eac.
      * now rewrite Eac, IH.
Qed.

Lemma insert_into_resorted a l acc :
  fold_right (insert compare) acc (insert compare a l)
  = insert compare a (fold_right (insert compare) acc l).
Proof.
  induction l as [|b l IH]; [reflexivity|]. cbn [insert].
  destruct (compare a b <=? 0)%Z eqn:E; [reflexivity|].
  apply Z.leb_gt in E. cbn [fold_right]. rewrite IH. now apply insert_insert.
Qed.

Lemma sort_app_fold l r :
  sort compare (l ++ r) = fold_right (insert compare) (sort compare r) l.
Proof. induction l as [|a l IH]; [reflexivity|]. cbn [app sort fold_right]. now rewrite IH. Qed.

(** Sorting a prefix first changes nothing: the sort only looks at the
    order in which equal elements come. *)
Lemma sort_sorted_prefix l r : sort compare (sort compare l ++ r) = sort compare (l ++ r).
Proof.
  rewrite !sort_app_fold. induction l as [|a l IH]; [reflexivity|].
  cbn [sort fold_right]. now rewrite insert_into_resorted, IH.
Qed.
End SortFacts.

(** ** Sorting with any comparator *)

Section SortAny.
Context {A : Type}.

(** A map the comparator does not see through commutes with the sort. *)
Lemma insert_map (compare : A -> A -> Z) (f : A -> A) a l :
  (forall b c, compare (f b) (f c) = compare b c) ->
  map f (insert compare a l) = insert compare (f a) (map f l).
Proof.
  intros Hf. induction l as [|b l IH]; [reflexivity|]. cbn [insert map].
  rewrite Hf. destruct (compare a b <=? 0)%Z; [reflexivity|]. cbn [map]. now rewrite IH.
Qed.

Lemma sort_map (compare : A -> A -> Z) (f : A -> A) l :
  (forall b c, compare (f b) (f c) = compare b c) ->
  map f (sort compare l) = sort compare (map f l).
Proof.
  intros Hf. induction l as [|a l IH]; [reflexivity|]. cbn [sort map].
  rewrite insert_map by exact Hf. now rewrite IH.
Qed.

(** The sort asks the comparator about the elements of the list only. *)
Lemma insert_ext (c1 c2 : A -> A -> Z) a l :
  (forall b, In b l -> (c1 a b <=? 0)%Z = (c2 a b <=? 0)%Z) ->
  insert c1 a l = insert c2 a l.
Proof.
  induction l as [|b l IH]; intros H; [reflexivity|]. cbn [insert].
  rewrite (H b) by now left. destruct (c2 a b <=? 0)%Z; [reflexivity|].
  rewrite IH; [reflexivity|]. intros c Hc. apply H. now right.
Qed.

Lemma sort_ext (c1 c2 : A -> A -> Z) l :
  (forall a b, In a l -> In b l -> (c1 a b <=? 0)%Z = (c2 a b <=? 0)%Z) ->
  sort c1 l = sort c2 l.
Proof.
  induction l as [|a l IH]; intros H; [reflexivity|]. cbn [sort].
  rewrite IH by (intros b c Hb Hc; apply H; now right).
  apply insert_ext. intros b Hb. apply H; [now left|]. right.
  exact (Permutation_in _ (sort_perm c2 l) Hb).
Qed.
End SortAny.
(** ** The comparator of [getGraffiti] *)

Lemma collate_le_cases a b :
  (Host.collate a b <= 0)%Z <-> a = b \/ String_as_OT.lt a b.
Proof.
  unfold Host.collate.
  destruct (String_as_OT.compare_spec a b) as [E|E|E]; split; intros H; try lia; auto.
  exfalso. destruct H as [->|H].
  - now apply StrictOrder_Irreflexive in E.
  - apply (StrictOrder_Irreflexive a). now transitivity b.
Qed.

Lemma collate_total a b : (Host.collate a b <= 0 \/ Host.collate b a <= 0)%Z.
Proof.
  rewrite !collate_le_cases.
  destruct (String_as_OT.compare_spec a b) as [E|E|E]; auto.
Qed.

Lemma collate_trans a b c :
  (Host.collate a b <= 0 -> Host.collate b c <= 0 -> Host.collate a c <= 0)%Z.
Proof.
  rewrite !collate_le_cases. intros [->|H1] [->|H2]; auto.
  right. now transitivity b.
Qed.

(** The collation of the host is an order. *)
Lemma host_collation_is_an_order : collation_is_an_order Host.runtime.
Proof. split; [exact collate_total | exact collate_trans]. Defined.

Lemma by_createdAt_total rt a b :
  collation_is_an_order rt -> (by_createdAt rt a b <= 0 \/ by_createdAt rt b a <= 0)%Z.
Proof. intros [H _]. apply H. Qed.

Lemma by_createdAt_trans rt a b c :
  collation_is_an_order rt ->
  (by_createdAt rt a b <= 0 -> by_createdAt rt b c <= 0 -> by_createdAt rt a c <= 0)%Z.
Proof. intros [_ H]. apply H. Qed.

(** ** Items through JSON *)

Lemma JSON_number_idem v : JSON_number (JSON_number v) = JSON_number v.
Proof.
  destruct v as [n|]; [|reflexivity]. cbn [JSON_number].
  destruct (PrimFloat.is_finite n) eqn:F; [|reflexivity].
  destruct (PrimFloat.is_zero n && PrimFloat.get_sign n) eqn:Z; [reflexivity|].
  cbn [JSON_number]. now rewrite F, Z.
Qed.

Lemma JSON_item_idem item : JSON_item (JSON_item item) = JSON_item item.
Proof.
  destruct item as [[? ? [? ?] [? ?] ? ? ?]|[? ? ? ? [? ?] ? ? ? ?]];
    cbn; unfold JSON_position, JSON_dimensions; cbn; now rewrite !JSON_number_idem.
Qed.

Lemma JSON_items_idem items : map JSON_item (map JSON_item items) = map JSON_item items.
Proof. rewrite map_map. apply map_ext. intros item. apply JSON_item_idem. Qed.

Lemma createdAt_JSON_item item : createdAt (JSON_item item) = createdAt item.
Proof. now destruct item. Qed.

Lemma id_JSON_item item : id (JSON_item item) = id item.
Proof. now destruct item. Qed.

Lemma ids_JSON_items items : map id (map JSON_item items) = map id items.
Proof. rewrite map_map. apply map_ext. intros item. apply id_JSON_item. Qed.

Lemma by_createdAt_JSON_item rt a b :
  by_createdAt rt (JSON_item a) (JSON_item b) = by_createdAt rt a b.
Proof. unfold by_createdAt. now rewrite !createdAt_JSON_item. Qed.

Lemma JSON_sorted rt items :
  map JSON_item (sort (by_createdAt rt) items) = sort (by_createdAt rt) (map JSON_item items).
Proof. apply sort_map. intros b c. apply by_createdAt_JSON_item. Qed.

(** A finite number comes back equal to itself, the same when it is no
    negative zero. *)
Lemma JSON_number_same n :
  PrimFloat.is_finite n = true -> same_number (Some n) (JSON_number (Some n)) = true.
Proof.
  intros F. cbn [JSON_number]. rewrite F. cbn [same_number].
  destruct (PrimFloat.is_zero n && PrimFloat.get_sign n) eqn:Z.
  - apply andb_true_iff in Z. exact (proj1 Z).
  - unfold PrimFloat.is_finite, PrimFloat.is_nan in F.
    apply negb_true_iff, orb_false_iff in F. destruct F as [F _].
    now apply negb_false_iff in F.
Qed.

Lemma JSON_number_plain n :
  PrimFloat.is_finite n = true -> negative_zero n = false -> JSON_number (Some n) = Some n.
Proof. unfold negative_zero. intros F Z. cbn [JSON_number]. now rewrite F, Z. Qed.

Lemma JSON_item_same item i c :
  finite_numbers item = true ->
  same_item (with_id_createdAt item i c) (JSON_item (with_id_createdAt item i c)) = true.
Proof.
  destruct item as [[? [? ?] [? ?] ? ?]|[? ? ? [? ?] ? ? ?]];
    cbn -[JSON_number same_number PrimFloat.is_finite]; intros F;
    repeat (apply andb_true_iff in F; destruct F as [F ?]);
    unfold JSON_position, JSON_dimensions, position_of, dimensions_of;
    cbn [x y width height];
    rewrite !String.eqb_refl; cbn [andb];
    repeat (match goal with
            | H : PrimFloat.is_finite ?n = true |- context [JSON_number (Some ?n)] =>
                rewrite (JSON_number_same n H)
            end; cbn [andb]);
    reflexivity.
Qed.

Lemma JSON_item_plain item i c :
  finite_numbers item = true -> has_negative_zero item = false ->
  JSON_item (with_id_createdAt item i c) = with_id_createdAt item i c.
Proof.
  destruct item as [[? [? ?] [? ?] ? ?]|[? ? ? [? ?] ? ? ?]];
    cbn -[JSON_number negative_zero PrimFloat.is_finite]; intros F Z;
    repeat (apply andb_true_iff in F; destruct F as [F ?]);
    repeat (apply orb_false_iff in Z; destruct Z as [Z ?]);
    unfold JSON_position, JSON_dimensions, position_of, dimensions_of;
    cbn [x y width height];
    now rewrite !JSON_number_plain by assumption.
Qed.

(** ** Paths of the program *)

Lemma append_inv_head s a b : s +:+ a = s +:+ b -> a = b.
Proof. apply String.app_inj. Qed.

Lemma append_assoc (a b c : string) : (a +:+ b) +:+ c = a +:+ b +:+ c.
Proof.
  induction a as [|ch a IH]; [reflexivity|].
  change (String ch ((a +:+ b) +:+ c) = String ch (a +:+ b +:+ c)). now f_equal.
Qed.

Lemma to_path_tail_app a b :
  Path.to_path_tail (a ++ b) = Path.to_path_tail a +:+ Path.to_path_tail b.
Proof.
  induction a as [|seg a IH]; [reflexivity|]. cbn [app Path.to_path_tail].
  rewrite IH. now rewrite !append_assoc.
Qed.

Lemma to_path_app a seg b :
  Path.to_path (a ++ seg :: b) = Path.to_path_tail a +:+ Path.to_path_tail (seg :: b).
Proof.
  rewrite <- to_path_tail_app. now destruct a.
Qed.

Lemma logged_nil w : logged [] w = w.
Proof. destruct w. unfold logged. cbn. now rewrite app_nil_r. Qed.

(** ** Running the store *)

Section StoreFacts.
Variable rt : Runtime.

Lemma readFile_run path w :
  readFile path w
  = (match fs w !! path with Some f => Return f | None => Throw ENOENT end,
     logged [EvRead path] w).
Proof. unfold readFile. run_io. now destruct (fs w !! path). Qed.

Lemma writeFile_run path f w :
  writeFile path f w = (Return tt, stored path f (logged [EvWrite path] w)).
Proof. reflexivity. Qed.

Lemma composite_run background wd ht overlays w :
  composite rt background wd ht overlays w
  = (if forallb (overlay_fits wd ht) overlays && forallb (overlay_decodes rt) overlays
     then Return (Composite background overlays)
     else Throw SharpError,
     logged [EvComposite (length overlays)] w).
Proof. unfold composite. run_io. now destruct (_ && _). Qed.


Lemma logged_logged e1 e2 w : logged e2 (logged e1 w) = logged (e1 ++ e2) w.
Proof. unfold logged; cbn. now rewrite <- app_assoc. Qed.

Lemma getGraffiti_json w items :
  fs w !! DATA_FILE rt = Some (Json items) ->
  getGraffiti rt w
  = (Return (sort (by_createdAt rt) (map JSON_item items)),
     logged [EvRead (DATA_FILE rt)] w).
Proof.
  intros H. unfold getGraffiti, ensureDataFile, JSON_parse. run_io. now rewrite H; cbn; rewrite H.
Qed.

Lemma getGraffiti_binary w b :
  fs w !! DATA_FILE rt = Some (Binary b) ->
  getGraffiti rt w = (Throw SyntaxError, logged [EvRead (DATA_FILE rt)] w).
Proof.
  intros H. unfold getGraffiti, ensureDataFile, JSON_parse. run_io. now rewrite H; cbn; rewrite H.
Qed.

Lemma getGraffiti_absent w :
  fs w !! DATA_FILE rt = None ->
  getGraffiti rt w
  = (Return [],
     logged [EvRead (DATA_FILE rt)]
            (stored (DATA_FILE rt) (Json []) (logged [EvWrite (DATA_FILE rt)] w))).
Proof.
  intros H. unfold getGraffiti, ensureDataFile, JSON_parse. run_io. rewrite H; cbn.
  rewrite lookup_insert_eq. unfold logged, stored; cbn. now rewrite <- app_assoc.
Qed.

(** What [getGraffiti] returns depends on the data file alone. *)
Lemma getGraffiti_fst w w' :
  fs w !! DATA_FILE rt = fs w' !! DATA_FILE rt ->
  fst (getGraffiti rt w) = fst (getGraffiti rt w').
Proof.
  intros H. destruct (fs w !! DATA_FILE rt) as [[l|b]|] eqn:E; symmetry in H.
  - now rewrite (getGraffiti_json w l E), (getGraffiti_json w' l H).
  - now rewrite (getGraffiti_binary w b E), (getGraffiti_binary w' b H).
  - now rewrite (getGraffiti_absent w E), (getGraffiti_absent w' H).
Qed.

(** A successful [getGraffiti] leaves a data file holding items of which
    the result is the sorted list. *)
Lemma getGraffiti_returns w items w' :
  getGraffiti rt w = (Return items, w') ->
  exists persisted,
    fs w' !! DATA_FILE rt = Some (Json persisted)
    /\ items = sort (by_createdAt rt) (map JSON_item persisted)
    /\ (fs w !! DATA_FILE rt = Some (Json persisted)
        \/ fs w !! DATA_FILE rt = None /\ persisted = [])
    /\ uuids w' = uuids w /\ ticks w' = ticks w
    /\ forall p, p <> DATA_FILE rt -> fs w' !! p = fs w !! p.
Proof.
  intros H. destruct (fs w !! DATA_FILE rt) as [[l|b]|] eqn:E.
  - rewrite (getGraffiti_json w l E) in H. injection H as <- <-. exists l. cbn. auto 10.
  - rewrite (getGraffiti_binary w b E) in H. discriminate.
  - rewrite (getGraffiti_absent w E) in H. injection H as <- <-. exists []. cbn.
    rewrite lookup_insert_eq. repeat split; auto.
    intros p Hp. now rewrite lookup_insert_ne.
Qed.

Lemma make_next_run item w :
  make_next rt item w
  = (Return (with_id_createdAt item (randomUUID rt (uuids w)) (toISOString rt (ticks w))),
     {| fs := fs w; uuids := S (uuids w); ticks := S (ticks w); trace := trace w |}).
Proof. reflexivity. Qed.

Lemma sort_sort (items : list GraffitiItem) :
  collation_is_an_order rt ->
  sort (by_createdAt rt) (sort (by_createdAt rt) items) = sort (by_createdAt rt) items.
Proof.
  intros H. apply sort_of_sorted, sort_sorted; intros *;
    [now apply by_createdAt_total | now apply by_createdAt_trans].
Qed.

(** A listing is as JSON leaves it, and where the collation is an order
    it is sorted. *)
Lemma listing_is_json w items :
  fst (getGraffiti rt w) = Return items -> map JSON_item items = items.
Proof.
  intros H. destruct (getGraffiti rt w) as [o w0] eqn:E. cbn in H. subst o.
  destruct (getGraffiti_returns _ _ _ E) as (l & _ & -> & _).
  now rewrite JSON_sorted, JSON_items_idem.
Qed.

Lemma listing_is_sorted w items :
  collation_is_an_order rt ->
  fst (getGraffiti rt w) = Return items -> sort (by_createdAt rt) items = items.
Proof.
  intros Hc H. destruct (getGraffiti rt w) as [o w0] eqn:E. cbn in H. subst o.
  destruct (getGraffiti_returns _ _ _ E) as (l & _ & -> & _).
  now apply sort_sort.
Qed.

(** [addGraffiti] on a readable store: the record it returns and the
    file it leaves. *)
Lemma addGraffiti_run item w prior :
  fst (getGraffiti rt w) = Return prior ->
  exists w',
    addGraffiti rt item w
    = (Return (with_id_createdAt item (randomUUID rt (uuids w)) (toISOString rt (ticks w))), w')
    /\ fs w' !! DATA_FILE rt
       = Some (Json (prior ++ [with_id_createdAt item (randomUUID rt (uuids w))
                                                 (toISOString rt (ticks w))]))
    /\ uuids w' = S (uuids w) /\ ticks w' = S (ticks w)
    /\ forall p, p <> DATA_FILE rt -> fs w' !! p = fs w !! p.
Proof.
  intros H. unfold addGraffiti, bind at 1. rewrite make_next_run.
  set (w1 := {| fs := fs w; uuids := S (uuids w); ticks := S (ticks w); trace := trace w |}).
  assert (H1 : fst (getGraffiti rt w1) = Return prior)
    by (rewrite <- H; now apply getGraffiti_fst).
  destruct (getGraffiti rt w1) as [o w2] eqn:E. cbn in H1. subst o.
  destruct (getGraffiti_returns _ _ _ E) as (l & Hl & -> & _ & Hu & Ht & Hp).
  unfold bind at 1. rewrite E. run_io. eexists. split; [reflexivity|]. cbn.
  rewrite lookup_insert_eq. repeat split; auto.
  intros p Hne. rewrite lookup_insert_ne by congruence. now apply Hp.
Qed.

(** A returning [addGraffiti] returned the completed record, pushed last
    on the persisted sequence. *)
Lemma addGraffiti_returns item w next w' :
  addGraffiti rt item w = (Return next, w') ->
  next = with_id_createdAt item (randomUUID rt (uuids w)) (toISOString rt (ticks w))
  /\ exists prior,
       fst (getGraffiti rt w) = Return prior
       /\ fs w' !! DATA_FILE rt = Some (Json (prior ++ [next])).
Proof.
  intros H. destruct (getGraffiti rt w) as [[prior|e] w0] eqn:E.
  - destruct (addGraffiti_run item w prior) as (w1 & Hrun & Hfile & _); [now rewrite E|].
    rewrite Hrun in H. injection H as <- <-. split; [reflexivity|]. now exists prior.
  - exfalso. unfold addGraffiti, bind at 1 in H. rewrite make_next_run in H.
    set (w1 := {| fs := fs w; uuids := S (uuids w); ticks := S (ticks w); trace := trace w |}) in H.
    assert (H1 : fst (getGraffiti rt w1) = Throw e).
    { change (Throw e) with (fst (@Throw (list GraffitiItem) e, w0)). rewrite <- E.
      now apply getGraffiti_fst. }
    unfold bind at 1 in H. destruct (getGraffiti rt w1) as [o w2]. cbn in H1. subst o.
    discriminate.
Qed.
End StoreFacts.

(** ** The order of the dates *)

Lemma by_time_le rt a b : (by_time rt a b <= 0)%Z <-> (instant rt a <= instant rt b)%Z.
Proof. unfold by_time. destruct (Z.compare_spec (instant rt a) (instant rt b)); lia. Qed.

Lemma by_time_total rt a b : (by_time rt a b <= 0 \/ by_time rt b a <= 0)%Z.
Proof. rewrite !by_time_le. lia. Qed.

Lemma by_time_trans rt a b c :
  (by_time rt a b <= 0 -> by_time rt b c <= 0 -> by_time rt a c <= 0)%Z.
Proof. rewrite !by_time_le. lia. Qed.

Lemma time_of_JSON_item rt item : time_of rt (JSON_item item) = time_of rt item.
Proof. unfold time_of. now rewrite createdAt_JSON_item. Qed.

Lemma collates_by_date_spec rt items a b :
  collates_by_date rt items = true -> In a items -> In b items ->
  exists ta tb,
    time_of rt a = Some ta /\ time_of rt b = Some tb
    /\ (by_createdAt rt a b <=? 0)%Z = (ta <=? tb)%Z.
Proof.
  unfold collates_by_date. rewrite forallb_forall. intros H Ha Hb.
  specialize (H a Ha). rewrite forallb_forall in H. specialize (H b Hb).
  destruct (time_of rt a) as [ta|]; [|discriminate].
  destruct (time_of rt b) as [tb|]; [|discriminate].
  exists ta, tb. repeat split. now apply Bool.eqb_prop in H.
Qed.

Lemma dated_JSON_items rt items item :
  collates_by_date rt items = true -> In item (map JSON_item items) ->
  is_Some (time_of rt item).
Proof.
  intros H Hin. apply in_map_iff in Hin. destruct Hin as (a & <- & Ha).
  destruct (collates_by_date_spec rt items a a H Ha Ha) as (ta & _ & Hta & _).
  rewrite time_of_JSON_item. now exists ta.
Qed.

Lemma by_time_agrees rt items a b :
  collates_by_date rt items = true ->
  In a (map JSON_item items) -> In b (map JSON_item items) ->
  (by_createdAt rt a b <=? 0)%Z = (by_time rt a b <=? 0)%Z.
Proof.
  intros H Ha Hb. apply in_map_iff in Ha, Hb.
  destruct Ha as (a0 & <- & Ha), Hb as (b0 & <- & Hb).
  destruct (collates_by_date_spec rt items a0 b0 H Ha Hb) as (ta & tb & Hta & Htb & E).
  rewrite by_createdAt_JSON_item, E. unfold by_time, instant.
  rewrite !time_of_JSON_item, Hta, Htb. cbn.
  destruct (Z.compare_spec ta tb); [subst; rewrite Z.leb_refl; reflexivity|..].
  - apply Z.leb_le. lia.
  - apply Z.leb_gt. lia.
Qed.

(** C5. Appending to a store that lists and then listing gives the prior
    list with exactly one entry added, the record [addGraffiti] returned
    as JSON keeps it; the entries that were there are unchanged and keep
    their order.  Where the numbers of the item are finite, the entry has
    the strings of the returned record and numbers that compare equal to
    its numbers; where none of them is a negative zero either, it is the
    returned record. *)
Theorem append_then_list_adds_one (rt : Runtime) (item : NewGraffitiItem)
        (w : World) (prior : list GraffitiItem) :
  collation_is_an_order rt ->
  fst (getGraffiti rt w) = Return prior ->
  exists next w1 after w2,
    addGraffiti rt item w = (Return next, w1)
    /\ getGraffiti rt w1 = (Return after, w2)
    /\ (exists before behind,
          prior = before ++ behind /\ after = before ++ JSON_item next :: behind)
    /\ (finite_numbers item = true -> same_item next (JSON_item next) = true)
    /\ (finite_numbers item = true -> has_negative_zero item = false ->
        JSON_item next = next).
Proof.
  intros Hc H. destruct (addGraffiti_run rt item w prior H) as (w1 & Hadd & Hfile & _).
  set (next := with_id_createdAt item _ _) in *.
  exists next, w1. rewrite (getGraffiti_json rt w1 _ Hfile). do 2 eexists.
  split; [exact Hadd|]. split; [reflexivity|]. split; [|split].
  - rewrite map_app, (listing_is_json rt w prior H). cbn [map].
    destruct (sort_push (by_createdAt rt) (fun a b => by_createdAt_total rt a b Hc)
                        (fun a b c => by_createdAt_trans rt a b c Hc) prior (JSON_item next))
      as (before & behind & H1 & H2 & _).
    exists before, behind. split; [|exact H2].
    now rewrite <- H1, (listing_is_sorted rt w prior Hc H).
  - apply JSON_item_same.
  - apply JSON_item_plain.
Qed.

(** The statement above, run on the host: a third item appended to a
    store of two. *)
Lemma append_then_list_adds_one_witness :
  exists next w1 after w2,
    addGraffiti Host.runtime Host.new_tag
      (Host.world [Host.store [Host.tag "a" "2023-05-01T10:00:00.000Z";
                               Host.tag "b" "2023-05-01T10:00:00.250Z"]])
    = (Return next, w1)
    /\ getGraffiti Host.runtime w1 = (Return after, w2)
    /\ (exists before behind,
          [Host.tag "a" "2023-05-01T10:00:00.000Z"; Host.tag "b" "2023-05-01T10:00:00.250Z"]
          = before ++ behind
          /\ after = before ++ JSON_item next :: behind)
    /\ (finite_numbers Host.new_tag = true -> same_item next (JSON_item next) = true)
    /\ (finite_numbers Host.new_tag = true -> has_negative_zero Host.new_tag = false ->
        JSON_item next = next).
Proof.
  apply (append_then_list_adds_one Host.runtime Host.new_tag
           (Host.world [Host.store [Host.tag "a" "2023-05-01T10:00:00.000Z";
                                    Host.tag "b" "2023-05-01T10:00:00.250Z"]])).
  - exact host_collation_is_an_order.
  - vm_compute. reflexivity.
Defined.

(** A tag sprayed at the left edge, with the sign bit set on its zero:
    the call meets its schema, the record returned holds the negative
    zero, and the entry listed holds zero. *)
Lemma negative_zero_is_listed_as_zero :
  accepted_call Host.runtime (call_spray_text tag_at_negative_zero) = true
  /\ ~ append_lists_the_returned_record Host.runtime (spray_text_item tag_at_negative_zero)
                                        (Host.world [Host.store []]).
Proof.
  split; [vm_compute; reflexivity|]. intros H.
  pose (next := with_id_createdAt (spray_text_item tag_at_negative_zero)
                                  "uuid-0" "2024-01-01T00:00:00.000Z").
  destruct (H [] next
              (snd (addGraffiti Host.runtime (spray_text_item tag_at_negative_zero)
                                (Host.world [Host.store []])))
              [JSON_item next])
    as (before & behind & Hprior & Hafter).
  - vm_compute. reflexivity.
  - vm_compute. reflexivity.
  - vm_compute. reflexivity.
  - symmetry in Hprior. apply app_eq_nil in Hprior. destruct Hprior as [-> ->].
    apply (f_equal (fun l => match x (position (hd next l)) with
                             | Some v => PrimFloat.get_sign v
                             | None => false
                             end)) in Hafter.
    vm_compute in Hafter. discriminate.
Qed.

(** C6. Listing a persisted sequence whose [createdAt] strings the host
    collates in the order of their dates returns the items, as JSON gives
    them back, in ascending order of creation, each item no later than
    all that follow it; items created at the same time come in the order
    they are persisted in. *)
Theorem list_is_stably_sorted (rt : Runtime) (w : World) (persisted : list GraffitiItem) :
  fs w !! DATA_FILE rt = Some (Json persisted) ->
  collates_by_date rt persisted = true ->
  exists items w',
    getGraffiti rt w = (Return items, w')
    /\ StronglySorted (no_later rt) items
    /\ Permutation items (map JSON_item persisted)
    /\ forall t : Z,
         List.filter (created_at rt t) items
         = List.filter (created_at rt t) (map JSON_item persisted).
Proof.
  intros H Hd. rewrite (getGraffiti_json rt w persisted H). do 2 eexists.
  split; [reflexivity|].
  rewrite (sort_ext (by_createdAt rt) (by_time rt) (map JSON_item persisted))
    by (intros a b Ha Hb; now apply (by_time_agrees rt persisted)).
  split; [|split].
  - assert (Hs := sort_sorted (by_time rt) (by_time_total rt) (by_time_trans rt)
                              (map JSON_item persisted)).
    assert (Hall : Forall (fun item => is_Some (time_of rt item))
                          (sort (by_time rt) (map JSON_item persisted))).
    { apply List.Forall_forall. intros item Hin.
      apply (Permutation_in _ (sort_perm (by_time rt) _)) in Hin.
      now apply (dated_JSON_items rt persisted item Hd). }
    revert Hs Hall. generalize (sort (by_time rt) (map JSON_item persisted)).
    intros l Hs Hall. induction Hs as [|a l Hs IH Ha]; constructor.
    + apply IH. now inversion Hall.
    + inversion Hall as [|? ? [ta Hta] Hl]; subst.
      rewrite List.Forall_forall in Ha, Hl |- *. intros b Hb.
      destruct (Hl b Hb) as [tb Htb]. exists ta, tb. repeat split; [assumption..|].
      specialize (Ha b Hb). unfold by_time, instant in Ha. rewrite Hta, Htb in Ha.
      cbn in Ha. destruct (Z.compare_spec ta tb); lia.
  - apply sort_perm.
  - intros t. apply sort_filter. intros a b Ha Hb. unfold created_at in Ha, Hb.
    unfold by_time, instant.
    destruct (time_of rt a) as [ta|]; [|discriminate].
    destruct (time_of rt b) as [tb|]; [|discriminate].
    apply Z.eqb_eq in Ha, Hb. subst. cbn. now rewrite Z.compare_refl.
Qed.

(** The statement above on a persisted sequence that is out of order and
    has a tie. *)
Lemma list_is_stably_sorted_witness :
  exists items w',
    getGraffiti Host.runtime
      (Host.world [Host.store [Host.tag "late" "2023-05-01T10:00:00.250Z";
                               Host.tag "first" "2023-05-01T10:00:00.000Z";
                               Host.tag "second" "2023-05-01T10:00:00.000Z"]])
    = (Return items, w')
    /\ StronglySorted (no_later Host.runtime) items
    /\ Permutation items (map JSON_item [Host.tag "late" "2023-05-01T10:00:00.250Z";
                                         Host.tag "first" "2023-05-01T10:00:00.000Z";
                                         Host.tag "second" "2023-05-01T10:00:00.000Z"])
    /\ forall t : Z,
         List.filter (created_at Host.runtime t) items
         = List.filter (created_at Host.runtime t)
             (map JSON_item [Host.tag "late" "2023-05-01T10:00:00.250Z";
                             Host.tag "first" "2023-05-01T10:00:00.000Z";
                             Host.tag "second" "2023-05-01T10:00:00.000Z"]).
Proof.
  apply (list_is_stably_sorted Host.runtime); vm_compute; reflexivity.
Defined.

Example list_puts_the_late_item_last :
  fst (getGraffiti Host.runtime
         (Host.world [Host.store [Host.tag "late" "2023-05-01T10:00:00.250Z";
                                  Host.tag "first" "2023-05-01T10:00:00.000Z";
                                  Host.tag "second" "2023-05-01T10:00:00.000Z"]]))
  = Return [Host.tag "first" "2023-05-01T10:00:00.000Z";
            Host.tag "second" "2023-05-01T10:00:00.000Z";
            Host.tag "late" "2023-05-01T10:00:00.250Z"].
Proof. vm_compute. reflexivity. Qed.

Lemma normalizePercentPair_normalized first second :
  fst (normalizePercentPair first second) = normalized (first, second).
Proof.
  unfold normalizePercentPair, normalized, fractionRange, in_unit_interval, JS.ge, JS.lt. cbn.
  now destruct ((0 <=? first)%float && (first <? 1)%float
                && ((0 <=? second)%float && (second <? 1)%float)).
Qed.

Lemma spray_text_item_pairs args i c :
  stored_position (with_id_createdAt (spray_text_item args) i c)
  = held (normalized (supplied_position (call_spray_text args)))
  /\ stored_dimensions (with_id_createdAt (spray_text_item args) i c) = None.
Proof.
  unfold spray_text_item. cbn [supplied_position].
  rewrite <- normalizePercentPair_normalized.
  now destruct (normalizePercentPair _ _) as [[first second] flag].
Qed.

Lemma spray_image_item_pairs args url i c :
  stored_position (with_id_createdAt (spray_image_item args url) i c)
  = held (normalized (supplied_position (call_spray_image args)))
  /\ stored_dimensions (with_id_createdAt (spray_image_item args url) i c)
     = Some (held (normalized (width (si_dimensions args), height (si_dimensions args)))).
Proof.
  unfold spray_image_item. cbn [supplied_position].
  rewrite <- !normalizePercentPair_normalized.
  destruct (normalizePercentPair (x _) _) as [[px py] f1].
  now destruct (normalizePercentPair (width _) _) as [[dw dh] f2].
Qed.

Lemma upload_path_not_data (rt : Runtime) fileName :
  Path.to_path (UPLOAD_DIR rt ++ [fileName]) <> DATA_FILE rt.
Proof.
  unfold DATA_FILE, UPLOAD_DIR, PUBLIC_DIR. rewrite <- !app_assoc. cbn [app].
  rewrite !to_path_app. intros H. apply append_inv_head in H. discriminate.
Qed.

(** After an append the listing holds the record as JSON keeps it. *)
Lemma appended_is_listed (rt : Runtime) (w : World) (prior : list GraffitiItem)
      (item : GraffitiItem) :
  fs w !! DATA_FILE rt = Some (Json (prior ++ [item])) ->
  exists after, fst (getGraffiti rt w) = Return after /\ In (JSON_item item) after.
Proof.
  intros H. rewrite (getGraffiti_json rt w _ H). eexists. split; [reflexivity|].
  apply (Permutation_in _ (Permutation_sym (sort_perm _ _))).
  rewrite map_app. apply in_or_app. right. now left.
Qed.

(** C7. A call of [spray_text] or [spray_image] that meets its schema, on
    a store that lists, returns; the record it hands to the store and
    returns has its position pair, and for an image its dimensions pair,
    normalized: both components times 100 when both are in [0,1), the
    pair as supplied otherwise.  The store file then holds the JSON of
    the prior listing with that record last, and the next listing holds
    the record as JSON keeps it. *)
Theorem pairs_are_normalized_before_storage
        (rt : Runtime) (call : ToolCall) (w : World) (prior : list GraffitiItem) :
  accepted_call rt call = true ->
  fst (getGraffiti rt w) = Return prior ->
  exists item reply w',
    callTool rt call w = (Return (item, reply), w')
    /\ stored_position item = held (normalized (supplied_position call))
    /\ stored_dimensions item
       = option_map (fun pair => held (normalized pair)) (supplied_dimensions call)
    /\ fs w' !! DATA_FILE rt = Some (Json (prior ++ [item]))
    /\ exists after, fst (getGraffiti rt w') = Return after /\ In (JSON_item item) after.
Proof.
  intros Hok Hprior. destruct call as [args|args];
    cbn [callTool accepted_call supplied_dimensions option_map] in *.
  - unfold spray_text. rewrite Hok. cbn [negb].
    destruct (normalizePercentPair _ _) as [[first second] flag].
    destruct (addGraffiti_run rt (spray_text_item args) w prior Hprior)
      as (w1 & Hadd & Hfile & _).
    unfold bind. rewrite Hadd. unfold ret. do 3 eexists. split; [reflexivity|].
    split; [apply spray_text_item_pairs|]. split; [apply spray_text_item_pairs|].
    split; [exact Hfile|]. now apply (appended_is_listed rt w1 prior).
  - unfold spray_image. rewrite Hok.
    unfold sprayImageInput in Hok. apply andb_true_iff in Hok as [-> _]. cbn [negb].
    destruct (normalizePercentPair (x _) _) as [[px py] f1].
    destruct (normalizePercentPair (width _) _) as [[dw dh] f2].
    unfold bind at 1.
    assert (Hsave : exists url w0,
               match si_image_url args with
               | Some u => ret u
               | None => saveImageBlob rt (default "" (si_image_blob args))
               end w = (Return url, w0)
               /\ fst (getGraffiti rt w0) = Return prior).
    { destruct (si_image_url args) as [u|]; [now exists u, w|].
      unfold saveImageBlob, bind, draw_uuid. rewrite writeFile_run. unfold ret.
      do 2 eexists. split; [reflexivity|]. rewrite <- Hprior. apply getGraffiti_fst.
      cbn [fs stored logged]. rewrite lookup_insert_ne; [reflexivity|].
      apply upload_path_not_data. }
    destruct Hsave as (url & w0 & -> & Hprior0).
    destruct (addGraffiti_run rt (spray_image_item args url) w0 prior Hprior0)
      as (w1 & Hadd & Hfile & _).
    unfold bind. rewrite Hadd. unfold ret. do 3 eexists. split; [reflexivity|].
    split; [apply spray_image_item_pairs|]. split; [apply spray_image_item_pairs|].
    split; [exact Hfile|]. now apply (appended_is_listed rt w1 prior).
Qed.

(** The example of the specification, [spray_image] with position
    [{x: 0.5, y: 0.5}], and a [spray_text] with the same position, each on
    a wall without a store file. *)
Lemma pairs_are_normalized_before_storage_witness :
  (exists item reply w',
     callTool Host.runtime half_way_sticker (Host.world []) = (Return (item, reply), w')
     /\ stored_position item = held (normalized (supplied_position half_way_sticker))
     /\ stored_dimensions item
        = option_map (fun pair => held (normalized pair)) (supplied_dimensions half_way_sticker)
     /\ fs w' !! DATA_FILE Host.runtime = Some (Json ([] ++ [item]))
     /\ exists after,
          fst (getGraffiti Host.runtime w') = Return after /\ In (JSON_item item) after)
  /\ (exists item reply w',
        callTool Host.runtime half_way_tag (Host.world []) = (Return (item, reply), w')
        /\ stored_position item = held (normalized (supplied_position half_way_tag))
        /\ stored_dimensions item
           = option_map (fun pair => held (normalized pair)) (supplied_dimensions half_way_tag)
        /\ fs w' !! DATA_FILE Host.runtime = Some (Json ([] ++ [item]))
        /\ exists after,
             fst (getGraffiti Host.runtime w') = Return after /\ In (JSON_item item) after).
Proof.
  split.
  - apply (pairs_are_normalized_before_storage Host.runtime half_way_sticker (Host.world []) []);
      vm_compute; reflexivity.
  - apply (pairs_are_normalized_before_storage Host.runtime half_way_tag (Host.world []) []);
      vm_compute; reflexivity.
Defined.

(** What the two calls store. *)
Example half_way_sticker_is_stored_at_fifty :
  fst (callTool Host.runtime half_way_sticker (Host.world []))
  = Return (half_way_stored,
            "spray_image created uuid-0 (normalized 0-1 fractions to 0-100 percentages)")
  /\ stored_position half_way_stored = (Some 50%float, Some 50%float)
  /\ stored_dimensions half_way_stored = Some (Some 24%float, Some 24%float).
Proof. vm_compute. repeat split. Qed.

Example half_way_tag_is_stored_at_fifty :
  exists item reply,
    fst (callTool Host.runtime half_way_tag (Host.world [])) = Return (item, reply)
    /\ stored_position item = (Some 50%float, Some 50%float).
Proof. vm_compute. do 2 eexists. split; reflexivity. Qed.

Example half_way_is_fifty : normalized (0.5%float, 0.5%float) = (50%float, 50%float).
Proof. reflexivity. Qed.

(** A pair with only one component below 1 is kept as supplied. *)
Example mixed_pair_is_kept : normalized (0.5%float, 30%float) = (0.5%float, 30%float).
Proof. reflexivity. Qed.

(** ** The snapshot key *)

Lemma maximum_spec l :
  match maximum l with
  | None => l = []
  | Some m => In m l /\ Forall (fun t => (t <= m)%Z) l
  end.
Proof.
  induction l as [|t l IH]; cbn; [reflexivity|].
  destruct (maximum l) as [m|].
  - destruct IH as [Hin Hall]. split.
    + destruct (Z.max_spec t m) as [[_ ->]|[_ ->]]; auto.
    + constructor; [lia|]. rewrite List.Forall_forall in *. intros u Hu.
      specialize (Hall u Hu). lia.
  - subst l. split; [now left|]. repeat constructor. lia.
Qed.

Section KeyFacts.
Variable rt : Runtime.

Lemma fold_latest_step items (latest : option Z) :
  fold_left (latest_step rt) items latest
  = match latest, maximum (timestamps rt items) with
    | None, m => m
    | Some l, None => Some l
    | Some l, Some m => Some (Z.max l m)
    end.
Proof.
  revert latest. induction items as [|item items IH]; intros latest; cbn.
  - now destruct latest.
  - rewrite IH. unfold latest_step, timestamps. cbn.
    fold (timestamps rt items).
    destruct (Date_parse rt (createdAt item)) as [parsed|]; cbn; [|reflexivity].
    destruct latest as [l|]; destruct (maximum (timestamps rt items)) as [m|]; try reflexivity.
    + destruct (parsed >? l)%Z eqn:E; f_equal; lia.
    + destruct (parsed >? l)%Z eqn:E; f_equal; lia.
Qed.

Lemma latestChangeMs_maximum items :
  latestChangeMs rt items = maximum (timestamps rt items).
Proof. unfold latestChangeMs. now rewrite fold_latest_step. Qed.

Lemma timestamps_none items :
  timestamps rt items = [] <->
  Forall (fun item => Date_parse rt (createdAt item) = None) items.
Proof.
  unfold timestamps. induction items as [|item items IH]; cbn.
  - split; [constructor | reflexivity].
  - destruct (Date_parse rt (createdAt item)) eqn:E; cbn.
    + split; [discriminate|]. intros H. inversion H; congruence.
    + rewrite IH. split; [now constructor | now inversion 1].
Qed.

Lemma timestamps_in items t :
  In t (timestamps rt items) <->
  Exists (fun item => Date_parse rt (createdAt item) = Some t) items.
Proof.
  unfold timestamps. induction items as [|item items IH]; cbn.
  - split; [contradiction | inversion 1].
  - destruct (Date_parse rt (createdAt item)) eqn:E; cbn.
    + rewrite IH. split.
      * intros [->|H]; [now left | now right].
      * inversion 1; subst; [left; congruence | now right].
    + rewrite IH. split; [now right|]. inversion 1; subst; [congruence | assumption].
Qed.

Lemma timestamps_bounded items m :
  Forall (fun t => (t <= m)%Z) (timestamps rt items) <->
  Forall (fun item => match Date_parse rt (createdAt item) with
                      | Some t => (t <= m)%Z
                      | None => True
                      end) items.
Proof.
  unfold timestamps. induction items as [|item items IH]; cbn.
  - split; constructor.
  - destruct (Date_parse rt (createdAt item)) eqn:E; cbn.
    + split; inversion 1; subst; constructor; try rewrite E; try tauto.
      rewrite E in *. assumption.
    + rewrite IH. split; [constructor; [now rewrite E | assumption] | now inversion 1].
Qed.

(** The key of a store whose every [createdAt] is a date is the key of the
    specification. *)
Lemma key_of_dated_items items :
  Forall (fun item => Date_parse rt (createdAt item) <> None) items ->
  key_of_all_items rt items (snapshotKey_of rt items).
Proof.
  intros Hall. unfold key_of_all_items, snapshotKey_of. rewrite latestChangeMs_maximum.
  destruct items as [|item items]; [reflexivity|].
  pose proof (maximum_spec (timestamps rt (item :: items))) as Hm.
  destruct (maximum (timestamps rt (item :: items))) as [m|].
  - destruct Hm as [Hin Hle]. exists m. split; [reflexivity|].
    split; [now apply timestamps_in|].
    apply timestamps_bounded in Hle. rewrite List.Forall_forall in *. intros i Hi.
    specialize (Hall i Hi). specialize (Hle i Hi).
    destruct (Date_parse rt (createdAt i)) as [t|]; [now exists t | congruence].
  - apply timestamps_none in Hm. inversion Hm; subst. inversion Hall; subst. congruence.
Qed.
End KeyFacts.

(** The key as the code computes it, for any store: the greatest time
    value among the items whose [createdAt] parses as a date, written in
    decimal, or ["empty"] when no item has such a [createdAt]. *)
Lemma key_is_latest_parsed_date (rt : Runtime) (items : list GraffitiItem) :
  match maximum (timestamps rt items) with
  | None =>
      snapshotKey_of rt items = "empty"
      /\ Forall (fun item => Date_parse rt (createdAt item) = None) items
  | Some ms =>
      snapshotKey_of rt items = JS.String_of_int ms
      /\ Exists (fun item => Date_parse rt (createdAt item) = Some ms) items
      /\ Forall (fun item => match Date_parse rt (createdAt item) with
                             | Some t => (t <= ms)%Z
                             | None => True
                             end) items
  end.
Proof.
  unfold snapshotKey_of. rewrite latestChangeMs_maximum.
  pose proof (maximum_spec (timestamps rt items)) as Hm.
  destruct (maximum (timestamps rt items)) as [m|].
  - destruct Hm as [Hin Hle]. split; [reflexivity|]. split.
    + now apply timestamps_in.
    + now apply timestamps_bounded.
  - split; [reflexivity|]. now apply timestamps_none.
Qed.

Lemma dated_spec (rt : Runtime) (items : list GraffitiItem) :
  dated rt items = true ->
  Forall (fun item => Date_parse rt (createdAt item) <> None) items.
Proof.
  unfold dated, time_of. rewrite forallb_forall, List.Forall_forall. intros H item Hin.
  specialize (H item Hin). now destruct (Date_parse rt (createdAt item)).
Qed.

(** The [Number.isFinite] guard at work, on a store file written by
    hand: an item whose [createdAt] is no date is left out of the
    maximum. *)
Example key_skips_undated_items :
  snapshotKey_of Host.runtime
    [Host.tag "a" "2024-01-01T00:00:00.005Z"; Host.tag "b" "yesterday"]
  = "1704067200005".
Proof. reflexivity. Qed.

Section RenderFacts.
Variable rt : Runtime.

Lemma snapshot_path_not_data key : snapshot_path rt key <> DATA_FILE rt.
Proof.
  unfold snapshot_path, DATA_FILE, SNAPSHOT_DIR, UPLOAD_DIR, PUBLIC_DIR.
  rewrite <- !app_assoc. cbn [app]. rewrite !to_path_app. intros H.
  apply append_inv_head in H. discriminate.
Qed.

Lemma background_not_snapshot name key :
  In name BACKGROUND_CANDIDATES ->
  Path.to_path (PUBLIC_DIR rt ++ [name]) <> snapshot_path rt key.
Proof.
  unfold snapshot_path, SNAPSHOT_DIR, UPLOAD_DIR, PUBLIC_DIR.
  rewrite <- !app_assoc. cbn [app]. rewrite !to_path_app. intros Hin H.
  apply append_inv_head in H.
  cbn in Hin. destruct Hin as [<-|[<-|[<-|[]]]]; discriminate.
Qed.

(** ** What the compositor computes, apart from the I/O it logs *)

Lemma loadImageSource_run url w :
  loadImageSource rt url w
  = (Return (source_bytes rt (fs w) url), logged (source_events rt url) w).
Proof.
  unfold loadImageSource, source_bytes, source_events, guard_passes, local_target.
  destruct (match_data_url mime_char url) as [[ty payload]|].
  { unfold ret. now rewrite logged_nil. }
  destruct (JS.startsWith url "/").
  - destruct (JS.startsWith _ _); cbn [negb].
    + run_io. unfold logged. cbn. now destruct (fs w !! _).
    + unfold ret. now rewrite logged_nil.
  - destruct (is_http url).
    + reflexivity.
    + unfold ret. now rewrite logged_nil.
Qed.

Lemma sticker_run src tw th rot op w :
  sticker rt src tw th rot op w
  = (fst (sticker rt src tw th rot op {| fs := fs w; uuids := 0; ticks := 0; trace := [] |}), w).
Proof.
  unfold sticker. destruct (sharp_metadata src); [|reflexivity].
  now destruct (toBuffer_info rt tw th rot op) as [[iw ih]|].
Qed.

Lemma overlay_of_run wd ht item w :
  overlay_of rt wd ht item w
  = (overlay_pure rt (fs w) wd ht item, logged (item_events rt item) w).
Proof.
  destruct item as [i|t]; cbn [overlay_of overlay_pure item_events].
  - unfold bind at 1. rewrite loadImageSource_run.
    destruct (source_bytes rt (fs w) (imageUrl i)) as [src|]; [|reflexivity].
    unfold bind. rewrite sticker_run. cbn [fs logged].
    destruct (fst (sticker _ _ _ _ _ _ _)) as [[data [iw ih]]|e]; reflexivity.
  - unfold ret. now rewrite logged_nil.
Qed.

Lemma overlay_loop_run wd ht items overlays skipped w :
  overlay_loop rt wd ht items overlays skipped w
  = (loop_pure rt (fs w) wd ht items overlays skipped,
     logged (loop_events rt (fs w) wd ht items) w).
Proof.
  revert overlays skipped w. induction items as [|item items IH]; intros overlays skipped w.
  - cbn. unfold ret. now rewrite logged_nil.
  - cbn [overlay_loop loop_pure loop_events]. unfold bind. rewrite overlay_of_run.
    destruct (overlay_pure rt (fs w) wd ht item) as [[ov|]|e].
    + rewrite IH. cbn [fs logged]. now rewrite logged_logged.
    + rewrite IH. cbn [fs logged]. now rewrite logged_logged.
    + now rewrite app_nil_r.
Qed.

Lemma resolveBackgroundPath_from_run candidates w :
  resolveBackgroundPath_from rt candidates w
  = (match background_path rt (fs w) candidates with
     | Some p => Return p
     | None => Throw NoBackground
     end, w).
Proof.
  induction candidates as [|name rest IH]; [reflexivity|].
  cbn [resolveBackgroundPath_from background_path]. run_io.
  destruct (fs w !! _); [reflexivity | apply IH].
Qed.

Lemma background_path_found files candidates p :
  background_path rt files candidates = Some p ->
  is_Some (files !! p)
  /\ exists name, In name candidates /\ p = Path.to_path (PUBLIC_DIR rt ++ [name]).
Proof.
  induction candidates as [|name rest IH]; cbn [background_path]; [discriminate|].
  destruct (files !! Path.to_path (PUBLIC_DIR rt ++ [name])) as [f|] eqn:E.
  - intros H. injection H as <-. split; [now exists f|]. exists name. split; [now left | reflexivity].
  - intros H. destruct (IH H) as [? (n & ? & ?)]. split; [assumption|]. exists n. split; [now right | assumption].
Qed.

Lemma cached_metadata_run path w :
  try_catch (let* meta := cached_metadata path in ret (Some meta)) (ret None) w
  = (Return (cached_artifact (fs w) path),
     match fs w !! path with
     | Some _ => logged [EvRead path] w
     | None => w
     end).
Proof.
  unfold cached_metadata, cached_artifact. run_io.
  destruct (fs w !! path) as [f|] eqn:E; cbn; [|reflexivity]. rewrite E.
  now destruct (sharp_metadata (file_bytes f)).
Qed.
End RenderFacts.

(** ** Rendering *)

Section RenderRuns.
Variable rt : Runtime.

Lemma fs_peeked path w : fs (peeked path w) = fs w.
Proof. unfold peeked. now destruct (fs w !! path). Qed.

Lemma getGraffiti_keeps_snapshots w items w0 key :
  getGraffiti rt w = (Return items, w0) ->
  fs w0 !! snapshot_path rt key = fs w !! snapshot_path rt key.
Proof.
  intros H. destruct (getGraffiti_returns rt _ _ _ H) as (l & _ & _ & _ & _ & _ & Hp).
  apply Hp, snapshot_path_not_data.
Qed.

Lemma generateWallSnapshot_hit w items w0 meta :
  getGraffiti rt w = (Return items, w0) ->
  cached_artifact (fs w) (snapshot_path rt (snapshotKey_of rt items)) = Some meta ->
  generateWallSnapshot rt w
  = (Return (hit_result (snapshotKey_of rt items) meta (length items)),
     logged [EvRead (snapshot_path rt (snapshotKey_of rt items))] w0).
Proof.
  intros Hget Hc. unfold generateWallSnapshot, bind at 1. rewrite Hget.
  unfold bind at 1. rewrite cached_metadata_run.
  unfold cached_artifact in *. rewrite (getGraffiti_keeps_snapshots _ _ _ _ Hget).
  destruct (fs w !! snapshot_path rt (snapshotKey_of rt items)); [|discriminate].
  rewrite Hc. reflexivity.
Qed.

(** A fresh render, when every step goes through. *)
Lemma generateWallSnapshot_fresh w items w0 bgpath bgfile wd ht overlays skipped :
  getGraffiti rt w = (Return items, w0) ->
  cached_artifact (fs w) (snapshot_path rt (snapshotKey_of rt items)) = None ->
  background_path rt (fs w0) BACKGROUND_CANDIDATES = Some bgpath ->
  fs w0 !! bgpath = Some bgfile ->
  sharp_metadata (file_bytes bgfile) = Some (Some wd, Some ht) ->
  JS.falsy (Some wd) || JS.falsy (Some ht) = false ->
  loop_pure rt (fs w0) wd ht items [] 0 = Return (overlays, skipped) ->
  forallb (overlay_fits wd ht) overlays = true ->
  forallb (overlay_decodes rt) overlays = true ->
  exists events,
    generateWallSnapshot rt w
    = (Return (fresh_result (snapshotKey_of rt items) wd ht (length items) skipped),
       stored (snapshot_path rt (snapshotKey_of rt items))
              (Binary (Composite (file_bytes bgfile) overlays))
              (logged events w0)).
Proof.
  intros Hget Hc Hbg Hfile Hmeta Hfalsy Hloop Hfit Hdec.
  unfold generateWallSnapshot, bind at 1. rewrite Hget.
  unfold bind at 1. rewrite cached_metadata_run.
  unfold cached_artifact in *. rewrite (getGraffiti_keeps_snapshots _ _ _ _ Hget).
  set (path := snapshot_path rt (snapshotKey_of rt items)) in *.
  assert (Hw : exists ev, match fs w !! path with
                          | Some _ => logged [EvRead path] w0
                          | None => w0
                          end = logged ev w0).
  { destruct (fs w !! path); [now exists [EvRead path] | exists []; now rewrite logged_nil]. }
  destruct Hw as [ev ->].
  replace (match fs w !! path with Some f => sharp_metadata (file_bytes f) | None => None end)
    with (@None (option number * option number)).
  unfold resolveBackgroundPath, bind at 1. rewrite resolveBackgroundPath_from_run.
  cbn [fs logged]. rewrite Hbg. run_io. rewrite Hfile, Hmeta. cbn [fst snd].
  rewrite Hfalsy. cbn. unfold Datatypes.id.
  rewrite overlay_loop_run. cbn [fs]. rewrite Hloop. cbn. rewrite Hfit, Hdec. cbn.
  eexists. unfold fresh_result, stored, logged. cbn. f_equal. f_equal.
  rewrite <- !app_assoc. reflexivity.
Qed.

(** Whatever [generateWallSnapshot] returns, it leaves the store as it
    read it and, under the key, an artifact of the size it reports. *)
Lemma generateWallSnapshot_returns w r w1 :
  generateWallSnapshot rt w = (Return r, w1) ->
  exists items meta,
    fst (getGraffiti rt w) = Return items
    /\ getGraffiti rt w1 = (Return items, logged [EvRead (DATA_FILE rt)] w1)
    /\ cached_artifact (fs w1) (snapshot_path rt (snapshotKey_of rt items)) = Some meta
    /\ r = (if fromCache r
            then hit_result (snapshotKey_of rt items) meta (length items)
            else fresh_result (snapshotKey_of rt items)
                              (default 0%float (fst meta)) (default 0%float (snd meta))
                              (length items) (skippedImages r)).
Proof.
  intros H. destruct (getGraffiti rt w) as [[items|e] w0] eqn:Hget.
  2:{ unfold generateWallSnapshot, bind at 1 in H. rewrite Hget in H. discriminate. }
  destruct (getGraffiti_returns rt _ _ _ Hget) as (l & Hl & Hitems & _ & _ & _ & Hp).
  exists items.
  assert (Hsame : forall w', fs w' !! DATA_FILE rt = Some (Json l) ->
            getGraffiti rt w' = (Return items, logged [EvRead (DATA_FILE rt)] w')).
  { intros w' Hw'. rewrite (getGraffiti_json rt w' l Hw'). now subst items. }
  set (path := snapshot_path rt (snapshotKey_of rt items)) in *.
  destruct (cached_artifact (fs w) path) as [meta|] eqn:Hc.
  - rewrite (generateWallSnapshot_hit w items w0 meta Hget Hc) in H. injection H as <- <-.
    exists meta. cbn [fst fromCache hit_result]. repeat split.
    + apply Hsame. exact Hl.
    + unfold cached_artifact in *. cbn [fs logged].
      rewrite Hp; [exact Hc | apply snapshot_path_not_data].
  - unfold generateWallSnapshot, bind at 1 in H. rewrite Hget in H.
    unfold bind at 1 in H. rewrite cached_metadata_run in H.
    unfold cached_artifact in Hc, H. rewrite (getGraffiti_keeps_snapshots _ _ _ _ Hget) in H.
    fold path in H. rewrite Hc in H.
    assert (Hw : exists ev, match fs w !! path with
                            | Some _ => logged [EvRead path] w0
                            | None => w0
                            end = logged ev w0).
    { destruct (fs w !! path); [now exists [EvRead path] | exists []; now rewrite logged_nil]. }
    destruct Hw as [ev Hw]. rewrite Hw in H. clear Hw.
    unfold resolveBackgroundPath, bind at 1 in H. rewrite resolveBackgroundPath_from_run in H.
    cbn [fs logged] in H.
    destruct (background_path rt (fs w0) BACKGROUND_CANDIDATES) as [bgpath|]; [|discriminate].
    unfold bind at 1 in H. rewrite readFile_run in H. cbn [fs logged] in H.
    destruct (fs w0 !! bgpath) as [bgfile|]; [|discriminate H].
    destruct (sharp_metadata (file_bytes bgfile)) as [[mw mh]|] eqn:Hmeta;
      [|unfold throw in H; discriminate H].
    cbn [fst snd] in H.
    destruct (JS.falsy mw || JS.falsy mh) eqn:Hfalsy; [unfold throw in H; discriminate H|].
    destruct mw as [wd|]; [|discriminate Hfalsy].
    destruct mh as [ht|]; [|cbn in Hfalsy; rewrite orb_true_r in Hfalsy; discriminate Hfalsy].
    change (default 0%float (Some wd)) with wd in H.
    change (default 0%float (Some ht)) with ht in H.
    unfold bind at 1 in H. rewrite overlay_loop_run in H. cbn [fs logged] in H.
    destruct (loop_pure rt (fs w0) wd ht items [] 0) as [[overlays skipped]|e];
      [|discriminate H].
    unfold bind at 1 in H. rewrite composite_run in H.
    destruct (forallb (overlay_fits wd ht) overlays && forallb (overlay_decodes rt) overlays);
      [|discriminate H].
    unfold bind at 1 in H. rewrite writeFile_run in H. unfold ret in H.
    injection H as <- <-. exists (Some wd, Some ht).
    cbn [fst snd fromCache default skippedImages fs stored logged]. repeat split.
    + apply Hsame. cbn [fs stored logged]. rewrite lookup_insert_ne; [exact Hl|].
      apply snapshot_path_not_data.
    + unfold cached_artifact. rewrite lookup_insert_eq. exact Hmeta.
Qed.
End RenderRuns.

(** C10. On a cache hit the result carries [skippedImages = 0] and the
    length of the store as it is now, whatever artifact lies in the cache
    and whatever the render that wrote it skipped or counted. *)
Theorem cache_hit_reports_current_count_and_no_skips
        (rt : Runtime) (w : World) (items : list GraffitiItem)
        (meta : option number * option number) :
  fst (getGraffiti rt w) = Return items ->
  cached_artifact (fs w) (snapshot_path rt (snapshotKey_of rt items)) = Some meta ->
  exists r w',
    generateWallSnapshot rt w = (Return r, w')
    /\ fromCache r = true
    /\ skippedImages r = 0
    /\ itemCount r = length items.
Proof.
  intros Hget Hc. destruct (getGraffiti rt w) as [o w0] eqn:E. cbn in Hget. subst o.
  rewrite (generateWallSnapshot_hit rt w items w0 meta E Hc).
  do 2 eexists. split; [reflexivity|]. now repeat split.
Qed.

(** A result that says [fromCache] reports no skip and the length of the
    store. *)
Lemma from_cache_means_no_skips (rt : Runtime) (w : World) (r : SnapshotResult) (w' : World) :
  generateWallSnapshot rt w = (Return r, w') ->
  fromCache r = true ->
  skippedImages r = 0
  /\ exists items, fst (getGraffiti rt w) = Return items /\ itemCount r = length items.
Proof.
  intros H Hc. destruct (generateWallSnapshot_returns rt w r w' H) as (items & meta & Hg & _ & _ & Hr).
  rewrite Hc in Hr. subst r. split; [reflexivity|]. now exists items.
Qed.

Lemma cache_hit_reports_current_count_and_no_skips_witness :
  exists r w',
    generateWallSnapshot Host.runtime wall_with_a_tag_more = (Return r, w')
    /\ fromCache r = true
    /\ skippedImages r = 0
    /\ itemCount r = 2.
Proof.
  apply (cache_hit_reports_current_count_and_no_skips Host.runtime wall_with_a_tag_more
           [missing_sticker; Host.tag "t" "2024-01-01T00:00:00.000Z"]
           (Some 1000%float, Some 800%float)).
  - vm_compute. reflexivity.
  - vm_compute. reflexivity.
Defined.

(** The render that wrote that artifact counted one item and one skip. *)
Example first_render_counted_one_skip :
  exists r,
    fst (generateWallSnapshot Host.runtime wall_with_missing_sticker) = Return r
    /\ fromCache r = false /\ skippedImages r = 1 /\ itemCount r = 1.
Proof. eexists. split; [vm_compute; reflexivity|]. now repeat split. Qed.

(** C2, as the code has it.  A readable artifact under the key of the
    store is returned with the size sharp reads from it, the number of
    items the store holds now and no skip, at the cost of reading the
    store and the artifact; and whatever a render returns, the next
    render, with the store as it was, returns the same key, size and item
    count from the cache and reports no skip, compositing, fetching and
    writing nothing. *)
Theorem render_is_cached_by_key (rt : Runtime) :
  (forall w items meta,
     fst (getGraffiti rt w) = Return items ->
     cached_artifact (fs w) (snapshot_path rt (snapshotKey_of rt items)) = Some meta ->
     generateWallSnapshot rt w
     = (Return (hit_result (snapshotKey_of rt items) meta (length items)),
        logged [EvRead (snapshot_path rt (snapshotKey_of rt items))]
               (snd (getGraffiti rt w))))
  /\ (forall w first w1,
        generateWallSnapshot rt w = (Return first, w1) ->
        exists second,
          generateWallSnapshot rt w1
          = (Return second,
             logged [EvRead (DATA_FILE rt); EvRead (snapshot_path rt (snapshotKey first))] w1)
          /\ fromCache second = true
          /\ snapshotKey second = snapshotKey first
          /\ result_width second = result_width first
          /\ result_height second = result_height first
          /\ itemCount second = itemCount first
          /\ skippedImages second = 0).
Proof.
  split.
  - intros w items meta Hget Hc. destruct (getGraffiti rt w) as [o w0] eqn:E.
    cbn in Hget. subst o. now apply generateWallSnapshot_hit.
  - intros w first w1 H.
    destruct (generateWallSnapshot_returns rt w first w1 H) as (items & meta & _ & Hg & Hc & Hr).
    rename Hg into E.
    rewrite (generateWallSnapshot_hit rt w1 items _ meta E Hc).
    assert (Hkey : snapshotKey first = snapshotKey_of rt items)
      by (rewrite Hr; now destruct (fromCache first)).
    exists (hit_result (snapshotKey_of rt items) meta (length items)).
    rewrite logged_logged, Hkey. split; [reflexivity|].
    rewrite Hr. now destruct (fromCache first).
Qed.

(** The wall rendered once: its artifact is returned as it is recorded,
    and a second render returns what the first did, but for the skip. *)
Lemma render_is_cached_by_key_witness :
  generateWallSnapshot Host.runtime wall_rendered_once
  = (Return (hit_result "1704067200000" (Some 1000%float, Some 800%float) 1),
     logged [EvRead (snapshot_path Host.runtime "1704067200000")]
            (snd (getGraffiti Host.runtime wall_rendered_once)))
  /\ exists second,
       generateWallSnapshot Host.runtime wall_rendered_once
       = (Return second,
          logged [EvRead (DATA_FILE Host.runtime);
                  EvRead (snapshot_path Host.runtime "1704067200000")] wall_rendered_once)
       /\ fromCache second = true
       /\ snapshotKey second = "1704067200000"
       /\ result_width second = 1000%float
       /\ result_height second = 800%float
       /\ itemCount second = 1
       /\ skippedImages second = 0.
Proof.
  split.
  - apply (proj1 (render_is_cached_by_key Host.runtime) wall_rendered_once [missing_sticker]
             (Some 1000%float, Some 800%float)); vm_compute; reflexivity.
  - apply (proj2 (render_is_cached_by_key Host.runtime) wall_with_missing_sticker
             (fresh_result "1704067200000" 1000 800 1 1) wall_rendered_once).
    vm_compute. reflexivity.
Defined.

(** C2 as stated fails on the skip count: the first render of the wall
    with the missing sticker records one skip, the render that finds its
    artifact reports none. *)
Lemma cache_hit_forgets_the_skip_count :
  ~ hit_returns_the_recorded_metadata Host.runtime wall_with_missing_sticker.
Proof.
  intros H.
  destruct (H (fresh_result "1704067200000" 1000 800 1 1) wall_rendered_once
              (hit_result "1704067200000" (Some 1000%float, Some 800%float) 1))
    as (_ & _ & _ & _ & _ & Hs).
  - vm_compute. reflexivity.
  - vm_compute. reflexivity.
  - discriminate Hs.
Qed.

(** C3. The key is a function of the item sequence, the one the render
    reports: for items whose [createdAt] are dates, as [addGraffiti]
    writes them, it is the greatest of these times, written in decimal,
    and for the empty store it is the sentinel. *)
Theorem snapshot_key_is_latest_date (rt : Runtime) (items : list GraffitiItem) :
  dated rt items = true ->
  key_of_all_items rt items (snapshotKey_of rt items)
  /\ forall w r,
       fst (getGraffiti rt w) = Return items ->
       fst (generateWallSnapshot rt w) = Return r ->
       snapshotKey r = snapshotKey_of rt items.
Proof.
  intros Hd. split; [apply key_of_dated_items, dated_spec, Hd|].
  intros w r Hget Hr. destruct (generateWallSnapshot rt w) as [o w1] eqn:E. cbn in Hr. subst o.
  destruct (generateWallSnapshot_returns rt w r w1 E) as (items' & meta & Hg & _ & _ & ->).
  rewrite Hget in Hg. injection Hg as <-. now destruct (fromCache _).
Qed.

(** The statement above on two tags, the later one first in the store,
    and on the empty store. *)
Lemma snapshot_key_is_latest_date_witness :
  (key_of_all_items Host.runtime
     [Host.tag "b" "2024-01-01T00:00:00.005Z"; Host.tag "a" "2024-01-01T00:00:00.000Z"]
     (snapshotKey_of Host.runtime
        [Host.tag "b" "2024-01-01T00:00:00.005Z"; Host.tag "a" "2024-01-01T00:00:00.000Z"])
   /\ forall w r,
        fst (getGraffiti Host.runtime w)
        = Return [Host.tag "b" "2024-01-01T00:00:00.005Z";
                  Host.tag "a" "2024-01-01T00:00:00.000Z"] ->
        fst (generateWallSnapshot Host.runtime w) = Return r ->
        snapshotKey r
        = snapshotKey_of Host.runtime
            [Host.tag "b" "2024-01-01T00:00:00.005Z"; Host.tag "a" "2024-01-01T00:00:00.000Z"])
  /\ (key_of_all_items Host.runtime [] (snapshotKey_of Host.runtime [])
      /\ forall w r,
           fst (getGraffiti Host.runtime w) = Return [] ->
           fst (generateWallSnapshot Host.runtime w) = Return r ->
           snapshotKey r = snapshotKey_of Host.runtime []).
Proof.
  split.
  - apply (snapshot_key_is_latest_date Host.runtime
             [Host.tag "b" "2024-01-01T00:00:00.005Z"; Host.tag "a" "2024-01-01T00:00:00.000Z"]).
    vm_compute. reflexivity.
  - apply (snapshot_key_is_latest_date Host.runtime []). reflexivity.
Defined.

Example key_of_two_tags :
  snapshotKey_of Host.runtime
    [Host.tag "b" "2024-01-01T00:00:00.005Z"; Host.tag "a" "2024-01-01T00:00:00.000Z"]
  = "1704067200005"
  /\ snapshotKey_of Host.runtime [] = "empty".
Proof. split; reflexivity. Qed.

(** ** Skipped images *)

Section SkipFacts.
Variable rt : Runtime.
Variable w : World.
Variables wd ht : number.

Lemma overlay_of_fst item :
  fst (overlay_of rt wd ht item w) = overlay_pure rt (fs w) wd ht item.
Proof. now rewrite overlay_of_run. Qed.

Lemma loadImageSource_fst url :
  fst (loadImageSource rt url w) = Return (source_bytes rt (fs w) url).
Proof. now rewrite loadImageSource_run. Qed.

Lemma overlay_of_none item :
  fst (overlay_of rt wd ht item w) = Return None <-> unresolved rt w item = true.
Proof.
  rewrite overlay_of_fst.
  destruct item as [i|t]; cbn [overlay_pure unresolved]; [|split; discriminate].
  rewrite loadImageSource_fst.
  destruct (source_bytes rt (fs w) (imageUrl i)) as [src|]; [|now split].
  split; [|discriminate].
  destruct (fst (sticker _ _ _ _ _ _ _)) as [[data [iw ih]]|e]; discriminate.
Qed.

Lemma loop_pure_accepted items overlays skipped :
  Forall (accepted rt w wd ht) items ->
  exists drawn,
    loop_pure rt (fs w) wd ht items overlays skipped
    = Return (overlays ++ drawn,
              skipped + length (List.filter (unresolved rt w) items))
    /\ Forall2 (draws rt w wd ht)
               (List.filter (fun item => negb (unresolved rt w item)) items) drawn.
Proof.
  intros H. revert overlays skipped.
  induction H as [|item items [o Ho] _ IH]; intros overlays skipped.
  - exists []. cbn. rewrite app_nil_r, Nat.add_0_r. split; [reflexivity | constructor].
  - cbn [loop_pure List.filter]. rewrite <- overlay_of_fst, Ho. destruct o as [ov|].
    + destruct (IH (overlays ++ [ov]) skipped) as (drawn & Hrun & Hall).
      assert (Hu : unresolved rt w item = false).
      { destruct (unresolved rt w item) eqn:E; [|reflexivity].
        apply overlay_of_none in E. congruence. }
      rewrite Hu. cbn [negb]. exists (ov :: drawn). rewrite Hrun, <- app_assoc.
      split; [reflexivity | now constructor].
    + destruct (IH overlays (skipped + 1)) as (drawn & Hrun & Hall).
      assert (Hu : unresolved rt w item = true) by now apply overlay_of_none.
      rewrite Hu. cbn [negb length]. exists drawn. rewrite Hrun.
      split; [do 2 f_equal; lia | exact Hall].
Qed.
End SkipFacts.

Lemma Forall2_In_r {A B} (P : A -> B -> Prop) l l' y :
  Forall2 P l l' -> In y l' -> exists x, In x l /\ P x y.
Proof.
  induction 1 as [|x y' l l' H1 H2 IH]; [contradiction|].
  intros [<-|Hin]; [exists x; split; [now left | assumption]|].
  destruct (IH Hin) as (x' & Hx & Hp). exists x'. split; [now right | assumption].
Qed.

(** C4, as the code has it.  When no snapshot is cached under the key of
    the store, the background is a readable image of known size, sharp
    goes through with every image for which [loadImageSource] finds
    bytes, and every overlay the loop pushes fits the background and is
    one sharp decodes, the render returns; its counter is the number of
    image items for which [loadImageSource] comes back with [null], and
    the artifact it writes holds, in order, one overlay for each of the
    other items. *)
Theorem unresolved_images_are_skipped_and_counted
        (rt : Runtime) (w : World) (persisted : list GraffitiItem)
        (bgpath : string) (bgfile : File) (wd ht : number) :
  let items := sort (by_createdAt rt) (map JSON_item persisted) in
  let path := snapshot_path rt (snapshotKey_of rt items) in
  fs w !! DATA_FILE rt = Some (Json persisted) ->
  cached_artifact (fs w) path = None ->
  background_path rt (fs w) BACKGROUND_CANDIDATES = Some bgpath ->
  fs w !! bgpath = Some bgfile ->
  sharp_metadata (file_bytes bgfile) = Some (Some wd, Some ht) ->
  JS.falsy (Some wd) || JS.falsy (Some ht) = false ->
  Forall (accepted rt w wd ht) items ->
  (forall ov item, In item items -> draws rt w wd ht item ov ->
                   overlay_fits wd ht ov && overlay_decodes rt ov = true) ->
  exists r w' drawn,
    generateWallSnapshot rt w = (Return r, w')
    /\ fromCache r = false
    /\ skippedImages r = length (List.filter (unresolved rt w) items)
    /\ itemCount r = length items
    /\ fs w' !! path = Some (Binary (Composite (file_bytes bgfile) drawn))
    /\ Forall2 (draws rt w wd ht)
               (List.filter (fun item => negb (unresolved rt w item)) items) drawn.
Proof.
  intros items path Hdata Hmiss Hbg Hfile Hmeta Hfalsy Hacc Hfit.
  destruct (loop_pure_accepted rt w wd ht items [] 0 Hacc) as (drawn & Hloop & Hdrawn).
  assert (Hboth : forall ov, In ov drawn ->
                             overlay_fits wd ht ov && overlay_decodes rt ov = true).
  { intros ov Hov. destruct (Forall2_In_r _ _ _ _ Hdrawn Hov) as (item & Hin & Ho).
    apply filter_In in Hin. now apply (Hfit ov item). }
  assert (Hfits : forallb (overlay_fits wd ht) drawn = true).
  { apply forallb_forall. intros ov Hov. specialize (Hboth ov Hov).
    now apply andb_true_iff in Hboth. }
  assert (Hdec : forallb (overlay_decodes rt) drawn = true).
  { apply forallb_forall. intros ov Hov. specialize (Hboth ov Hov).
    now apply andb_true_iff in Hboth. }
  cbn [app Nat.add] in Hloop.
  assert (Hget : getGraffiti rt w = (Return items, logged [EvRead (DATA_FILE rt)] w))
    by now apply getGraffiti_json.
  destruct (generateWallSnapshot_fresh rt w items _ bgpath bgfile wd ht drawn _
              Hget Hmiss Hbg Hfile Hmeta Hfalsy Hloop Hfits Hdec) as (events & Hrun).
  rewrite Hrun. do 3 eexists. split; [reflexivity|].
  cbn [fromCache skippedImages itemCount fresh_result fs stored].
  rewrite lookup_insert_eq. now repeat split.
Qed.

Lemma unresolved_images_are_skipped_and_counted_witness :
  exists r w' drawn,
    generateWallSnapshot Host.runtime wall_with_three = (Return r, w')
    /\ fromCache r = false
    /\ skippedImages r = 1
    /\ itemCount r = 3
    /\ fs w' !! snapshot_path Host.runtime "1704067200002"
       = Some (Binary (Composite (Host.png "wall" 1000 800) drawn))
    /\ Forall2 (draws Host.runtime wall_with_three 1000 800)
               [Host.tag "t" "2024-01-01T00:00:00.001Z";
                Host.sticker_item "n" "2024-01-01T00:00:00.002Z" "https://example.com/tag.png"]
               drawn.
Proof.
  apply (unresolved_images_are_skipped_and_counted Host.runtime wall_with_three three_items
           "/srv/leftys/public/leftys-bg.png" (Binary (Host.png "wall" 1000 800)) 1000 800).
  - vm_compute. reflexivity.
  - vm_compute. reflexivity.
  - vm_compute. reflexivity.
  - vm_compute. reflexivity.
  - reflexivity.
  - reflexivity.
  - repeat constructor; eexists; vm_compute; reflexivity.
  - intros ov item Hin. vm_compute in Hin. unfold draws.
    destruct Hin as [<-|[<-|[<-|[]]]]; vm_compute; intros H; inversion H; reflexivity.
Defined.

(** C4 as stated fails on a cache hit: the wall rendered once still holds
    the sticker without bytes, and the second render reports no skip. *)
Lemma cached_render_reports_no_skip :
  ~ skips_every_unusable_image Host.runtime wall_rendered_once.
Proof.
  intros H. destruct (H [missing_sticker]) as (r & Hr & Hs).
  - vm_compute. reflexivity.
  - vm_compute in Hr. injection Hr as <-. vm_compute in Hs. discriminate Hs.
Qed.

(** Bytes that are found and are no image are not skipped: sharp's
    exception is not caught and ends the render. *)
Example undecodable_image_aborts_the_render :
  fst (generateWallSnapshot Host.runtime wall_with_junk) = Throw SharpError.
Proof. vm_compute. reflexivity. Qed.

(** Nor is a text sharp cannot decode: the document of a text holding
    the character U+0001 is no XML, and the composite throws. *)
Example undecodable_text_aborts_the_render :
  fst (generateWallSnapshot Host.runtime wall_with_a_control_character) = Throw SharpError.
Proof. vm_compute. reflexivity. Qed.

Lemma append_cons c s t : String c s +:+ t = String c (s +:+ t).
Proof. reflexivity. Qed.

Lemma append_nil_l t : "" +:+ t = t.
Proof. reflexivity. Qed.

Lemma prefix_cons_cons c d s t :
  String.prefix (String c s) (String d t)
  = if Ascii.eqb c d then String.prefix s t else false.
Proof.
  cbn [String.prefix]. destruct (ascii_dec c d) as [->|Hne].
  - now rewrite Ascii.eqb_refl.
  - apply Ascii.eqb_neq in Hne. now rewrite Hne.
Qed.

Lemma prefix_cons c s t : String.prefix (String c s) (String c t) = String.prefix s t.
Proof. now rewrite prefix_cons_cons, Ascii.eqb_refl. Qed.

Lemma prefix_app_same s p t : String.prefix (s +:+ p) (s +:+ t) = String.prefix p t.
Proof.
  induction s as [|c s IH]; [reflexivity|]. now rewrite !append_cons, prefix_cons.
Qed.

Lemma append_empty a b : a +:+ b = "" -> a = "" /\ b = "".
Proof.
  destruct a as [|c a]; [now rewrite append_nil_l|]. rewrite append_cons. discriminate.
Qed.

Lemma prefix_empty_r s : String.prefix s "" = true -> s = "".
Proof. now destruct s. Qed.

Lemma split_slash_slash_free s : Forall (fun seg => slash_free seg = true) (JS.split_slash s).
Proof.
  induction s as [|c s IH]; cbn [JS.split_slash]; [repeat constructor|].
  destruct (Ascii.eqb c "/") eqn:E; [constructor; [reflexivity | exact IH]|].
  destruct (JS.split_slash s) as [|seg segs]; [repeat constructor; cbn; now rewrite E|].
  inversion IH; subst. constructor; [cbn; now rewrite E | assumption].
Qed.

Lemma normalizeString_segments stack segs :
  Forall (fun seg => segment seg = true) stack ->
  Forall (fun seg => slash_free seg = true) segs ->
  Forall (fun seg => segment seg = true) (Path.normalizeString stack segs).
Proof.
  intros Hstack Hsegs. revert stack Hstack.
  induction Hsegs as [|seg segs Hseg _ IH]; intros stack Hstack; cbn [Path.normalizeString];
    [assumption|].
  destruct (String.eqb seg "" || String.eqb seg ".") eqn:E1; [now apply IH|].
  destruct (String.eqb seg "..") eqn:E2.
  - apply IH. destruct stack; [constructor | now inversion Hstack].
  - apply IH. constructor; [|assumption].
    unfold segment, Path.proper. rewrite Hseg, E2.
    apply orb_false_iff in E1 as [-> ->]. reflexivity.
Qed.

Lemma Forall_rev' {A} (P : A -> Prop) l : Forall P l -> Forall P (rev l).
Proof.
  intros H. rewrite List.Forall_forall in *. intros a Ha. apply H. now apply in_rev.
Qed.

(** The step from one segment to the next in a prefix test. *)
Lemma segment_prefix a b u v :
  slash_free a = true -> slash_free b = true ->
  v = "" \/ (exists v', v = String "/" v') ->
  String.prefix (a +:+ String "/" u) (b +:+ v) = true ->
  a = b /\ String.prefix (String "/" u) v = true.
Proof.
  revert b. induction a as [|c a IH]; intros b Ha Hb Hv H.
  - rewrite append_nil_l in H. destruct b as [|d b].
    + now rewrite append_nil_l in H.
    + exfalso. rewrite append_cons, prefix_cons_cons in H.
      cbn [slash_free] in Hb. apply andb_true_iff in Hb as [Hd _].
      rewrite Ascii.eqb_sym in H. destruct (Ascii.eqb d "/"); discriminate.
  - rewrite append_cons in H. cbn [slash_free] in Ha. apply andb_true_iff in Ha as [Hc Ha].
    destruct b as [|d b].
    + exfalso. rewrite append_nil_l in H. destruct Hv as [->|[v' ->]]; [discriminate H|].
      rewrite prefix_cons_cons in H. destruct (Ascii.eqb c "/"); discriminate.
    + rewrite append_cons, prefix_cons_cons in H.
      cbn [slash_free] in Hb. apply andb_true_iff in Hb as [_ Hb].
      destruct (Ascii.eqb_spec c d) as [<-|]; [|discriminate H].
      destruct (IH b Ha Hb Hv H) as [-> Hp]. now split.
Qed.

Lemma to_path_tail_cons seg rest :
  Path.to_path_tail (seg :: rest) = String "/" (seg +:+ Path.to_path_tail rest).
Proof. reflexivity. Qed.

Lemma to_path_tail_starts l :
  Path.to_path_tail l = "" \/ exists v, Path.to_path_tail l = String "/" v.
Proof. destruct l; [now left | right; now eexists]. Qed.

Lemma tail_prefix_below A B :
  Forall (fun seg => slash_free seg = true) A ->
  Forall (fun seg => slash_free seg = true) B ->
  String.prefix (Path.to_path_tail A +:+ "/") (Path.to_path_tail B) = true ->
  exists rest, rest <> [] /\ B = A ++ rest.
Proof.
  intros HA. revert B. induction HA as [|a A Ha _ IH]; intros B HB H.
  - exists B. split; [|reflexivity]. intros ->. discriminate H.
  - destruct HB as [|b B Hb HB]; [discriminate H|].
    rewrite !to_path_tail_cons, append_cons, prefix_cons, append_assoc in H.
    assert (Hu : exists u, Path.to_path_tail A +:+ "/" = String "/" u).
    { destruct A; [now exists "" | eexists; now rewrite to_path_tail_cons, append_cons]. }
    destruct Hu as [u Hu]. rewrite Hu in H.
    destruct (segment_prefix a b u _ Ha Hb (to_path_tail_starts B) H) as [<- Hp].
    rewrite <- Hu in Hp. destruct (IH B HB Hp) as (rest & Hne & ->).
    exists rest. now split.
Qed.

Section GuardFacts.
Variable rt : Runtime.

Lemma cwd_segments_ok : Forall (fun seg => segment seg = true) (cwd_segments rt).
Proof.
  apply Forall_rev', normalizeString_segments; [constructor | apply split_slash_slash_free].
Qed.

Lemma PUBLIC_DIR_ok : Forall (fun seg => segment seg = true) (PUBLIC_DIR rt).
Proof. apply Forall_app. split; [apply cwd_segments_ok | now repeat constructor]. Qed.

Lemma local_target_ok url : Forall (fun seg => segment seg = true) (local_target rt url).
Proof.
  apply Forall_rev', normalizeString_segments;
    [apply Forall_rev', PUBLIC_DIR_ok | apply split_slash_slash_free].
Qed.

Lemma segments_slash_free l :
  Forall (fun seg => segment seg = true) l -> Forall (fun seg => slash_free seg = true) l.
Proof.
  intros H. rewrite List.Forall_forall in *. intros s Hs. specialize (H s Hs).
  unfold segment in H. now apply andb_true_iff in H as [_ H].
Qed.

(** The string test of the guard is the test on segments: the target
    lies strictly below the root. *)
Lemma guard_passes_iff url :
  guard_passes rt url = true <->
  exists rest, rest <> [] /\ local_target rt url = PUBLIC_DIR rt ++ rest.
Proof.
  unfold guard_passes, JS.startsWith.
  assert (Hroot : Path.to_path (PUBLIC_DIR rt) = Path.to_path_tail (PUBLIC_DIR rt)).
  { unfold PUBLIC_DIR. now destruct (cwd_segments rt). }
  rewrite Hroot. split.
  - intros H. destruct (local_target rt url) as [|seg segs] eqn:E.
    + exfalso. unfold PUBLIC_DIR in H. cbn [Path.to_path] in H.
      rewrite to_path_tail_app, append_assoc in H. cbn [Path.to_path_tail] in H.
      destruct (cwd_segments rt) as [|c cs].
      * cbn in H. discriminate H.
      * rewrite to_path_tail_cons, !append_cons in H.
        rewrite prefix_cons_cons, Ascii.eqb_refl in H.
        apply prefix_empty_r, append_empty in H. destruct H as [_ H]. discriminate H.
    + change (Path.to_path (seg :: segs)) with (Path.to_path_tail (seg :: segs)) in H.
      apply tail_prefix_below in H; [exact H | |].
      * apply segments_slash_free, PUBLIC_DIR_ok.
      * rewrite <- E. apply segments_slash_free, local_target_ok.
  - intros (rest & Hne & ->). destruct rest as [|r rest]; [contradiction|].
    rewrite to_path_app, prefix_app_same, to_path_tail_cons, prefix_cons_cons, Ascii.eqb_refl.
    now destruct (r +:+ Path.to_path_tail rest).
Qed.

Lemma local_url_is_no_data_url url cls :
  JS.startsWith url "/" = true -> match_data_url cls url = None.
Proof.
  unfold JS.startsWith. destruct url as [|c url]; [discriminate|].
  rewrite prefix_cons_cons. destruct (Ascii.eqb_spec "/" c) as [<-|]; [reflexivity | discriminate].
Qed.
End GuardFacts.

(** C8. For an image item whose source is a local path: when the path
    resolves to anything but a place strictly below the asset root,
    [loadImageSource] comes back with [null] and has read nothing, and
    the item counts as skipped; and whatever the source of an item, every
    file [loadImageSource] reads lies strictly below the root, at a
    normalised path. *)
Theorem escaping_local_source_is_rejected
        (rt : Runtime) (i : GraffitiImage) (wd ht : number) (w : World) :
  (JS.startsWith (imageUrl i) "/" = true ->
   (forall rest, local_target rt (imageUrl i) = PUBLIC_DIR rt ++ rest -> rest = []) ->
   loadImageSource rt (imageUrl i) w = (Return None, w)
   /\ overlay_of rt wd ht (Image i) w = (Return None, w)
   /\ overlay_loop rt wd ht [Image i] [] 0 w = (Return ([], 1), w))
  /\ (forall events p,
        trace (snd (loadImageSource rt (imageUrl i) w)) = trace w ++ events ->
        In (EvRead p) events ->
        exists rest,
          rest <> [] /\ Forall (fun seg => segment seg = true) rest
          /\ p = Path.to_path (PUBLIC_DIR rt ++ rest)).
Proof.
  split.
  - intros Hlocal Hout.
    assert (Hguard : guard_passes rt (imageUrl i) = false).
    { destruct (guard_passes rt (imageUrl i)) eqn:E; [|reflexivity].
      apply guard_passes_iff in E as (rest & Hne & Hrest). now apply Hout in Hrest. }
    assert (Hload : loadImageSource rt (imageUrl i) w = (Return None, w)).
    { rewrite loadImageSource_run. unfold source_bytes, source_events.
      rewrite (local_url_is_no_data_url _ _ Hlocal), Hlocal, Hguard. now rewrite logged_nil. }
    assert (Hov : overlay_of rt wd ht (Image i) w = (Return None, w)).
    { cbn [overlay_of]. unfold bind. now rewrite Hload. }
    repeat split; [exact Hload | exact Hov|].
    cbn [overlay_loop]. unfold bind. now rewrite Hov.
  - intros events p Htrace Hin. rewrite loadImageSource_run in Htrace.
    cbn [snd trace logged] in Htrace. apply app_inv_head in Htrace. subst events.
    unfold source_events in Hin.
    destruct (match_data_url mime_char (imageUrl i)); [contradiction|].
    destruct (JS.startsWith (imageUrl i) "/").
    + destruct (guard_passes rt (imageUrl i)) eqn:E; [|contradiction].
      destruct Hin as [[= <-]|[]].
      apply guard_passes_iff in E as (rest & Hne & Hrest). exists rest.
      split; [exact Hne|]. split; [|now rewrite Hrest].
      pose proof (local_target_ok rt (imageUrl i)) as Hok. rewrite Hrest in Hok.
      now apply Forall_app in Hok as [_ Hok].
    + destruct (is_http (imageUrl i)); [|contradiction].
      destruct Hin as [Hin|[]]. discriminate Hin.
Qed.

(** A sticker that points at the store file through the parent of the
    root is rejected unread; the file read for a sticker under [uploads]
    lies below the root. *)
Lemma escaping_local_source_is_rejected_witness :
  (loadImageSource Host.runtime "/../data/graffiti.json" wall_with_three
   = (Return None, wall_with_three)
   /\ overlay_of Host.runtime 1000 800 (Image escaping_sticker) wall_with_three
      = (Return None, wall_with_three)
   /\ overlay_loop Host.runtime 1000 800 [Image escaping_sticker] [] 0 wall_with_three
      = (Return ([], 1), wall_with_three))
  /\ exists rest,
       rest <> [] /\ Forall (fun seg => segment seg = true) rest
       /\ "/srv/leftys/public/uploads/missing.png"
          = Path.to_path (PUBLIC_DIR Host.runtime ++ rest).
Proof.
  split.
  - apply (proj1 (escaping_local_source_is_rejected Host.runtime escaping_sticker 1000 800
                    wall_with_three) eq_refl).
    intros rest H. vm_compute in H. discriminate H.
  - apply (proj2 (escaping_local_source_is_rejected Host.runtime uploaded_sticker 1000 800
                    wall_with_three)
                 [EvRead "/srv/leftys/public/uploads/missing.png"]).
    + vm_compute. reflexivity.
    + left. reflexivity.
Defined.

(** A path that leaves the root and comes back is read, below the root. *)
Example returning_path_is_read :
  trace (snd (loadImageSource Host.runtime "/../public/uploads/a.png" (Host.world [])))
  = [EvRead "/srv/leftys/public/uploads/a.png"].
Proof. vm_compute. reflexivity. Qed.

(** A sibling directory whose name starts like the root is outside. *)
Example sibling_directory_is_rejected :
  loadImageSource Host.runtime "/../public-evil/a.png"
    (Host.world [("/srv/leftys/public-evil/a.png", Binary (Host.png "evil" 1 1))])
  = (Return None,
     Host.world [("/srv/leftys/public-evil/a.png", Binary (Host.png "evil" 1 1))]).
Proof. vm_compute. reflexivity. Qed.

(** ** What a render reads *)

Section LogFacts.
Context {A B : Type} (P : Event -> Prop).

Lemma logs_ret (a : A) : logs P (ret a).
Proof. intros w. exists []. cbn. now rewrite app_nil_r. Qed.

Lemma logs_throw e : logs P (@throw A e).
Proof. intros w. exists []. cbn. now rewrite app_nil_r. Qed.

Lemma logs_bind (m : M A) (k : A -> M B) :
  logs P m -> (forall a, logs P (k a)) -> logs P (bind m k).
Proof.
  intros Hm Hk w. unfold bind. destruct (Hm w) as (ev1 & H1 & HP1).
  destruct (m w) as [[a|e] w1]; cbn [snd] in *.
  - destruct (Hk a w1) as (ev2 & H2 & HP2). exists (ev1 ++ ev2).
    rewrite H2, H1, <- app_assoc. split; [reflexivity | now apply Forall_app].
  - now exists ev1.
Qed.

(** The same, knowing something of what the first part returns. *)
Lemma logs_bind_post (Q : A -> Prop) (m : M A) (k : A -> M B) :
  logs P m ->
  (forall w a w', m w = (Return a, w') -> Q a) ->
  (forall a, Q a -> logs P (k a)) ->
  logs P (bind m k).
Proof.
  intros Hm HQ Hk w. unfold bind. destruct (Hm w) as (ev1 & H1 & HP1).
  destruct (m w) as [[a|e] w1] eqn:E; cbn [snd] in *.
  - destruct (Hk a (HQ w a w1 E) w1) as (ev2 & H2 & HP2). exists (ev1 ++ ev2).
    rewrite H2, H1, <- app_assoc. split; [reflexivity | now apply Forall_app].
  - now exists ev1.
Qed.

Lemma logs_try_catch (m h : M A) : logs P m -> logs P h -> logs P (try_catch m h).
Proof.
  intros Hm Hh w. unfold try_catch. destruct (Hm w) as (ev1 & H1 & HP1).
  destruct (m w) as [[a|e] w1]; cbn [snd] in *.
  - now exists ev1.
  - destruct (Hh w1) as (ev2 & H2 & HP2). exists (ev1 ++ ev2).
    rewrite H2, H1, <- app_assoc. split; [reflexivity | now apply Forall_app].
Qed.
End LogFacts.

Section LogPrimitives.
Variable P : Event -> Prop.

Lemma logs_emit e : P e -> logs P (emit e).
Proof. intros He w. exists [e]. split; [reflexivity | now repeat constructor]. Qed.

Lemma logs_access path : logs P (access path).
Proof.
  intros w. exists []. unfold access. rewrite app_nil_r. split; [|constructor].
  now destruct (fs w !! path).
Qed.

Lemma logs_readFile path : P (EvRead path) -> logs P (readFile path).
Proof.
  intros He w. rewrite readFile_run. exists [EvRead path].
  split; [reflexivity | now repeat constructor].
Qed.

Lemma logs_writeFile path f : P (EvWrite path) -> logs P (writeFile path f).
Proof.
  intros He w. rewrite writeFile_run. exists [EvWrite path].
  split; [reflexivity | now repeat constructor].
Qed.

(** A computation that leaves a world with more logged. *)
Lemma logs_logged {A} (m : M A) (events : World -> list Event) :
  (forall w, snd (m w) = logged (events w) w) ->
  (forall w, Forall P (events w)) ->
  logs P m.
Proof. intros Hrun Hall w. exists (events w). rewrite Hrun. split; [reflexivity | apply Hall]. Qed.
End LogPrimitives.

Section ReadFacts.
Variable rt : Runtime.

Lemma below_root_is_under_public rest :
  rest <> [] -> under_public rt (Path.to_path (PUBLIC_DIR rt ++ rest)).
Proof.
  intros Hne. unfold under_public, JS.startsWith.
  assert (Hroot : Path.to_path (PUBLIC_DIR rt) = Path.to_path_tail (PUBLIC_DIR rt)).
  { unfold PUBLIC_DIR. now destruct (cwd_segments rt). }
  rewrite Hroot. destruct rest as [|r rest]; [contradiction|].
  rewrite to_path_app, prefix_app_same, to_path_tail_cons, prefix_cons_cons, Ascii.eqb_refl.
  now destruct (r +:+ Path.to_path_tail rest).
Qed.

Lemma snapshot_path_under_public key : under_public rt (snapshot_path rt key).
Proof.
  unfold snapshot_path, SNAPSHOT_DIR, UPLOAD_DIR. rewrite <- !app_assoc.
  now apply below_root_is_under_public.
Qed.

Lemma source_events_permitted url : Forall (permitted rt) (source_events rt url).
Proof.
  unfold source_events. destruct (match_data_url mime_char url); [constructor|].
  destruct (JS.startsWith url "/"); [|destruct (is_http url); repeat constructor].
  destruct (guard_passes rt url) eqn:E; [|constructor].
  constructor; [|constructor]. cbn [permitted]. right. exact E.
Qed.

Lemma loop_events_permitted files wd ht items :
  Forall (permitted rt) (loop_events rt files wd ht items).
Proof.
  induction items as [|item items IH]; [constructor|]. cbn [loop_events].
  apply Forall_app. split.
  - destruct item; [apply source_events_permitted | constructor].
  - destruct (overlay_pure rt files wd ht item); [exact IH | constructor].
Qed.

Lemma getGraffiti_logs : logs (permitted rt) (getGraffiti rt).
Proof.
  unfold getGraffiti, ensureDataFile.
  apply logs_bind; [apply logs_try_catch; [apply logs_access | now apply logs_writeFile]|].
  intros _. apply logs_bind; [apply logs_readFile; cbn [permitted]; now left|].
  intros raw. apply logs_bind; [|intros parsed; apply logs_ret].
  destruct raw; [apply logs_ret | apply logs_throw].
Qed.

Lemma resolveBackgroundPath_logs : logs (permitted rt) (resolveBackgroundPath rt).
Proof.
  apply (logs_logged _ _ (fun _ => [])); [|constructor].
  intros w. unfold resolveBackgroundPath. rewrite resolveBackgroundPath_from_run.
  now rewrite logged_nil.
Qed.

(** Whatever it returns or throws, a render reads the store file and
    files under the asset root, and nothing else. *)
Lemma generateWallSnapshot_logs : logs (permitted rt) (generateWallSnapshot rt).
Proof.
  unfold generateWallSnapshot. apply logs_bind; [apply getGraffiti_logs|]. intros items.
  apply logs_bind.
  { apply logs_try_catch; [|apply logs_ret]. apply logs_bind; [|intros; apply logs_ret].
    unfold cached_metadata. apply logs_bind; [apply logs_access|]. intros _.
    apply logs_bind; [apply logs_readFile; cbn [permitted]; right; apply snapshot_path_under_public|].
    intros f. destruct (sharp_metadata (file_bytes f)); [apply logs_ret | apply logs_throw]. }
  intros [meta|]; [apply logs_ret|].
  apply (logs_bind_post _ (fun p => exists name, p = Path.to_path (PUBLIC_DIR rt ++ [name])));
    [apply resolveBackgroundPath_logs | |].
  { intros w p w' H. unfold resolveBackgroundPath in H.
    rewrite resolveBackgroundPath_from_run in H.
    destruct (background_path rt (fs w) BACKGROUND_CANDIDATES) as [q|] eqn:Ebg; [|discriminate H].
    injection H as <- _. destruct (background_path_found rt _ _ _ Ebg) as (_ & name & _ & ->).
    now exists name. }
  intros backgroundPath [name ->].
  apply logs_bind;
    [apply logs_readFile; cbn [permitted]; right; now apply below_root_is_under_public|].
  intros backgroundFile. destruct (sharp_metadata (file_bytes backgroundFile)) as [metadata|];
    [|apply logs_throw].
  destruct (JS.falsy metadata.1 || JS.falsy metadata.2); [apply logs_throw|].
  apply logs_bind.
  { apply (logs_logged _ _ (fun w => loop_events rt (fs w) (default 0%float metadata.1)
                                                (default 0%float metadata.2) items)).
    - intros w. now rewrite overlay_loop_run.
    - intros w. apply loop_events_permitted. }
  intros [overlays skipped]. apply logs_bind.
  { apply (logs_logged _ _ (fun _ => [EvComposite (length overlays)])).
    - intros w. now rewrite composite_run.
    - intros w. now repeat constructor. }
  intros snapshotBuffer. apply logs_bind; [now apply logs_writeFile|].
  intros _. apply logs_ret.
Qed.
End ReadFacts.

(** ** The session router *)

Module RouterFacts.
Import Router.

Section Facts.
Variable handle_live : string -> Request -> LiveReply.

Lemma unknown_session_lookup reg req :
  unknown_session reg req -> lookup_transport reg req = None.
Proof.
  unfold unknown_session, lookup_transport. destruct (mcp_session_id req) as [sid|]; [|reflexivity].
  intros [->| ->]; [reflexivity|]. now destruct (String.eqb sid "").
Qed.

Lemma lookup_transport_some reg req i :
  lookup_transport reg req = Some i -> is_Some (transports reg !! i).
Proof.
  unfold lookup_transport. destruct (mcp_session_id req) as [sid|]; [|discriminate].
  destruct (String.eqb sid ""); [discriminate|].
  destruct (transports reg !! sid) eqn:E; [|discriminate]. intros [= <-]. now rewrite E.
Qed.

(** A live transport's reply adds no session. *)
Lemma handle_existing_adds_none i req reg j :
  is_Some (transports (snd (handle_existing handle_live i req reg)) !! j) ->
  is_Some (transports reg !! j).
Proof.
  unfold handle_existing. destruct (handle_live i req); cbn; try tauto.
  destruct (decide (i = j)) as [->|Hne].
  - rewrite lookup_delete_eq. intros H. exact (False_ind _ (is_Some_None H)).
  - now rewrite lookup_delete_ne.
Qed.
End Facts.

End RouterFacts.

(** C9. A request that is not the handshake and names no session the
    registry knows is answered 400 and leaves the registry as it was; and
    a request after which the registry knows a session it did not know is
    the handshake of a client without a session. *)
Theorem only_the_handshake_opens_a_session
        (rt : Runtime) (handle_fresh : Router.Request -> Router.FreshReply)
        (handle_live : string -> Router.Request -> Router.LiveReply)
        (req : Router.Request) (reg : Router.Registry) :
  (unknown_session reg req ->
   is_initialization req = false ->
   exists message,
     Router.route rt handle_fresh handle_live req reg
     = (Some {| Router.status := 400; Router.body := message |}, reg))
  /\ (forall i,
        Router.transports reg !! i = None ->
        is_Some (Router.transports
                   (snd (Router.route rt handle_fresh handle_live req reg)) !! i) ->
        is_initialization req = true
        /\ Router.lookup_transport reg req = None).
Proof.
  split.
  - intros Hunknown Hinit. apply RouterFacts.unknown_session_lookup in Hunknown.
    unfold Router.route, Router.post, Router.get_or_delete, is_initialization in *.
    rewrite Hunknown. destruct (Router.method req); [|now eexists..].
    rewrite Hinit. now eexists.
  - intros i Hnew Hafter.
    assert (Hlive : forall j, Router.lookup_transport reg req = Some j ->
              is_Some (Router.transports
                         (snd (Router.handle_existing handle_live j req reg)) !! i) -> False).
    { intros j _ H. apply RouterFacts.handle_existing_adds_none in H.
      rewrite Hnew in H. exact (is_Some_None H). }
    unfold Router.route, Router.post, Router.get_or_delete, is_initialization in *.
    destruct (Router.lookup_transport reg req) as [j|] eqn:Hlookup.
    + exfalso. apply (Hlive j eq_refl).
      destruct (Router.method req); cbn in Hafter;
        destruct (Router.handle_existing handle_live j req reg) as [[res|] reg']; exact Hafter.
    + destruct (Router.method req); cbn in Hafter;
        try (rewrite Hnew in Hafter; exact (False_ind _ (is_Some_None Hafter))).
      destruct (Router.isInitializeRequest req); [now split|].
      cbn in Hafter. rewrite Hnew in Hafter. exact (False_ind _ (is_Some_None Hafter)).
Qed.

(** A call under a stale session id is turned away; the session the
    registry knows after the handshake was opened by the handshake. *)
Lemma only_the_handshake_opens_a_session_witness :
  (exists message,
     Router.route Host.runtime accepting serving stale_call no_sessions
     = (Some {| Router.status := 400; Router.body := message |}, no_sessions))
  /\ (is_initialization handshake = true
      /\ Router.lookup_transport no_sessions handshake = None).
Proof.
  split.
  - apply (proj1 (only_the_handshake_opens_a_session Host.runtime accepting serving
                    stale_call no_sessions)).
    + right. apply lookup_empty.
    + reflexivity.
  - apply (proj2 (only_the_handshake_opens_a_session Host.runtime accepting serving
                    handshake no_sessions) "uuid-0").
    + apply lookup_empty.
    + vm_compute. eexists. reflexivity.
Defined.

Example handshake_opens_a_session :
  let reg := snd (Router.route Host.runtime accepting serving handshake no_sessions) in
  Router.transports reg !! "uuid-0" = Some 1 /\ Router.servers reg !! "uuid-0" = Some 0.
Proof. split; vm_compute; reflexivity. Qed.

(** A GET or DELETE that names no live session is answered 400 too. *)
Example get_without_session_is_rejected :
  Router.route Host.runtime accepting serving
    {| Router.method := Router.GET; Router.mcp_session_id := None;
       Router.isInitializeRequest := true |} no_sessions
  = (Some {| Router.status := 400; Router.body := "No active MCP session." |}, no_sessions).
Proof. reflexivity. Qed.

(** ** Appends, one after the other and overlapping *)

Section TaskFacts.
Variable rt : Runtime.

Lemma stored_stored path f g w : stored path g (stored path f w) = stored path g w.
Proof. unfold stored. cbn. now rewrite insert_insert_eq. Qed.

Lemma stored_logged path f events w :
  stored path f (logged events w) = logged events (stored path f w).
Proof. reflexivity. Qed.

Lemma step_called item w :
  Tasks.step rt (Tasks.Called item) w
  = Some (Tasks.AtAccess (next_of rt item w), drawn_from w).
Proof. reflexivity. Qed.

Lemma step_access next w :
  Tasks.step rt (Tasks.AtAccess next) w
  = Some (match fs w !! DATA_FILE rt with
          | Some _ => Tasks.AtRead next
          | None => Tasks.AtCreate next
          end, w).
Proof. cbn [Tasks.step]. unfold access. now destruct (fs w !! DATA_FILE rt). Qed.

Lemma step_open next existing w :
  Tasks.step rt (Tasks.AtWrite next existing) w
  = Some (Tasks.Writing next existing,
          stored (DATA_FILE rt) (Binary (Bytes "")) (logged [EvWrite (DATA_FILE rt)] w)).
Proof. reflexivity. Qed.

Lemma step_create next w :
  Tasks.step rt (Tasks.AtCreate next) w
  = Some (Tasks.Creating next,
          stored (DATA_FILE rt) (Binary (Bytes "")) (logged [EvWrite (DATA_FILE rt)] w)).
Proof. reflexivity. Qed.

Lemma write_opened path g w :
  Tasks.write path g (stored path (Binary (Bytes "")) w) = Some (stored path g w).
Proof.
  unfold Tasks.write. cbn [fs stored]. rewrite lookup_insert_eq.
  unfold stored. cbn. now rewrite insert_insert_eq.
Qed.

Lemma step_read next w :
  Tasks.step rt (Tasks.AtRead next) w
  = Some (match fs w !! DATA_FILE rt with
          | Some (Json l) =>
              Tasks.AtWrite next (sort (by_createdAt rt) (map JSON_item l) ++ [next])
          | Some (Binary _) => Tasks.Settled (Throw SyntaxError)
          | None => Tasks.Settled (Throw ENOENT)
          end, logged [EvRead (DATA_FILE rt)] w).
Proof.
  cbn [Tasks.step]. unfold bind at 1. rewrite readFile_run.
  now destruct (fs w !! DATA_FILE rt) as [[l|b]|].
Qed.

Lemma step_settled r w : Tasks.step rt (Tasks.Settled r) w = Some (Tasks.Settled r, w).
Proof. reflexivity. Qed.

(** A write that nothing interrupts: the two stretches of [fs.writeFile]
    leave what [writeFile] leaves. *)
Lemma open_then_write next existing w :
  stretches rt 2 (Tasks.AtWrite next existing) w
  = Some (Tasks.Settled (Return next),
          stored (DATA_FILE rt) (Json existing) (logged [EvWrite (DATA_FILE rt)] w)).
Proof.
  cbn [stretches]. rewrite step_open. cbn [Tasks.step].
  now rewrite write_opened.
Qed.

Lemma create_then_write next w :
  stretches rt 2 (Tasks.AtCreate next) w
  = Some (Tasks.AtRead next,
          stored (DATA_FILE rt) (Json []) (logged [EvWrite (DATA_FILE rt)] w)).
Proof.
  cbn [stretches]. rewrite step_create. cbn [Tasks.step].
  now rewrite write_opened.
Qed.

Lemma stretches_add m n t w :
  stretches rt (m + n) t w
  = match stretches rt m t w with
    | Some (t', w') => stretches rt n t' w'
    | None => None
    end.
Proof.
  revert t w. induction m as [|m IH]; intros t w; [reflexivity|].
  cbn [Nat.add stretches]. destruct (Tasks.step rt t w) as [[t' w']|]; [apply IH | reflexivity].
Qed.

Lemma stretches_settled n r w :
  stretches rt n (Tasks.Settled r) w = Some (Tasks.Settled r, w).
Proof. induction n as [|n IH]; [reflexivity|]. cbn [stretches Tasks.step]. exact IH. Qed.

Lemma addGraffiti_unfold item w :
  addGraffiti rt item w
  = match getGraffiti rt (drawn_from w) with
    | (Return existing, w') =>
        (Return (next_of rt item w),
         stored (DATA_FILE rt) (Json (existing ++ [next_of rt item w]))
                (logged [EvWrite (DATA_FILE rt)] w'))
    | (Throw e, w') => (Throw e, w')
    end.
Proof.
  unfold addGraffiti, bind at 1. rewrite make_next_run. fold (drawn_from w) (next_of rt item w).
  unfold bind at 1. destruct (getGraffiti rt (drawn_from w)) as [[existing|e] w']; reflexivity.
Qed.

Lemma called_then_access item w :
  stretches rt 2 (Tasks.Called item) w
  = Some (match fs (drawn_from w) !! DATA_FILE rt with
          | Some _ => Tasks.AtRead (next_of rt item w)
          | None => Tasks.AtCreate (next_of rt item w)
          end, drawn_from w).
Proof. cbn [stretches]. now rewrite step_called, step_access. Qed.

Lemma one_stretch t w :
  stretches rt 1 t w = Tasks.step rt t w.
Proof. cbn [stretches]. now destruct (Tasks.step rt t w) as [[t' w']|]. Qed.

(** Run without interruption, a task is a call of [addGraffiti]. *)
Lemma whole_call_is_addGraffiti item w :
  whole_call rt (Tasks.Called item) w
  = Some (Tasks.Settled (fst (addGraffiti rt item w)), snd (addGraffiti rt item w)).
Proof.
  change (whole_call rt (Tasks.Called item) w)
    with (stretches rt (2 + 5) (Tasks.Called item) w).
  rewrite addGraffiti_unfold, stretches_add, called_then_access.
  destruct (fs (drawn_from w) !! DATA_FILE rt) as [[l|b]|] eqn:E.
  - change (stretches rt 5) with (stretches rt (1 + (2 + 2))).
    rewrite stretches_add, one_stretch, step_read, E.
    rewrite stretches_add, open_then_write, stretches_settled.
    now rewrite (getGraffiti_json rt _ l E).
  - change (stretches rt 5) with (stretches rt (1 + 4)).
    rewrite stretches_add, one_stretch, step_read, E, stretches_settled.
    now rewrite (getGraffiti_binary rt _ b E).
  - change (stretches rt 5) with (stretches rt (2 + (1 + 2))).
    rewrite stretches_add, create_then_write.
    rewrite stretches_add, one_stretch, step_read. cbn [fs stored logged].
    rewrite lookup_insert_eq, open_then_write. cbn [map sort].
    now rewrite (getGraffiti_absent rt _ E).
Qed.

Lemma step_at_middle before t after w :
  Tasks.step_at rt (length before) (before ++ t :: after) w
  = match Tasks.step rt t w with
    | Some (t', w') => Some (before ++ t' :: after, w')
    | None => None
    end.
Proof.
  unfold Tasks.step_at. rewrite list_lookup_middle by reflexivity.
  destruct (Tasks.step rt t w) as [[t' w']|]; [|reflexivity].
  rewrite insert_app_r_alt by lia. now rewrite Nat.sub_diag.
Qed.

Lemma run_app s1 s2 tasks w :
  Tasks.run rt (s1 ++ s2) tasks w
  = match Tasks.run rt s1 tasks w with
    | Some (tasks', w') => Tasks.run rt s2 tasks' w'
    | None => None
    end.
Proof.
  revert tasks w. induction s1 as [|i s1 IH]; intros tasks w; [reflexivity|].
  cbn [app Tasks.run]. destruct (Tasks.step_at rt i tasks w) as [[tasks' w']|];
    [apply IH | reflexivity].
Qed.

Lemma run_stretches n before t after w :
  Tasks.run rt (repeat (length before) n) (before ++ t :: after) w
  = match stretches rt n t w with
    | Some (t', w') => Some (before ++ t' :: after, w')
    | None => None
    end.
Proof.
  revert t w. induction n as [|n IH]; intros t w; [reflexivity|].
  cbn [repeat Tasks.run stretches]. rewrite step_at_middle.
  destruct (Tasks.step rt t w) as [[t' w']|]; [apply IH | reflexivity].
Qed.

Lemma run_one_by_one items settled_before w :
  Tasks.run rt (flat_map (fun i => repeat i 7) (seq (length settled_before) (length items)))
            (settled_before ++ map Tasks.Called items) w
  = Some (settled_before ++ map Tasks.Settled (fst (append_all rt items w)),
          snd (append_all rt items w)).
Proof.
  revert settled_before w. induction items as [|item items IH]; intros settled_before w.
  - reflexivity.
  - cbn [length seq flat_map map append_all]. rewrite run_app, run_stretches.
    fold (whole_call rt (Tasks.Called item) w). rewrite whole_call_is_addGraffiti.
    destruct (addGraffiti rt item w) as [r w1]. cbn [fst snd].
    specialize (IH (settled_before ++ [Tasks.Settled r]) w1).
    rewrite length_app, Nat.add_1_r, <- app_assoc in IH. cbn [app] in IH. rewrite IH.
    destruct (append_all rt items w1) as [rs w2]. cbn [fst snd map].
    now rewrite <- app_assoc.
Qed.

Lemma id_with_id_createdAt item i c : id (with_id_createdAt item i c) = i.
Proof. now destruct item. Qed.

(** Calls made one after the other on a store that lists all return, and
    the store then lists the ids it listed and the ids drawn. *)
Lemma append_all_lists items w prior :
  fst (getGraffiti rt w) = Return prior ->
  exists listed,
    fst (getGraffiti rt (snd (append_all rt items w))) = Return listed
    /\ Permutation (map id listed)
                   (map id prior ++ map (randomUUID rt) (seq (uuids w) (length items)))
    /\ Forall (fun r => exists next, r = Return next) (fst (append_all rt items w)).
Proof.
  revert w prior. induction items as [|item items IH]; intros w prior Hprior.
  - exists prior. cbn [append_all fst snd length seq map]. rewrite app_nil_r.
    split; [exact Hprior|]. split; [reflexivity | constructor].
  - cbn [append_all length seq map].
    destruct (addGraffiti_run rt item w prior Hprior) as (w1 & Hadd & Hfile & Hu & _).
    rewrite Hadd.
    set (next := with_id_createdAt item (randomUUID rt (uuids w)) (toISOString rt (ticks w)))
      in *.
    assert (Hlisted : fst (getGraffiti rt w1)
                      = Return (sort (by_createdAt rt) (map JSON_item (prior ++ [next]))))
      by now rewrite (getGraffiti_json rt w1 _ Hfile).
    destruct (IH w1 _ Hlisted) as (listed & Hl & Hperm & Hall).
    destruct (append_all rt items w1) as [rs w2]. cbn [fst snd] in *.
    exists listed. split; [exact Hl|]. split; [|constructor; [now eexists | exact Hall]].
    rewrite Hperm, Hu.
    pose proof (sort_perm (by_createdAt rt) (map JSON_item (prior ++ [next]))) as Hs.
    apply (Permutation_map id) in Hs. rewrite Hs, ids_JSON_items.
    rewrite map_app. cbn [map]. unfold next. rewrite id_with_id_createdAt, <- app_assoc.
    reflexivity.
Qed.

(** After calls made one after the other, where the collation is an
    order, the store lists the stable sort of what it listed followed by
    the new records, as JSON keeps them, in the order of the calls:
    records with one [createdAt] are listed in the order in which they
    were appended. *)
Lemma append_all_listing items w prior :
  collation_is_an_order rt ->
  fst (getGraffiti rt w) = Return prior ->
  fst (append_all rt items w) = map Return (records rt items (uuids w) (ticks w))
  /\ fst (getGraffiti rt (snd (append_all rt items w)))
     = Return (sort (by_createdAt rt)
                    (prior ++ map JSON_item (records rt items (uuids w) (ticks w)))).
Proof.
  intros Hc. revert w prior. induction items as [|item items IH]; intros w prior Hprior.
  - cbn [append_all records fst snd map]. rewrite app_nil_r. split; [reflexivity|].
    now rewrite (listing_is_sorted rt w prior Hc Hprior).
  - cbn [append_all records].
    destruct (addGraffiti_run rt item w prior Hprior) as (w1 & Hadd & Hfile & Hu & Ht & _).
    rewrite Hadd.
    set (next := with_id_createdAt item (randomUUID rt (uuids w)) (toISOString rt (ticks w)))
      in *.
    assert (Hlisted : fst (getGraffiti rt w1)
                      = Return (sort (by_createdAt rt) (prior ++ [JSON_item next]))).
    { rewrite (getGraffiti_json rt w1 _ Hfile), map_app.
      now rewrite (listing_is_json rt w prior Hprior). }
    destruct (IH w1 _ Hlisted) as [Hrs Hl]. rewrite Hu, Ht in Hrs, Hl.
    destruct (append_all rt items w1) as [rs w2]. cbn [fst snd map] in *.
    split; [now rewrite Hrs|]. rewrite Hl.
    rewrite (sort_sorted_prefix (by_createdAt rt)
               (fun a b => by_createdAt_total rt a b Hc)
               (fun a b c => by_createdAt_trans rt a b c Hc)).
    now rewrite <- app_assoc.
Qed.
End TaskFacts.

(** C1, as the code has it.  The store has no lock and no queue: what it
    guarantees is for calls that do not overlap.  Made one after the
    other on a store that lists nothing, N calls all return and the store
    then lists N items, under the ids that were drawn: distinct ids if
    the ids drawn are distinct. *)
Theorem appends_one_after_the_other_are_all_kept
        (rt : Runtime) (items : list NewGraffitiItem) (w : World) :
  fst (getGraffiti rt w) = Return [] ->
  exists tasks w' listed,
    Tasks.run rt (Tasks.one_by_one (length items)) (map Tasks.Called items) w
    = Some (tasks, w')
    /\ forallb Tasks.settled tasks = true
    /\ fst (getGraffiti rt w') = Return listed
    /\ length listed = length items
    /\ Permutation (map id listed) (map (randomUUID rt) (seq (uuids w) (length items)))
    /\ (List.NoDup (map (randomUUID rt) (seq (uuids w) (length items))) ->
        List.NoDup (map id listed)).
Proof.
  intros Hempty.
  pose proof (run_one_by_one rt items [] w) as Hrun. cbn [length app] in Hrun.
  destruct (append_all_lists rt items w [] Hempty) as (listed & Hl & Hperm & Hall).
  cbn [map app] in Hperm.
  exists (map Tasks.Settled (fst (append_all rt items w))), (snd (append_all rt items w)), listed.
  split; [exact Hrun|]. split; [|split; [exact Hl|split; [|split; [exact Hperm|]]]].
  - apply forallb_forall. intros t Ht. apply in_map_iff in Ht as (r & <- & Hr).
    rewrite List.Forall_forall in Hall. destruct (Hall r Hr) as [next ->]. reflexivity.
  - apply Permutation_length in Hperm. now rewrite !length_map, length_seq in Hperm.
  - intros Hids. eapply Permutation_NoDup; [symmetry; exact Hperm | exact Hids].
Qed.

Lemma appends_one_after_the_other_are_all_kept_witness :
  exists tasks w' listed,
    Tasks.run Host.runtime (Tasks.one_by_one 3)
              (map Tasks.Called [Host.new_tag; Host.new_tag; Host.new_tag]) (Host.world [])
    = Some (tasks, w')
    /\ forallb Tasks.settled tasks = true
    /\ fst (getGraffiti Host.runtime w') = Return listed
    /\ length listed = 3
    /\ Permutation (map id listed) (map (randomUUID Host.runtime) (seq 0 3))
    /\ (List.NoDup (map (randomUUID Host.runtime) (seq 0 3)) -> List.NoDup (map id listed)).
Proof.
  apply (appends_one_after_the_other_are_all_kept Host.runtime
           [Host.new_tag; Host.new_tag; Host.new_tag] (Host.world [])).
  vm_compute. reflexivity.
Defined.

(** The ids the host draws are distinct. *)
Example host_ids_are_distinct : List.NoDup (map (randomUUID Host.runtime) (seq 0 3)).
Proof. vm_compute. repeat constructor; cbn; intuition discriminate. Qed.

(** C1 as stated fails: two calls that both read the empty store before
    either writes leave one item. *)
Lemma overlapping_appends_lose_one :
  ~ every_schedule_keeps_every_append Host.runtime [Host.new_tag; Host.new_tag]
      (Host.world [Host.store []]).
Proof.
  intros H.
  destruct (Tasks.run Host.runtime [0; 1; 0; 1; 0; 1; 0; 0; 1; 1]
              (map Tasks.Called [Host.new_tag; Host.new_tag]) (Host.world [Host.store []]))
    as [[tasks w']|] eqn:E; [|vm_compute in E; discriminate E].
  destruct (H _ tasks w' E) as (listed & Hl & Hlen & _).
  - vm_compute in E. injection E as <- _. reflexivity.
  - vm_compute in E. injection E as _ <-. vm_compute in Hl. injection Hl as <-.
    discriminate Hlen.
Qed.

(** The same two calls on a store whose file does not exist yet: the
    second call's creation of the file erases the first call's item. *)
Example late_creation_erases_an_append :
  exists tasks w',
    Tasks.run Host.runtime [0; 1; 0; 1; 0; 0; 0; 0; 0; 1; 1; 1; 1; 1]
              [Tasks.Called Host.new_tag; Tasks.Called Host.new_tag] (Host.world [])
    = Some (tasks, w')
    /\ forallb Tasks.settled tasks = true
    /\ fst (getGraffiti Host.runtime w')
       = Return [Host.tag "uuid-1" "2024-01-01T00:00:00.001Z"].
Proof. vm_compute. do 2 eexists. repeat split. Qed.

(** * Further facts *)

(** ** [escapeXml] *)

Lemma replaceAll_app c by_ a b :
  replaceAll c by_ (a +:+ b) = replaceAll c by_ a +:+ replaceAll c by_ b.
Proof.
  induction a as [|ch a IH]; [reflexivity|]. rewrite append_cons. cbn [replaceAll].
  rewrite IH. destruct (Ascii.eqb ch c); [now rewrite append_assoc | reflexivity].
Qed.

Lemma has_char_app c a b : has_char c (a +:+ b) = has_char c a || has_char c b.
Proof.
  induction a as [|ch a IH]; [reflexivity|]. rewrite append_cons. cbn [has_char].
  now rewrite IH, orb_assoc.
Qed.

Lemma escapeXml_cons c rest : escapeXml (String c rest) = escape_char c +:+ escapeXml rest.
Proof.
  unfold escapeXml, escape_char. cbn [replaceAll].
  destruct (Ascii.eqb_spec c "&") as [->|H1]; [now rewrite !replaceAll_app|].
  cbn [replaceAll]. destruct (Ascii.eqb_spec c "<") as [->|H2]; [now rewrite !replaceAll_app|].
  cbn [replaceAll]. destruct (Ascii.eqb_spec c ">") as [->|H3]; [now rewrite !replaceAll_app|].
  cbn [replaceAll]. destruct (Ascii.eqb_spec c quot) as [->|H4]; [now rewrite !replaceAll_app|].
  cbn [replaceAll]. destruct (Ascii.eqb_spec c apos) as [->|H5]; reflexivity.
Qed.

(** X1. The five chained [replaceAll] are one pass that writes each of
    the ampersand, the two angle brackets and the two quotes as its entity
    and copies every other character. *)
Theorem escapeXml_is_one_pass (value : string) : escapeXml value = escape_each value.
Proof.
  induction value as [|c rest IH]; [reflexivity|].
  rewrite escapeXml_cons, IH. reflexivity.
Qed.

Lemma escape_char_clean c d :
  d = "<"%char \/ d = ">"%char \/ d = quot \/ d = apos ->
  has_char d (escape_char c) = false.
Proof.
  intros Hd. unfold escape_char.
  destruct (Ascii.eqb_spec c "&"); [destruct Hd as [->|[->|[->| ->]]]; reflexivity|].
  destruct (Ascii.eqb_spec c "<"); [destruct Hd as [->|[->|[->| ->]]]; reflexivity|].
  destruct (Ascii.eqb_spec c ">"); [destruct Hd as [->|[->|[->| ->]]]; reflexivity|].
  destruct (Ascii.eqb_spec c quot); [destruct Hd as [->|[->|[->| ->]]]; reflexivity|].
  destruct (Ascii.eqb_spec c apos); [destruct Hd as [->|[->|[->| ->]]]; reflexivity|].
  cbn [has_char]. rewrite orb_false_r. apply Ascii.eqb_neq.
  destruct Hd as [->|[->|[->| ->]]]; assumption.
Qed.

(** X2. What [escapeXml] returns holds no angle bracket and no quote. *)
Theorem escapeXml_leaves_no_markup (value : string) (d : ascii) :
  d = "<"%char \/ d = ">"%char \/ d = quot \/ d = apos ->
  has_char d (escapeXml value) = false.
Proof.
  intros Hd. rewrite escapeXml_is_one_pass.
  induction value as [|c rest IH]; [reflexivity|]. cbn [escape_each].
  now rewrite has_char_app, escape_char_clean, IH.
Qed.

Lemma escapeXml_leaves_no_markup_witness :
  has_char "<" (escapeXml "<b>Tom & Jerry's</b>") = false.
Proof. apply (escapeXml_leaves_no_markup "<b>Tom & Jerry's</b>" "<"). left. reflexivity. Defined.

Lemma escape_char_cons c : exists a tl, escape_char c = String a tl.
Proof.
  unfold escape_char.
  repeat (match goal with |- context [Ascii.eqb c ?x] => destruct (Ascii.eqb c x) end);
    now eexists _, _.
Qed.

Lemma escape_char_inj c d a b :
  escape_char c +:+ a = escape_char d +:+ b -> c = d /\ a = b.
Proof.
  unfold escape_char.
  destruct (Ascii.eqb_spec c "&") as [->|]; destruct (Ascii.eqb_spec d "&") as [->|];
  try (destruct (Ascii.eqb_spec c "<") as [->|]); try (destruct (Ascii.eqb_spec d "<") as [->|]);
  try (destruct (Ascii.eqb_spec c ">") as [->|]); try (destruct (Ascii.eqb_spec d ">") as [->|]);
  try (destruct (Ascii.eqb_spec c quot) as [->|]);
  try (destruct (Ascii.eqb_spec d quot) as [->|]);
  try (destruct (Ascii.eqb_spec c apos) as [->|]);
  try (destruct (Ascii.eqb_spec d apos) as [->|]);
  unfold quot, apos in *; intros H;
  try (apply append_inv_head in H; now split);
  try solve [exfalso; repeat (first [discriminate H | injection H as H])].
  all: try solve [injection H as -> H; now split].
  all: try solve [injection H as H _; congruence].
Qed.

(** X3. [escapeXml] loses nothing: two texts with one escaped form are one
    text. *)
Theorem escapeXml_is_injective (a b : string) : escapeXml a = escapeXml b -> a = b.
Proof.
  rewrite !escapeXml_is_one_pass. revert b. induction a as [|c a IH]; intros [|d b] H.
  - reflexivity.
  - exfalso. cbn [escape_each] in H. destruct (escape_char_cons d) as (x & tl & E).
    rewrite E in H. discriminate H.
  - exfalso. cbn [escape_each] in H. destruct (escape_char_cons c) as (x & tl & E).
    rewrite E in H. discriminate H.
  - cbn [escape_each] in H. apply escape_char_inj in H as [-> H]. f_equal. now apply IH.
Qed.

Lemma escapeXml_is_injective_witness : "a<b" = "a<b".
Proof. apply (escapeXml_is_injective "a<b" "a<b"). reflexivity. Defined.

(** ** The store on its edges *)

Lemma createdAt_with_id_createdAt item i c : createdAt (with_id_createdAt item i c) = c.
Proof. now destruct item. Qed.

Lemma StronglySorted_map {A B} (f : A -> B) (R : B -> B -> Prop) (l : list A) :
  StronglySorted R (map f l) -> StronglySorted (fun a b => R (f a) (f b)) l.
Proof.
  induction l as [|a l IH]; [constructor|]. cbn [map]. intros H.
  apply StronglySorted_inv in H as [Hs Ha]. constructor; [now apply IH|].
  rewrite List.Forall_forall in *. intros b Hb. apply Ha. now apply in_map.
Qed.

Lemma StronglySorted_app_l {A} (R : A -> A -> Prop) (l1 l2 : list A) :
  StronglySorted R (l1 ++ l2) -> StronglySorted R l1.
Proof.
  induction l1 as [|a l1 IH]; [constructor|]. cbn [app]. intros H.
  apply StronglySorted_inv in H as [Hs Ha]. constructor; [now apply IH|].
  now apply Forall_app in Ha as [Ha _].
Qed.

Section StoreEdges.
Variable rt : Runtime.

Lemma createdAt_records items u t :
  map createdAt (records rt items u t) = map (toISOString rt) (seq t (length items)).
Proof.
  revert u t. induction items as [|item items IH]; intros u t; [reflexivity|].
  cbn [records map length seq]. now rewrite createdAt_with_id_createdAt, IH.
Qed.

(** X4. Where the store file does not exist the listing is empty, and the
    listing has created the file, holding the empty list, before reading
    it; no other file is touched. *)
Theorem first_listing_creates_an_empty_store (w : World) :
  fs w !! DATA_FILE rt = None ->
  exists w',
    getGraffiti rt w = (Return [], w')
    /\ fs w' = <[DATA_FILE rt := Json []]> (fs w)
    /\ trace w' = trace w ++ [EvWrite (DATA_FILE rt); EvRead (DATA_FILE rt)].
Proof.
  intros H. rewrite (getGraffiti_absent rt w H). eexists. split; [reflexivity|].
  cbn. split; [reflexivity|]. now rewrite <- app_assoc.
Qed.

Lemma listing_keeps_an_existing_store (w : World) (f : File) :
  fs w !! DATA_FILE rt = Some f -> fs (snd (getGraffiti rt w)) = fs w.
Proof.
  intros H. destruct f as [items|b].
  - now rewrite (getGraffiti_json rt w items H).
  - now rewrite (getGraffiti_binary rt w b H).
Qed.

(** Listing a store whose file exists reads that file and writes
    nothing, whether or not the file parses. *)
Theorem listing_an_existing_store_writes_nothing (w : World) (f : File) :
  fs w !! DATA_FILE rt = Some f ->
  snd (getGraffiti rt w) = logged [EvRead (DATA_FILE rt)] w.
Proof.
  intros H. destruct f as [items|b].
  - now rewrite (getGraffiti_json rt w items H).
  - now rewrite (getGraffiti_binary rt w b H).
Qed.

(** X5. A store file that is no JSON makes both the listing and the append
    throw the parser's error, and neither of them replaces the file: the
    append fails before its write. *)
Theorem unparsable_store_fails_and_is_kept (w : World) (b : Buffer) (item : NewGraffitiItem) :
  fs w !! DATA_FILE rt = Some (Binary b) ->
  fst (getGraffiti rt w) = Throw SyntaxError
  /\ fs (snd (getGraffiti rt w)) = fs w
  /\ fst (addGraffiti rt item w) = Throw SyntaxError
  /\ fs (snd (addGraffiti rt item w)) = fs w.
Proof.
  intros H. rewrite (getGraffiti_binary rt w b H). cbn [fst snd logged fs].
  split; [reflexivity|]. split; [reflexivity|].
  assert (E : addGraffiti rt item w
              = (Throw SyntaxError, logged [EvRead (DATA_FILE rt)] (drawn_from w))).
  { unfold addGraffiti, bind at 1. rewrite make_next_run.
    unfold bind at 1. now rewrite getGraffiti_binary with (b := b) by exact H. }
  rewrite E. split; reflexivity.
Qed.

(** X6. A listing that returns can be repeated: the second listing returns
    the same items and changes no file. *)
Theorem listing_again_lists_the_same (w : World) (items : list GraffitiItem) (w1 : World) :
  getGraffiti rt w = (Return items, w1) ->
  getGraffiti rt w1 = (Return items, logged [EvRead (DATA_FILE rt)] w1).
Proof.
  intros H. destruct (getGraffiti_returns rt _ _ _ H) as (l & Hl & -> & _).
  now rewrite (getGraffiti_json rt w1 l Hl).
Qed.

(** X7. An append on a readable store returns the item under the id and
    the time it drew, and replaces the store file by the listing with
    that record pushed last; every other file is as it was. *)
Theorem append_rewrites_the_store_file_only
        (item : NewGraffitiItem) (w : World) (prior : list GraffitiItem) :
  fst (getGraffiti rt w) = Return prior ->
  exists next w',
    addGraffiti rt item w = (Return next, w')
    /\ next = with_id_createdAt item (randomUUID rt (uuids w)) (toISOString rt (ticks w))
    /\ fs w' = <[DATA_FILE rt := Json (prior ++ [next])]> (fs w).
Proof.
  intros H. destruct (addGraffiti_run rt item w prior H) as (w' & Hrun & Hfile & _ & _ & Hp).
  do 2 eexists. split; [exact Hrun|]. split; [reflexivity|].
  apply map_eq. intros p. destruct (decide (p = DATA_FILE rt)) as [->|Hne].
  - now rewrite lookup_insert_eq.
  - rewrite lookup_insert_ne by congruence. now apply Hp.
Qed.

(** X8. Where the host collates the readings of the clock in ascending
    order, and no listed item after them, appends made one after the
    other are listed behind what was listed, in the order of the calls
    and as JSON keeps them. *)
Theorem appends_are_listed_in_call_order
        (items : list NewGraffitiItem) (w : World) (prior : list GraffitiItem) :
  fst (getGraffiti rt w) = Return prior ->
  StronglySorted (fun a b => (localeCompare rt a b <= 0)%Z)
                 (map createdAt prior
                  ++ map (toISOString rt) (seq (ticks w) (length items))) ->
  fst (getGraffiti rt (snd (append_all rt items w)))
  = Return (prior ++ map JSON_item (records rt items (uuids w) (ticks w))).
Proof.
  revert w prior. induction items as [|item items IH]; intros w prior Hprior Hsorted.
  - cbn [append_all records map snd]. now rewrite app_nil_r.
  - cbn [append_all records map].
    destruct (addGraffiti_run rt item w prior Hprior) as (w1 & Hadd & Hfile & Hu & Ht & _).
    rewrite Hadd.
    set (next := with_id_createdAt item (randomUUID rt (uuids w)) (toISOString rt (ticks w)))
      in *.
    cbn [length seq map] in Hsorted.
    assert (Hsorted' : StronglySorted (fun a b => (localeCompare rt a b <= 0)%Z)
                         (map createdAt (prior ++ [JSON_item next])
                          ++ map (toISOString rt) (seq (S (ticks w)) (length items)))).
    { rewrite map_app, <- app_assoc. cbn [map app]. rewrite createdAt_JSON_item.
      unfold next. now rewrite createdAt_with_id_createdAt. }
    assert (Hlisted : fst (getGraffiti rt w1) = Return (prior ++ [JSON_item next])).
    { rewrite (getGraffiti_json rt w1 _ Hfile), map_app.
      rewrite (listing_is_json rt w prior Hprior). cbn [map fst]. f_equal.
      apply (sort_of_sorted (by_createdAt rt)). unfold by_createdAt.
      apply (StronglySorted_map createdAt (fun a b => (localeCompare rt a b <= 0)%Z)).
      exact (StronglySorted_app_l _ _ _ Hsorted'). }
    rewrite <- Ht in Hsorted'. specialize (IH w1 _ Hlisted Hsorted').
    rewrite Hu, Ht in IH. destruct (append_all rt items w1) as [rs w2]. cbn [fst snd] in *.
    rewrite IH, <- app_assoc. reflexivity.
Qed.

End StoreEdges.

Lemma first_listing_creates_an_empty_store_witness :
  exists w',
    getGraffiti Host.runtime (Host.world [Host.background]) = (Return [], w')
    /\ fs w' = <[DATA_FILE Host.runtime := Json []]> (fs (Host.world [Host.background]))
    /\ trace w' = trace (Host.world [Host.background])
                  ++ [EvWrite (DATA_FILE Host.runtime); EvRead (DATA_FILE Host.runtime)].
Proof.
  apply (first_listing_creates_an_empty_store Host.runtime (Host.world [Host.background])).
  vm_compute. reflexivity.
Defined.

Lemma listing_an_existing_store_writes_nothing_witness :
  snd (getGraffiti Host.runtime
         (Host.world [Host.store [Host.tag "a" "2023-05-01T10:00:00.000Z"]]))
  = logged [EvRead (DATA_FILE Host.runtime)]
           (Host.world [Host.store [Host.tag "a" "2023-05-01T10:00:00.000Z"]]).
Proof.
  apply (listing_an_existing_store_writes_nothing Host.runtime
           (Host.world [Host.store [Host.tag "a" "2023-05-01T10:00:00.000Z"]])
           (Json [Host.tag "a" "2023-05-01T10:00:00.000Z"])).
  vm_compute. reflexivity.
Defined.

Lemma unparsable_store_fails_and_is_kept_witness :
  fst (getGraffiti Host.runtime torn_store) = Throw SyntaxError
  /\ fs (snd (getGraffiti Host.runtime torn_store)) = fs torn_store
  /\ fst (addGraffiti Host.runtime Host.new_tag torn_store) = Throw SyntaxError
  /\ fs (snd (addGraffiti Host.runtime Host.new_tag torn_store)) = fs torn_store.
Proof.
  apply (unparsable_store_fails_and_is_kept Host.runtime torn_store (Bytes "[{")).
  vm_compute. reflexivity.
Defined.

Lemma listing_again_lists_the_same_witness :
  getGraffiti Host.runtime
    (logged [EvRead (DATA_FILE Host.runtime)]
       (Host.world [Host.store [Host.tag "a" "2023-05-01T10:00:00.000Z"]]))
  = (Return [Host.tag "a" "2023-05-01T10:00:00.000Z"],
     logged [EvRead (DATA_FILE Host.runtime)]
       (logged [EvRead (DATA_FILE Host.runtime)]
          (Host.world [Host.store [Host.tag "a" "2023-05-01T10:00:00.000Z"]]))).
Proof.
  apply (listing_again_lists_the_same Host.runtime
           (Host.world [Host.store [Host.tag "a" "2023-05-01T10:00:00.000Z"]])).
  vm_compute. reflexivity.
Defined.

Lemma append_rewrites_the_store_file_only_witness :
  exists next w',
    addGraffiti Host.runtime Host.new_tag
      (Host.world [Host.store [Host.tag "a" "2023-05-01T10:00:00.000Z"]; Host.background])
    = (Return next, w')
    /\ next = with_id_createdAt Host.new_tag "uuid-0" "2024-01-01T00:00:00.000Z"
    /\ fs w' = <[DATA_FILE Host.runtime
                 := Json ([Host.tag "a" "2023-05-01T10:00:00.000Z"] ++ [next])]>
               (fs (Host.world [Host.store [Host.tag "a" "2023-05-01T10:00:00.000Z"];
                                Host.background])).
Proof.
  apply (append_rewrites_the_store_file_only Host.runtime Host.new_tag
           (Host.world [Host.store [Host.tag "a" "2023-05-01T10:00:00.000Z"];
                        Host.background])
           [Host.tag "a" "2023-05-01T10:00:00.000Z"]).
  vm_compute. reflexivity.
Defined.

Lemma appends_are_listed_in_call_order_witness :
  fst (getGraffiti Host.runtime
         (snd (append_all Host.runtime [Host.new_tag; Host.new_tag]
                 (Host.world [Host.store [Host.tag "a" "2023-05-01T10:00:00.000Z"]]))))
  = Return ([Host.tag "a" "2023-05-01T10:00:00.000Z"]
            ++ map JSON_item (records Host.runtime [Host.new_tag; Host.new_tag] 0 0)).
Proof.
  apply (appends_are_listed_in_call_order Host.runtime [Host.new_tag; Host.new_tag]
           (Host.world [Host.store [Host.tag "a" "2023-05-01T10:00:00.000Z"]])
           [Host.tag "a" "2023-05-01T10:00:00.000Z"]).
  - vm_compute. reflexivity.
  - repeat constructor; apply Z.leb_le; vm_compute; reflexivity.
Defined.

(** ** Data URLs *)

Lemma drop_prefix_app p r : drop_prefix p (p +:+ r) = Some r.
Proof.
  induction p as [|c p IH]; [now destruct r|].
  rewrite append_cons. cbn [drop_prefix]. now rewrite Ascii.eqb_refl.
Qed.

Lemma drop_prefix_some p s r : drop_prefix p s = Some r -> s = p +:+ r.
Proof.
  revert s. induction p as [|c p IH]; intros s H.
  - destruct s; cbn in H; now injection H as <-.
  - destruct s as [|d s]; [discriminate H|]. cbn [drop_prefix] in H.
    destruct (Ascii.eqb_spec c d) as [<-|]; [|discriminate H].
    rewrite append_cons. f_equal. now apply IH.
Qed.

Lemma span_spec cls s run tl :
  span cls s = (run, tl) ->
  s = run +:+ tl /\ every_char cls run = true
  /\ (tl = "" \/ exists c t, tl = String c t /\ cls c = false).
Proof.
  revert run tl. induction s as [|c s IH]; intros run tl H; cbn [span] in H.
  - injection H as <- <-. repeat split. now left.
  - destruct (cls c) eqn:E.
    + destruct (span cls s) as [run' tl']. injection H as <- <-.
      destruct (IH _ _ eq_refl) as (-> & Hrun & Htl).
      repeat split; [cbn [every_char]; now rewrite E | exact Htl].
    + injection H as <- <-. repeat split. right. now exists c, s.
Qed.

Lemma span_app cls run tl :
  every_char cls run = true ->
  tl = "" \/ (exists c t, tl = String c t /\ cls c = false) ->
  span cls (run +:+ tl) = (run, tl).
Proof.
  intros Hrun Htl. induction run as [|c run IH].
  - rewrite append_nil_l. destruct Htl as [->|(c & t & -> & Hc)]; [reflexivity|].
    cbn [span]. now rewrite Hc.
  - cbn [every_char] in Hrun. apply andb_true_iff in Hrun as [Hc Hrun].
    rewrite append_cons. cbn [span]. now rewrite Hc, (IH Hrun).
Qed.

Lemma eqb_empty_false s : String.eqb s "" = false <-> s <> "".
Proof. destruct s; cbn; split; intros; congruence. Qed.

Lemma match_data_url_some cls s run payload :
  match_data_url cls s = Some (run, payload) ->
  s = data_url run payload
  /\ run <> "" /\ every_char cls run = true
  /\ payload <> "" /\ has_line_terminator payload = false.
Proof.
  unfold match_data_url, data_url.
  destruct (drop_prefix "data:image/" s) as [rest|] eqn:E1; [|discriminate].
  apply drop_prefix_some in E1 as ->.
  destruct (span cls rest) as [r tl] eqn:E2.
  apply span_spec in E2 as (-> & Hr & _).
  destruct (String.eqb r "") eqn:E3; [discriminate|].
  destruct (drop_prefix ";base64," tl) as [p|] eqn:E4; [|discriminate].
  apply drop_prefix_some in E4 as ->.
  destruct (String.eqb p "" || has_line_terminator p) eqn:E5; [discriminate|].
  intros H. injection H as <- <-. apply orb_false_iff in E5 as [E5 E6].
  apply eqb_empty_false in E3, E5. now repeat split.
Qed.

Lemma match_data_url_data_url cls run payload :
  cls ";"%char = false ->
  run <> "" -> every_char cls run = true ->
  payload <> "" -> has_line_terminator payload = false ->
  match_data_url cls (data_url run payload) = Some (run, payload).
Proof.
  intros Hsemi Hne Hrun Hp Hlt. unfold match_data_url, data_url. rewrite drop_prefix_app.
  rewrite (span_app cls run (";base64," +:+ payload) Hrun).
  - apply eqb_empty_false in Hne, Hp. rewrite Hne, drop_prefix_app, Hp, Hlt. reflexivity.
  - right. exists ";"%char, ("base64," +:+ payload). now split.
Qed.

(** X9. The matcher is the regular expression: with a class that leaves
    the semicolon out, a string matches exactly when it is the prefix, a
    run of the class that is not empty, the base64 marker and a payload
    that is not empty and has no line break; the groups are the run and
    the payload. *)
Theorem data_url_match_is_the_pattern (cls : ascii -> bool) (s run payload : string) :
  cls ";"%char = false ->
  match_data_url cls s = Some (run, payload)
  <-> s = data_url run payload
      /\ run <> "" /\ every_char cls run = true
      /\ payload <> "" /\ has_line_terminator payload = false.
Proof.
  intros Hsemi. split; [apply match_data_url_some|].
  intros (-> & Hne & Hrun & Hp & Hlt). now apply match_data_url_data_url.
Qed.

Lemma data_url_match_is_the_pattern_witness :
  match_data_url mime_char "data:image/svg+xml;base64,AAAA" = Some ("svg+xml", "AAAA")
  <-> "data:image/svg+xml;base64,AAAA" = data_url "svg+xml" "AAAA"
      /\ "svg+xml" <> "" /\ every_char mime_char "svg+xml" = true
      /\ "AAAA" <> "" /\ has_line_terminator "AAAA" = false.
Proof.
  apply (data_url_match_is_the_pattern mime_char "data:image/svg+xml;base64,AAAA"
           "svg+xml" "AAAA").
  vm_compute. reflexivity.
Defined.

Lemma every_char_split cls run :
  every_char cls run = false ->
  exists a c b, run = a +:+ String c b /\ every_char cls a = true /\ cls c = false.
Proof.
  induction run as [|c run IH]; [discriminate|]. cbn [every_char].
  destruct (cls c) eqn:E; cbn [andb]; intros H.
  - destruct (IH H) as (a & d & b & -> & Ha & Hd). exists (String c a), d, b.
    repeat split; [cbn [every_char]; now rewrite E, Ha | exact Hd].
  - exists "", c, run. now repeat split.
Qed.

Lemma every_char_app cls a b :
  every_char cls (a +:+ b) = every_char cls a && every_char cls b.
Proof.
  induction a as [|c a IH]; [reflexivity|]. rewrite append_cons. cbn [every_char].
  now rewrite IH, andb_assoc.
Qed.

Lemma match_data_url_word_none subtype payload :
  every_char mime_char subtype = true ->
  every_char word_char subtype = false ->
  match_data_url word_char (data_url subtype payload) = None.
Proof.
  intros Hmime Hword.
  destruct (every_char_split _ _ Hword) as (a & c & b & -> & Ha & Hc).
  unfold match_data_url, data_url. rewrite drop_prefix_app, append_assoc.
  rewrite (span_app word_char a); [|exact Ha|right; rewrite append_cons; now eexists _, _].
  destruct (String.eqb a ""); [reflexivity|].
  rewrite append_cons. cbn [drop_prefix].
  destruct (Ascii.eqb_spec ";" c) as [<-|]; [|reflexivity].
  rewrite every_char_app in Hmime. apply andb_true_iff in Hmime as [_ Hmime].
  discriminate Hmime.
Qed.

(** ** Uploads *)

Lemma slash_free_app a b : slash_free (a +:+ b) = slash_free a && slash_free b.
Proof.
  induction a as [|c a IH]; [reflexivity|]. rewrite append_cons. cbn [slash_free].
  now rewrite IH, andb_assoc.
Qed.

Lemma word_char_no_slash c : word_char c = true -> Ascii.eqb c "/" = false.
Proof. intros H. destruct (Ascii.eqb_spec c "/") as [->|]; [discriminate H | reflexivity]. Qed.

Lemma word_char_no_dot c : word_char c = true -> Ascii.eqb c "." = false.
Proof. intros H. destruct (Ascii.eqb_spec c ".") as [->|]; [discriminate H | reflexivity]. Qed.

Lemma word_run_slash_free ext : every_char word_char ext = true -> slash_free ext = true.
Proof.
  induction ext as [|c ext IH]; [reflexivity|]. cbn [every_char slash_free].
  intros H. apply andb_true_iff in H as [Hc H]. now rewrite (word_char_no_slash c Hc), IH.
Qed.

Lemma split_slash_one s : slash_free s = true -> JS.split_slash s = [s].
Proof.
  induction s as [|c s IH]; [reflexivity|]. cbn [slash_free JS.split_slash]. intros H.
  apply andb_true_iff in H as [Hc H]. apply negb_true_iff in Hc. now rewrite Hc, (IH H).
Qed.

(** A name with an extension of word characters is one path segment. *)
Lemma named_file_is_a_segment stem ext :
  slash_free stem = true -> ext <> "" -> every_char word_char ext = true ->
  segment (stem +:+ "." +:+ ext) = true.
Proof.
  intros Hstem Hne Hext. unfold segment. apply andb_true_iff. split.
  - unfold Path.proper. apply negb_true_iff.
    assert (Hdot : forall rest, ext <> String "." rest).
    { intros rest ->. cbn [every_char] in Hext. discriminate Hext. }
    apply orb_false_iff; split; [apply orb_false_iff; split|]; apply String.eqb_neq; intros H.
    + apply append_empty in H as [_ H]. discriminate H.
    + destruct stem as [|c stem].
      * injection H as H. contradiction.
      * injection H as _ H. apply append_empty in H as [_ H]. discriminate H.
    + destruct stem as [|c [|d stem]].
      * injection H as H. now apply (Hdot "").
      * injection H as _ H. contradiction.
      * injection H as _ _ H. apply append_empty in H as [_ H]. discriminate H.
  - rewrite !slash_free_app, Hstem, (word_run_slash_free ext Hext). reflexivity.
Qed.

Lemma blob_extension_word blob :
  blob_extension blob <> "" /\ every_char word_char (blob_extension blob) = true.
Proof.
  unfold blob_extension.
  destruct (match_data_url word_char blob) as [[ext payload]|] eqn:E.
  - apply match_data_url_some in E as (_ & Hne & Hrun & _). now split.
  - split; [discriminate | reflexivity].
Qed.

Section UploadFacts.
Variable rt : Runtime.

Lemma saveImageBlob_run blob w :
  saveImageBlob rt blob w
  = (Return ("/uploads/" +:+ upload_name rt w blob),
     stored (Path.to_path (UPLOAD_DIR rt ++ [upload_name rt w blob]))
            (Binary (Buffer_from_base64 rt (blob_payload blob)))
            (logged [EvWrite (Path.to_path (UPLOAD_DIR rt ++ [upload_name rt w blob]))]
                    {| fs := fs w; uuids := S (uuids w); ticks := ticks w;
                       trace := trace w |})).
Proof.
  unfold saveImageBlob, upload_name, blob_extension, blob_payload, bind, draw_uuid.
  rewrite writeFile_run. reflexivity.
Qed.

(** The URL of an upload resolves to the path the upload was written
    to. *)
Lemma local_target_upload fileName :
  segment fileName = true ->
  local_target rt ("/uploads/" +:+ fileName) = UPLOAD_DIR rt ++ [fileName].
Proof.
  intros Hseg. unfold segment in Hseg. apply andb_true_iff in Hseg as [Hproper Hfree].
  unfold local_target, Path.resolve.
  change (JS.strip_leading_slashes ("/uploads/" +:+ fileName)) with ("uploads/" +:+ fileName).
  change (JS.split_slash ("uploads/" +:+ fileName))
    with ("uploads" :: JS.split_slash fileName).
  rewrite (split_slash_one fileName Hfree).
  unfold Path.proper in Hproper. apply negb_true_iff in Hproper.
  apply orb_false_iff in Hproper as [Hproper H2]. cbn [Path.normalizeString].
  change (String.eqb "uploads" "" || String.eqb "uploads" ".") with false.
  change (String.eqb "uploads" "..") with false. cbn iota.
  rewrite Hproper, H2. cbn [rev]. rewrite rev_involutive. reflexivity.
Qed.

Lemma upload_is_found files fileName f :
  segment fileName = true ->
  files !! Path.to_path (UPLOAD_DIR rt ++ [fileName]) = Some f ->
  source_bytes rt files ("/uploads/" +:+ fileName) = Some (file_bytes f)
  /\ source_events rt ("/uploads/" +:+ fileName)
     = [EvRead (Path.to_path (UPLOAD_DIR rt ++ [fileName]))].
Proof.
  intros Hseg Hfile.
  assert (Hlocal : JS.startsWith ("/uploads/" +:+ fileName) "/" = true).
  { unfold JS.startsWith. change ("/uploads/" +:+ fileName)
      with (String "/" ("uploads/" +:+ fileName)).
    rewrite prefix_cons. now destruct ("uploads/" +:+ fileName). }
  assert (Hguard : guard_passes rt ("/uploads/" +:+ fileName) = true).
  { apply guard_passes_iff. exists ["uploads"; fileName]. split; [discriminate|].
    rewrite (local_target_upload fileName Hseg). unfold UPLOAD_DIR.
    now rewrite <- app_assoc. }
  unfold source_bytes, source_events.
  rewrite (local_url_is_no_data_url _ _ Hlocal), Hlocal, Hguard.
  rewrite (local_target_upload fileName Hseg), Hfile. split; reflexivity.
Qed.

Lemma upload_name_segment blob w :
  slash_free (randomUUID rt (uuids w)) = true -> segment (upload_name rt w blob) = true.
Proof.
  intros H. destruct (blob_extension_word blob) as [Hne Hword].
  now apply named_file_is_a_segment.
Qed.

(** X10. What [saveImageBlob] saves, [loadImageSource] loads: the URL it
    returns is a local one, the file it names lies in the upload
    directory and holds the decoded payload, no other file has changed,
    and [loadImageSource] on that URL reads that file and comes back
    with those bytes. *)
Theorem saved_blob_is_loaded_back (blob : string) (w : World) :
  slash_free (randomUUID rt (uuids w)) = true ->
  exists fileName w1,
    saveImageBlob rt blob w = (Return ("/uploads/" +:+ fileName), w1)
    /\ fs w1 = <[Path.to_path (UPLOAD_DIR rt ++ [fileName])
                 := Binary (Buffer_from_base64 rt (blob_payload blob))]> (fs w)
    /\ loadImageSource rt ("/uploads/" +:+ fileName) w1
       = (Return (Some (Buffer_from_base64 rt (blob_payload blob))),
          logged [EvRead (Path.to_path (UPLOAD_DIR rt ++ [fileName]))] w1).
Proof.
  intros Hfree. exists (upload_name rt w blob). eexists.
  split; [apply saveImageBlob_run|]. split; [reflexivity|].
  rewrite loadImageSource_run.
  destruct (upload_is_found
              (fs (stored (Path.to_path (UPLOAD_DIR rt ++ [upload_name rt w blob]))
                     (Binary (Buffer_from_base64 rt (blob_payload blob)))
                     (logged [EvWrite (Path.to_path (UPLOAD_DIR rt ++ [upload_name rt w blob]))]
                        {| fs := fs w; uuids := S (uuids w); ticks := ticks w;
                           trace := trace w |})))
              (upload_name rt w blob)
              (Binary (Buffer_from_base64 rt (blob_payload blob)))
              (upload_name_segment blob w Hfree)) as [Hb He].
  { cbn [fs stored logged]. apply lookup_insert_eq. }
  now rewrite Hb, He.
Qed.

(** X11. [saveImageBlob] knows fewer data URLs than [loadImageSource]: a
    data URL whose subtype has a character outside the word characters,
    as in svg+xml, is a data URL to [loadImageSource], which decodes its
    payload, and none to [saveImageBlob], which decodes the whole of it
    as base64 into a file named png. *)
Theorem subtype_with_punctuation_is_saved_whole (subtype payload : string) (w : World) :
  every_char mime_char subtype = true ->
  every_char word_char subtype = false ->
  payload <> "" -> has_line_terminator payload = false ->
  loadImageSource rt (data_url subtype payload) w
  = (Return (Some (Buffer_from_base64 rt payload)), w)
  /\ exists w1,
       saveImageBlob rt (data_url subtype payload) w
       = (Return ("/uploads/" +:+ randomUUID rt (uuids w) +:+ ".png"), w1)
       /\ fs w1 !! Path.to_path (UPLOAD_DIR rt ++ [randomUUID rt (uuids w) +:+ ".png"])
          = Some (Binary (Buffer_from_base64 rt (data_url subtype payload))).
Proof.
  intros Hmime Hword Hp Hlt.
  assert (Hne : subtype <> "") by (intros ->; discriminate Hword).
  split.
  - unfold loadImageSource.
    now rewrite (match_data_url_data_url mime_char subtype payload eq_refl Hne Hmime Hp Hlt).
  - rewrite saveImageBlob_run. unfold upload_name, blob_extension, blob_payload.
    rewrite (match_data_url_word_none subtype payload Hmime Hword).
    eexists. split; [reflexivity|]. cbn [fs stored logged]. apply lookup_insert_eq.
Qed.

End UploadFacts.

Lemma saved_blob_is_loaded_back_witness :
  exists fileName w1,
    saveImageBlob Host.runtime "data:image/png;base64,c3RpY2tlcg==" (Host.world [])
    = (Return ("/uploads/" +:+ fileName), w1)
    /\ fs w1 = <[Path.to_path (UPLOAD_DIR Host.runtime ++ [fileName])
                 := Binary (Buffer_from_base64 Host.runtime
                              (blob_payload "data:image/png;base64,c3RpY2tlcg=="))]>
               (fs (Host.world []))
    /\ loadImageSource Host.runtime ("/uploads/" +:+ fileName) w1
       = (Return (Some (Buffer_from_base64 Host.runtime
                          (blob_payload "data:image/png;base64,c3RpY2tlcg=="))),
          logged [EvRead (Path.to_path (UPLOAD_DIR Host.runtime ++ [fileName]))] w1).
Proof.
  apply (saved_blob_is_loaded_back Host.runtime "data:image/png;base64,c3RpY2tlcg=="
           (Host.world [])).
  vm_compute. reflexivity.
Defined.

Lemma subtype_with_punctuation_is_saved_whole_witness :
  loadImageSource Host.runtime (data_url "svg+xml" "AAAA") (Host.world [])
  = (Return (Some (Buffer_from_base64 Host.runtime "AAAA")), Host.world [])
  /\ exists w1,
       saveImageBlob Host.runtime (data_url "svg+xml" "AAAA") (Host.world [])
       = (Return ("/uploads/" +:+ randomUUID Host.runtime (uuids (Host.world [])) +:+ ".png"),
          w1)
       /\ fs w1 !! Path.to_path
                     (UPLOAD_DIR Host.runtime
                      ++ [randomUUID Host.runtime (uuids (Host.world [])) +:+ ".png"])
          = Some (Binary (Buffer_from_base64 Host.runtime (data_url "svg+xml" "AAAA"))).
Proof.
  apply (subtype_with_punctuation_is_saved_whole Host.runtime "svg+xml" "AAAA" (Host.world [])).
  - vm_compute. reflexivity.
  - vm_compute. reflexivity.
  - discriminate.
  - vm_compute. reflexivity.
Defined.

(** A payload holding the line separator U+2028 is no match: to
    [loadImageSource] the string is no data URL, and [saveImageBlob]
    decodes the whole of it into a file named png. *)
Example line_separator_is_no_payload :
  match_data_url mime_char
    (data_url "png" ("AA" +:+ String "226" (String "128" (String "168" "AA")))) = None
  /\ fst (loadImageSource Host.runtime
            (data_url "png" ("AA" +:+ String "226" (String "128" (String "168" "AA"))))
            (Host.world []))
     = Return None
  /\ fst (saveImageBlob Host.runtime
            (data_url "png" ("AA" +:+ String "226" (String "128" (String "168" "AA"))))
            (Host.world []))
     = Return "/uploads/uuid-0.png".
Proof. vm_compute. repeat split. Qed.

(** ** The tools on their edges *)

Lemma imageUrl_spray_image_item args url i c :
  exists img,
    with_id_createdAt (spray_image_item args url) i c = Image img
    /\ imageUrl img = url /\ image_id img = i.
Proof.
  unfold spray_image_item.
  destruct (normalizePercentPair (x _) _) as [[px py] f1].
  destruct (normalizePercentPair (width _) _) as [[dw dh] f2].
  eexists. split; [reflexivity|]. split; reflexivity.
Qed.

Section ToolEdges.
Variable rt : Runtime.

(** X12. A call outside its schema is turned down with the validation
    error before anything happens: no id is drawn, no file written,
    nothing logged. *)
Theorem call_outside_its_schema_changes_nothing (call : ToolCall) (w : World) :
  accepted_call rt call = false -> callTool rt call w = (Throw ZodError, w).
Proof.
  destruct call as [args|args]; cbn [accepted_call callTool]; intros H.
  - unfold spray_text. now rewrite H.
  - unfold spray_image. destruct (sprayImageSchema rt args) eqn:E; [|reflexivity].
    now rewrite H.
Qed.

(** X13. Where a call of [spray_image] names a URL, the URL is stored as it
    is and a blob that came with it is dropped: one id is drawn, and no
    file but the store file changes. *)
Theorem image_url_wins_over_blob
        (args : SprayImageArgs) (url : string) (w : World) (prior : list GraffitiItem) :
  accepted_call rt (call_spray_image args) = true ->
  si_image_url args = Some url ->
  fst (getGraffiti rt w) = Return prior ->
  exists img reply w',
    callTool rt (call_spray_image args) w = (Return (Image img, reply), w')
    /\ imageUrl img = url
    /\ image_id img = randomUUID rt (uuids w)
    /\ uuids w' = S (uuids w)
    /\ forall p, p <> DATA_FILE rt -> fs w' !! p = fs w !! p.
Proof.
  intros Hok Hurl Hprior. cbn [accepted_call callTool] in *. unfold spray_image.
  rewrite Hok. unfold sprayImageInput in Hok. apply andb_true_iff in Hok as [-> _].
  cbn [negb]. rewrite Hurl.
  destruct (normalizePercentPair (x _) _) as [[px py] f1] eqn:E1.
  destruct (normalizePercentPair (width _) _) as [[dw dh] f2] eqn:E2.
  destruct (addGraffiti_run rt (spray_image_item args url) w prior Hprior)
    as (w1 & Hadd & _ & Hu & _ & Hp).
  destruct (imageUrl_spray_image_item args url (randomUUID rt (uuids w))
              (toISOString rt (ticks w))) as (img & Himg & Hi & Hid).
  rewrite Himg in Hadd. unfold bind at 1. unfold ret at 1. unfold bind. rewrite Hadd.
  unfold ret. do 3 eexists. split; [reflexivity|]. auto.
Qed.

(** X14. A blob sprayed through [spray_image] can be drawn: the call saves
    the blob under the first id it draws, stores the item under the
    second with the URL of the saved file, and [loadImageSource] finds
    the decoded blob behind that URL in the world the call leaves. *)
Theorem sprayed_blob_can_be_drawn
        (args : SprayImageArgs) (blob : string) (w : World) (prior : list GraffitiItem) :
  accepted_call rt (call_spray_image args) = true ->
  si_image_url args = None ->
  si_image_blob args = Some blob ->
  fst (getGraffiti rt w) = Return prior ->
  slash_free (randomUUID rt (uuids w)) = true ->
  exists img reply w',
    callTool rt (call_spray_image args) w = (Return (Image img, reply), w')
    /\ imageUrl img = "/uploads/" +:+ upload_name rt w blob
    /\ image_id img = randomUUID rt (S (uuids w))
    /\ fst (loadImageSource rt (imageUrl img) w')
       = Return (Some (Buffer_from_base64 rt (blob_payload blob))).
Proof.
  intros Hok Hurl Hblob Hprior Hfree. cbn [accepted_call callTool] in *. unfold spray_image.
  rewrite Hok. unfold sprayImageInput in Hok. apply andb_true_iff in Hok as [-> _].
  cbn [negb]. rewrite Hurl, Hblob. cbn [default]. unfold Datatypes.id.
  destruct (normalizePercentPair (x _) _) as [[px py] f1] eqn:E1.
  destruct (normalizePercentPair (width _) _) as [[dw dh] f2] eqn:E2.
  unfold bind at 1. rewrite saveImageBlob_run.
  set (path := Path.to_path (UPLOAD_DIR rt ++ [upload_name rt w blob])).
  set (w0 := stored path _ _).
  assert (Hprior0 : fst (getGraffiti rt w0) = Return prior).
  { rewrite <- Hprior. apply getGraffiti_fst. unfold w0. cbn [fs stored logged].
    rewrite lookup_insert_ne; [reflexivity | apply upload_path_not_data]. }
  destruct (addGraffiti_run rt (spray_image_item args ("/uploads/" +:+ upload_name rt w blob))
              w0 prior Hprior0) as (w1 & Hadd & _ & _ & _ & Hp).
  destruct (imageUrl_spray_image_item args ("/uploads/" +:+ upload_name rt w blob)
              (randomUUID rt (uuids w0)) (toISOString rt (ticks w0)))
    as (img & Himg & Hi & Hid).
  rewrite Himg in Hadd. unfold bind. rewrite Hadd. unfold ret.
  exists img. do 2 eexists. split; [reflexivity|]. split; [exact Hi|]. split; [exact Hid|].
  rewrite Hi, loadImageSource_run. cbn [fst]. f_equal.
  apply (upload_is_found rt (fs w1) (upload_name rt w blob)
           (Binary (Buffer_from_base64 rt (blob_payload blob)))
           (upload_name_segment rt blob w Hfree)).
  rewrite Hp by apply upload_path_not_data. unfold w0. cbn [fs stored logged].
  apply lookup_insert_eq.
Qed.

End ToolEdges.

Lemma call_outside_its_schema_changes_nothing_witness :
  callTool Host.runtime off_the_wall (Host.world [Host.background])
  = (Throw ZodError, Host.world [Host.background]).
Proof.
  apply (call_outside_its_schema_changes_nothing Host.runtime off_the_wall
           (Host.world [Host.background])).
  vm_compute. reflexivity.
Defined.

Lemma image_url_wins_over_blob_witness :
  exists img reply w',
    callTool Host.runtime (call_spray_image url_and_blob) (Host.world [Host.store []])
    = (Return (Image img, reply), w')
    /\ imageUrl img = "https://example.com/tag.png"
    /\ image_id img = randomUUID Host.runtime (uuids (Host.world [Host.store []]))
    /\ uuids w' = S (uuids (Host.world [Host.store []]))
    /\ forall p, p <> DATA_FILE Host.runtime ->
                 fs w' !! p = fs (Host.world [Host.store []]) !! p.
Proof.
  apply (image_url_wins_over_blob Host.runtime url_and_blob "https://example.com/tag.png"
           (Host.world [Host.store []]) []).
  - vm_compute. reflexivity.
  - reflexivity.
  - vm_compute. reflexivity.
Defined.

Lemma sprayed_blob_can_be_drawn_witness :
  exists img reply w',
    callTool Host.runtime (call_spray_image blob_only) (Host.world [Host.store []])
    = (Return (Image img, reply), w')
    /\ imageUrl img
       = "/uploads/" +:+ upload_name Host.runtime (Host.world [Host.store []]) "c3RpY2tlcg=="
    /\ image_id img = randomUUID Host.runtime (S (uuids (Host.world [Host.store []])))
    /\ fst (loadImageSource Host.runtime (imageUrl img) w')
       = Return (Some (Buffer_from_base64 Host.runtime (blob_payload "c3RpY2tlcg=="))).
Proof.
  apply (sprayed_blob_can_be_drawn Host.runtime blob_only "c3RpY2tlcg=="
           (Host.world [Host.store []]) []).
  - vm_compute. reflexivity.
  - reflexivity.
  - reflexivity.
  - vm_compute. reflexivity.
  - vm_compute. reflexivity.
Defined.

(** ** What a render writes *)

Section KeepFacts.
Context {A B : Type} (path : string).

Lemma keeps_ret (a : A) : keeps path (ret a).
Proof. now intros w. Qed.

Lemma keeps_throw e : keeps path (@throw A e).
Proof. now intros w. Qed.

Lemma keeps_bind (m : M A) (k : A -> M B) :
  keeps path m -> (forall a, keeps path (k a)) -> keeps path (bind m k).
Proof.
  intros Hm Hk w. unfold bind. specialize (Hm w).
  destruct (m w) as [[a|e] w1]; cbn [snd] in *; [|exact Hm].
  now rewrite (Hk a w1).
Qed.

Lemma keeps_try_catch (m h : M A) : keeps path m -> keeps path h -> keeps path (try_catch m h).
Proof.
  intros Hm Hh w. unfold try_catch. specialize (Hm w).
  destruct (m w) as [[a|e] w1]; cbn [snd] in *; [exact Hm|].
  now rewrite (Hh w1).
Qed.

Lemma keeps_logged (m : M A) (events : World -> list Event) :
  (forall w, snd (m w) = logged (events w) w) -> keeps path m.
Proof. intros H w. now rewrite H. Qed.

Lemma throws_keeps (m : M A) : keeps path m -> keeps_when_it_throws path m.
Proof. intros H w e _. apply H. Qed.

Lemma throws_bind (m : M A) (k : A -> M B) :
  keeps path m -> (forall a, keeps_when_it_throws path (k a)) ->
  keeps_when_it_throws path (bind m k).
Proof.
  intros Hm Hk w e. unfold bind. specialize (Hm w).
  destruct (m w) as [[a|e'] w1]; cbn [snd] in *; [|intros _; exact Hm].
  intros H. now rewrite (Hk a w1 e H).
Qed.
End KeepFacts.

Lemma keeps_access path p : keeps path (access p).
Proof. intros w. unfold access. now destruct (fs w !! p). Qed.

Lemma keeps_readFile path p : keeps path (readFile p).
Proof. intros w. now rewrite readFile_run. Qed.

Lemma keeps_writeFile path p f : p <> path -> keeps path (writeFile p f).
Proof. intros H w. rewrite writeFile_run. cbn. now apply lookup_insert_ne. Qed.

Section RenderWrites.
Variable rt : Runtime.

Lemma snapshot_path_under_snapshots key : under_snapshots rt (snapshot_path rt key) = true.
Proof.
  unfold under_snapshots, snapshot_path, JS.startsWith.
  assert (Hroot : Path.to_path (SNAPSHOT_DIR rt) = Path.to_path_tail (SNAPSHOT_DIR rt)).
  { unfold SNAPSHOT_DIR, UPLOAD_DIR, PUBLIC_DIR. now destruct (cwd_segments rt). }
  rewrite Hroot, to_path_app, prefix_app_same, to_path_tail_cons, prefix_cons.
  now destruct (_ +:+ _).
Qed.

Lemma getGraffiti_keeps path : path <> DATA_FILE rt -> keeps path (getGraffiti rt).
Proof.
  intros H. unfold getGraffiti, ensureDataFile.
  apply keeps_bind; [apply keeps_try_catch; [apply keeps_access | now apply keeps_writeFile]|].
  intros _. apply keeps_bind; [apply keeps_readFile|].
  intros raw. apply keeps_bind; [|intros parsed; apply keeps_ret].
  destruct raw; [apply keeps_ret | apply keeps_throw].
Qed.

(** The render from its second statement on. *)
Lemma render_after_listing (w : World) :
  exists k : list GraffitiItem -> M SnapshotResult,
    generateWallSnapshot rt w = bind (getGraffiti rt) k w
    /\ (forall items path, under_snapshots rt path = false -> keeps path (k items))
    /\ (forall items path, keeps_when_it_throws path (k items)).
Proof.
  eexists. split; [reflexivity|]. split.
  - intros items path Hpath. cbv beta zeta.
    assert (Hout : snapshot_path rt (snapshotKey_of rt items) <> path).
    { intros <-. now rewrite snapshot_path_under_snapshots in Hpath. }
    apply keeps_bind.
    { apply keeps_try_catch; [|apply keeps_ret]. apply keeps_bind; [|intros; apply keeps_ret].
      unfold cached_metadata. apply keeps_bind; [apply keeps_access|]. intros _.
      apply keeps_bind; [apply keeps_readFile|].
      intros f. destruct (sharp_metadata (file_bytes f)); [apply keeps_ret | apply keeps_throw]. }
    intros [meta|]; [apply keeps_ret|].
    apply keeps_bind.
    { apply (keeps_logged _ _ (fun _ => [])). intros w'. unfold resolveBackgroundPath.
      now rewrite resolveBackgroundPath_from_run, logged_nil. }
    intros backgroundPath. apply keeps_bind; [apply keeps_readFile|].
    intros backgroundFile. destruct (sharp_metadata (file_bytes backgroundFile)) as [metadata|];
      [|apply keeps_throw].
    destruct (JS.falsy metadata.1 || JS.falsy metadata.2); [apply keeps_throw|].
    apply keeps_bind.
    { apply (keeps_logged _ _ (fun w => loop_events rt (fs w) (default 0%float metadata.1)
                                                   (default 0%float metadata.2) items)).
      intros w'. now rewrite overlay_loop_run. }
    intros [overlays skipped]. apply keeps_bind.
    { apply (keeps_logged _ _ (fun _ => [EvComposite (length overlays)])).
      intros w'. now rewrite composite_run. }
    intros snapshotBuffer. apply keeps_bind; [now apply keeps_writeFile|].
    intros _. apply keeps_ret.
  - intros items path. cbv beta zeta.
    apply throws_bind.
    { apply keeps_try_catch; [|apply keeps_ret]. apply keeps_bind; [|intros; apply keeps_ret].
      unfold cached_metadata. apply keeps_bind; [apply keeps_access|]. intros _.
      apply keeps_bind; [apply keeps_readFile|].
      intros f. destruct (sharp_metadata (file_bytes f)); [apply keeps_ret | apply keeps_throw]. }
    intros [meta|]; [apply throws_keeps, keeps_ret|].
    apply throws_bind.
    { apply (keeps_logged _ _ (fun _ => [])). intros w'. unfold resolveBackgroundPath.
      now rewrite resolveBackgroundPath_from_run, logged_nil. }
    intros backgroundPath. apply throws_bind; [apply keeps_readFile|].
    intros backgroundFile. destruct (sharp_metadata (file_bytes backgroundFile)) as [metadata|];
      [|apply throws_keeps, keeps_throw].
    destruct (JS.falsy metadata.1 || JS.falsy metadata.2); [apply throws_keeps, keeps_throw|].
    apply throws_bind.
    { apply (keeps_logged _ _ (fun w => loop_events rt (fs w) (default 0%float metadata.1)
                                                   (default 0%float metadata.2) items)).
      intros w'. now rewrite overlay_loop_run. }
    intros [overlays skipped]. apply throws_bind.
    { apply (keeps_logged _ _ (fun _ => [EvComposite (length overlays)])).
      intros w'. now rewrite composite_run. }
    intros snapshotBuffer w' e H. exfalso. unfold bind in H. rewrite writeFile_run in H.
    discriminate H.
Qed.

(** X15. Whatever it returns or throws, a render changes no file outside
    the snapshot directory, but for the store file, which the listing
    creates where it is missing. *)
Theorem render_writes_snapshots_only (w : World) (path : string) :
  under_snapshots rt path = false ->
  path <> DATA_FILE rt \/ is_Some (fs w !! DATA_FILE rt) ->
  fs (snd (generateWallSnapshot rt w)) !! path = fs w !! path.
Proof.
  intros Hpath Hdata. destruct (render_after_listing w) as (k & -> & Hk & _).
  assert (Hlist : fs (snd (getGraffiti rt w)) !! path = fs w !! path).
  { destruct Hdata as [Hne|[f Hf]]; [now apply getGraffiti_keeps|].
    now rewrite (listing_keeps_an_existing_store rt w f Hf). }
  unfold bind. destruct (getGraffiti rt w) as [[items|e] w0]; cbn [snd] in *; [|exact Hlist].
  now rewrite (Hk items path Hpath w0).
Qed.

(** X16. A render that throws has written no snapshot: but for the store
    file, every file is as it was. *)
Theorem failed_render_writes_no_snapshot (w : World) (e : Error) (path : string) :
  fst (generateWallSnapshot rt w) = Throw e ->
  path <> DATA_FILE rt ->
  fs (snd (generateWallSnapshot rt w)) !! path = fs w !! path.
Proof.
  destruct (render_after_listing w) as (k & -> & _ & Hk). intros H Hne.
  pose proof (getGraffiti_keeps path Hne w) as Hlist.
  unfold bind in *. destruct (getGraffiti rt w) as [[items|e'] w0]; cbn [snd] in *;
    [|exact Hlist].
  now rewrite (Hk items path w0 e H).
Qed.

(** X17. A render does not change what the store lists: after it, returned
    or thrown, the listing gives what it gave before. *)
Theorem render_keeps_the_listing (w : World) :
  fst (getGraffiti rt (snd (generateWallSnapshot rt w))) = fst (getGraffiti rt w).
Proof.
  destruct (render_after_listing w) as (k & -> & Hk & _).
  assert (Hdata : under_snapshots rt (DATA_FILE rt) = false).
  { destruct (under_snapshots rt (DATA_FILE rt)) eqn:E; [|reflexivity]. exfalso.
    unfold under_snapshots, JS.startsWith, DATA_FILE, SNAPSHOT_DIR, UPLOAD_DIR, PUBLIC_DIR in E.
    rewrite <- !app_assoc in E. cbn [app] in E.
    rewrite !to_path_app, append_assoc, prefix_app_same in E. discriminate E. }
  unfold bind. destruct (getGraffiti rt w) as [[items|e] w0] eqn:Hget; cbn [fst snd].
  - destruct (getGraffiti_returns rt _ _ _ Hget) as (l & Hl & -> & _).
    specialize (Hk (sort (by_createdAt rt) (map JSON_item l)) (DATA_FILE rt) Hdata w0).
    rewrite Hl in Hk.
    now rewrite (getGraffiti_json rt _ l Hk).
  - destruct (fs w !! DATA_FILE rt) as [[l|b]|] eqn:E.
    + rewrite (getGraffiti_json rt w l E) in Hget. discriminate Hget.
    + rewrite (getGraffiti_binary rt w b E) in Hget. injection Hget as <- <-.
      now rewrite (getGraffiti_binary rt (logged [EvRead (DATA_FILE rt)] w) b E).
    + rewrite (getGraffiti_absent rt w E) in Hget. discriminate Hget.
Qed.

End RenderWrites.

Lemma render_writes_snapshots_only_witness :
  fs (snd (generateWallSnapshot Host.runtime wall_with_three))
    !! "/srv/leftys/public/leftys-bg.png"
  = fs wall_with_three !! "/srv/leftys/public/leftys-bg.png".
Proof.
  apply (render_writes_snapshots_only Host.runtime wall_with_three
           "/srv/leftys/public/leftys-bg.png").
  - vm_compute. reflexivity.
  - left. intros H. vm_compute in H. discriminate H.
Defined.

Lemma failed_render_writes_no_snapshot_witness :
  fs (snd (generateWallSnapshot Host.runtime wall_with_junk))
    !! snapshot_path Host.runtime "1704067200000"
  = fs wall_with_junk !! snapshot_path Host.runtime "1704067200000".
Proof.
  apply (failed_render_writes_no_snapshot Host.runtime wall_with_junk SharpError
           (snapshot_path Host.runtime "1704067200000")).
  - vm_compute. reflexivity.
  - intros H. vm_compute in H. discriminate H.
Defined.

(** X18. Whatever it returns or throws, a render reads no file but the
    store file and files under the asset root: a read it has logged was
    logged before it ran, or is one of these. *)
Theorem render_reads_store_and_assets_only (rt : Runtime) (w : World) (path : string) :
  In (EvRead path) (trace (snd (generateWallSnapshot rt w))) ->
  In (EvRead path) (trace w) \/ path = DATA_FILE rt \/ under_public rt path.
Proof.
  intros Hin. destruct (generateWallSnapshot_logs rt w) as (events & Htrace & Hall).
  rewrite Htrace in Hin. apply in_app_or in Hin as [Hin|Hin]; [now left|].
  right. rewrite List.Forall_forall in Hall. exact (Hall _ Hin).
Qed.

Lemma render_reads_store_and_assets_only_witness :
  In (EvRead "/srv/leftys/public/leftys-bg.png") (trace wall_with_three)
  \/ "/srv/leftys/public/leftys-bg.png" = DATA_FILE Host.runtime
  \/ under_public Host.runtime "/srv/leftys/public/leftys-bg.png".
Proof.
  apply (render_reads_store_and_assets_only Host.runtime wall_with_three
           "/srv/leftys/public/leftys-bg.png").
  vm_compute. repeat (first [left; reflexivity | right]).
Defined.

(** ** Renders that fail, and what a fresh render counts *)

Lemma overlay_pure_throws rt files wd ht item e :
  overlay_pure rt files wd ht item = Throw e -> e = SharpError.
Proof.
  destruct item as [i|t]; cbn [overlay_pure]; [|discriminate].
  destruct (source_bytes rt files (imageUrl i)) as [src|]; [|discriminate].
  unfold sticker. destruct (sharp_metadata src); [|cbn; congruence].
  destruct (toBuffer_info rt _ _ _ _) as [[iw ih]|]; cbn; [discriminate | congruence].
Qed.

Lemma overlay_pure_undecodable rt w wd ht item :
  undecodable rt w item = true -> overlay_pure rt (fs w) wd ht item = Throw SharpError.
Proof.
  destruct item as [i|t]; cbn [overlay_pure undecodable]; [|discriminate].
  rewrite loadImageSource_fst.
  destruct (source_bytes rt (fs w) (imageUrl i)) as [src|]; [|discriminate].
  unfold sticker. now destruct (sharp_metadata src).
Qed.

Lemma undecodable_JSON_item rt w item :
  undecodable rt w (JSON_item item) = undecodable rt w item.
Proof. now destruct item. Qed.

Lemma loop_pure_undecodable rt w wd ht items overlays skipped :
  Exists (fun item => undecodable rt w item = true) items ->
  loop_pure rt (fs w) wd ht items overlays skipped = Throw SharpError.
Proof.
  intros H. revert overlays skipped.
  induction items as [|item items IH]; intros overlays skipped; [inversion H|].
  cbn [loop_pure]. destruct (overlay_pure rt (fs w) wd ht item) as [[ov|]|e] eqn:E.
  - apply IH. inversion H as [? ? Hu|]; subst; [|assumption].
    apply (overlay_pure_undecodable rt w wd ht) in Hu. congruence.
  - apply IH. inversion H as [? ? Hu|]; subst; [|assumption].
    apply (overlay_pure_undecodable rt w wd ht) in Hu. congruence.
  - now rewrite (overlay_pure_throws _ _ _ _ _ _ E).
Qed.

Lemma loop_pure_counts rt files wd ht items overlays skipped overlays' skipped' :
  loop_pure rt files wd ht items overlays skipped = Return (overlays', skipped') ->
  length overlays' + skipped' = length overlays + skipped + length items.
Proof.
  revert overlays skipped. induction items as [|item items IH]; intros overlays skipped.
  - cbn. intros H. injection H as <- <-. lia.
  - cbn [loop_pure length]. destruct (overlay_pure rt files wd ht item) as [[ov|]|e];
      [| |discriminate]; intros H; apply IH in H; rewrite ?length_app in H; cbn in H; lia.
Qed.

Section RenderFailures.
Variable rt : Runtime.

Lemma public_path_not_data name : Path.to_path (PUBLIC_DIR rt ++ [name]) <> DATA_FILE rt.
Proof.
  unfold DATA_FILE, PUBLIC_DIR. rewrite <- !app_assoc. cbn [app].
  rewrite !to_path_app. intros H. apply append_inv_head in H. discriminate.
Qed.

Lemma background_path_none files candidates :
  background_path rt files candidates = None <->
  Forall (fun name => files !! Path.to_path (PUBLIC_DIR rt ++ [name]) = None) candidates.
Proof.
  induction candidates as [|name rest IH]; cbn [background_path].
  - split; [constructor | reflexivity].
  - destruct (files !! Path.to_path (PUBLIC_DIR rt ++ [name])) eqn:E.
    + split; [discriminate|]. inversion 1; congruence.
    + rewrite IH. split; [now constructor | now inversion 1].
Qed.

Lemma background_path_first files candidates p :
  background_path rt files candidates = Some p ->
  exists before name after,
    candidates = before ++ name :: after
    /\ p = Path.to_path (PUBLIC_DIR rt ++ [name])
    /\ is_Some (files !! p)
    /\ Forall (fun n => files !! Path.to_path (PUBLIC_DIR rt ++ [n]) = None) before.
Proof.
  induction candidates as [|name rest IH]; cbn [background_path]; [discriminate|].
  destruct (files !! Path.to_path (PUBLIC_DIR rt ++ [name])) as [f|] eqn:E.
  - intros H. injection H as <-. exists [], name, rest.
    split; [reflexivity|]. split; [reflexivity|]. split; [now exists f | constructor].
  - intros H. destruct (IH H) as (before & n & after & -> & -> & Hf & Hb).
    exists (name :: before), n, after. split; [reflexivity|]. split; [reflexivity|].
    split; [exact Hf | now constructor].
Qed.

Lemma background_path_same files files' candidates :
  (forall p, p <> DATA_FILE rt -> files' !! p = files !! p) ->
  background_path rt files' candidates = background_path rt files candidates.
Proof.
  intros H. induction candidates as [|name rest IH]; [reflexivity|]. cbn [background_path].
  rewrite (H _ (public_path_not_data name)), IH. reflexivity.
Qed.

(** The world once the render has listed the store and looked for a
    cached snapshot. *)
Lemma render_misses w items w0 :
  getGraffiti rt w = (Return items, w0) ->
  cached_artifact (fs w) (snapshot_path rt (snapshotKey_of rt items)) = None ->
  exists events,
    try_catch (let* meta := cached_metadata (snapshot_path rt (snapshotKey_of rt items))
               in ret (Some meta)) (ret None) w0
    = (Return None, logged events w0).
Proof.
  intros Hget Hc. rewrite cached_metadata_run.
  unfold cached_artifact in *. rewrite (getGraffiti_keeps_snapshots rt _ _ _ _ Hget).
  destruct (fs w !! snapshot_path rt (snapshotKey_of rt items)).
  - rewrite Hc. now eexists.
  - exists []. now rewrite logged_nil.
Qed.

(** X19. With no snapshot to return and none of the candidate backgrounds
    in place, a render of a readable store throws the error that names
    the missing background. *)
Theorem render_without_background_fails (w : World) (items : list GraffitiItem) :
  fst (getGraffiti rt w) = Return items ->
  cached_artifact (fs w) (snapshot_path rt (snapshotKey_of rt items)) = None ->
  Forall (fun name => fs w !! Path.to_path (PUBLIC_DIR rt ++ [name]) = None)
         BACKGROUND_CANDIDATES ->
  fst (generateWallSnapshot rt w) = Throw NoBackground.
Proof.
  intros Hget Hc Hnone. destruct (getGraffiti rt w) as [o w0] eqn:E. cbn in Hget. subst o.
  destruct (render_misses w items w0 E Hc) as [events Hmiss].
  destruct (getGraffiti_returns rt _ _ _ E) as (l & _ & _ & _ & _ & _ & Hp).
  unfold generateWallSnapshot, bind at 1. rewrite E. unfold bind at 1. rewrite Hmiss.
  unfold resolveBackgroundPath, bind at 1. rewrite resolveBackgroundPath_from_run.
  cbn [fs logged]. rewrite (background_path_same (fs w) (fs w0) _ Hp).
  apply background_path_none in Hnone. now rewrite Hnone.
Qed.

(** X20. An image for which [loadImageSource] comes back with bytes that
    are no picture to sharp is not skipped: with no snapshot to return,
    it makes the whole render throw sharp's error. *)
Theorem undecodable_image_fails_the_render
        (w : World) (persisted : list GraffitiItem) (bgpath : string) (bgfile : File)
        (wd ht : number) :
  fs w !! DATA_FILE rt = Some (Json persisted) ->
  cached_artifact (fs w)
    (snapshot_path rt (snapshotKey_of rt (sort (by_createdAt rt) (map JSON_item persisted))))
  = None ->
  background_path rt (fs w) BACKGROUND_CANDIDATES = Some bgpath ->
  fs w !! bgpath = Some bgfile ->
  sharp_metadata (file_bytes bgfile) = Some (Some wd, Some ht) ->
  JS.falsy (Some wd) || JS.falsy (Some ht) = false ->
  Exists (fun item => undecodable rt w item = true) persisted ->
  fst (generateWallSnapshot rt w) = Throw SharpError.
Proof.
  intros Hfile Hc Hbg Hbgfile Hmeta Hfalsy Hbad.
  pose proof (getGraffiti_json rt w persisted Hfile) as Hget.
  destruct (render_misses w _ _ Hget Hc) as [events Hmiss].
  unfold generateWallSnapshot, bind at 1. rewrite Hget. unfold bind at 1. rewrite Hmiss.
  unfold resolveBackgroundPath, bind at 1. rewrite resolveBackgroundPath_from_run.
  cbn [fs logged]. rewrite Hbg. unfold bind at 1. rewrite readFile_run. cbn [fs logged].
  rewrite Hbgfile, Hmeta. cbn [fst snd]. rewrite Hfalsy.
  unfold bind at 1. rewrite overlay_loop_run. cbn [fs logged].
  rewrite (loop_pure_undecodable rt w); [reflexivity|].
  apply List.Exists_exists in Hbad as (item & Hin & Hitem). apply List.Exists_exists.
  exists (JSON_item item). split; [|now rewrite undecodable_JSON_item].
  eapply Permutation_in; [symmetry; apply sort_perm | now apply in_map].
Qed.

(** X21. A render that composites accounts for every item it listed: the
    overlays in the snapshot it has written and the images it skipped
    are together as many as the items it counts. *)
Theorem fresh_render_accounts_for_every_item (w : World) (r : SnapshotResult) (w1 : World) :
  generateWallSnapshot rt w = (Return r, w1) ->
  fromCache r = false ->
  exists background overlays,
    fs w1 !! snapshot_path rt (snapshotKey r) = Some (Binary (Composite background overlays))
    /\ length overlays + skippedImages r = itemCount r
    /\ forallb (overlay_fits (result_width r) (result_height r)) overlays = true.
Proof.
  intros H Hfresh. destruct (getGraffiti rt w) as [[items|e] w0] eqn:Hget.
  2:{ unfold generateWallSnapshot, bind at 1 in H. rewrite Hget in H. discriminate. }
  destruct (cached_artifact (fs w) (snapshot_path rt (snapshotKey_of rt items)))
    as [meta|] eqn:Hc.
  { rewrite (generateWallSnapshot_hit rt w items w0 meta Hget Hc) in H.
    injection H as <- <-. discriminate Hfresh. }
  destruct (render_misses w items w0 Hget Hc) as [events Hmiss].
  unfold generateWallSnapshot, bind at 1 in H. rewrite Hget in H.
  unfold bind at 1 in H. rewrite Hmiss in H.
  unfold resolveBackgroundPath, bind at 1 in H. rewrite resolveBackgroundPath_from_run in H.
  cbn [fs logged] in H.
  destruct (background_path rt (fs w0) BACKGROUND_CANDIDATES) as [bgpath|]; [|discriminate].
  unfold bind at 1 in H. rewrite readFile_run in H. cbn [fs logged] in H.
  destruct (fs w0 !! bgpath) as [bgfile|]; [|discriminate H].
  destruct (sharp_metadata (file_bytes bgfile)) as [[mw mh]|] eqn:Hmeta;
    [|unfold throw in H; discriminate H].
  cbn [fst snd] in H.
  destruct (JS.falsy mw || JS.falsy mh) eqn:Hfalsy; [unfold throw in H; discriminate H|].
  unfold bind at 1 in H. rewrite overlay_loop_run in H. cbn [fs logged] in H.
  destruct (loop_pure rt (fs w0) _ _ items [] 0) as [[overlays skipped]|e] eqn:Hloop;
    [|discriminate H].
  unfold bind at 1 in H. rewrite composite_run in H.
  destruct (forallb (overlay_fits _ _) overlays) eqn:Hfit; [|discriminate H].
  destruct (forallb (overlay_decodes rt) overlays); [|discriminate H]. cbn [andb] in H.
  unfold bind at 1 in H. rewrite writeFile_run in H. unfold ret in H.
  injection H as <- <-. exists (file_bytes bgfile), overlays.
  cbn [snapshotKey skippedImages itemCount result_width result_height fs stored logged].
  split; [apply lookup_insert_eq|]. split; [|exact Hfit].
  apply loop_pure_counts in Hloop. cbn in Hloop. lia.
Qed.

(** X22. [resolveBackgroundPath] settles on the first candidate, in the
    order of the list, whose file exists, and throws when none does; it
    leaves the world as it was. *)
Theorem background_is_the_first_candidate_in_place (w : World) :
  snd (resolveBackgroundPath rt w) = w
  /\ match fst (resolveBackgroundPath rt w) with
     | Return p =>
         exists before name after,
           BACKGROUND_CANDIDATES = before ++ name :: after
           /\ p = Path.to_path (PUBLIC_DIR rt ++ [name])
           /\ is_Some (fs w !! p)
           /\ Forall (fun n => fs w !! Path.to_path (PUBLIC_DIR rt ++ [n]) = None) before
     | Throw e =>
         e = NoBackground
         /\ Forall (fun n => fs w !! Path.to_path (PUBLIC_DIR rt ++ [n]) = None)
                   BACKGROUND_CANDIDATES
     end.
Proof.
  unfold resolveBackgroundPath. rewrite resolveBackgroundPath_from_run. cbn [fst snd].
  split; [reflexivity|].
  destruct (background_path rt (fs w) BACKGROUND_CANDIDATES) as [p|] eqn:E.
  - now apply background_path_first.
  - split; [reflexivity|]. now apply background_path_none.
Qed.

(** [loadImageSource] never throws: a local file that is missing, a
    fetch that fails and a URL of no scheme it knows all come back as no
    bytes; it reads one file or fetches one URL at most, writes nothing,
    and on a URL of no scheme it knows does no I/O at all. *)
Theorem image_source_never_throws (url : string) (w : World) :
  exists bytes events,
    loadImageSource rt url w = (Return bytes, logged events w)
    /\ length events <= 1
    /\ Forall (fun e => e = EvFetch url \/ exists p, e = EvRead p /\ under_public rt p) events
    /\ (match_data_url mime_char url = None -> JS.startsWith url "/" = false ->
        is_http url = false -> bytes = None /\ events = []).
Proof.
  exists (source_bytes rt (fs w) url), (source_events rt url).
  split; [apply loadImageSource_run|]. unfold source_bytes, source_events.
  destruct (match_data_url mime_char url) as [[ty payload]|].
  { split; [cbn; lia|]. split; [constructor | discriminate]. }
  destruct (JS.startsWith url "/").
  - destruct (guard_passes rt url) eqn:E.
    + split; [cbn; lia|]. split; [|discriminate].
      constructor; [|constructor]. right. eexists. split; [reflexivity | exact E].
    + split; [cbn; lia|]. split; [constructor | discriminate].
  - destruct (is_http url).
    + split; [cbn; lia|]. split; [|discriminate]. constructor; [now left | constructor].
    + split; [cbn; lia|]. split; [constructor | now split].
Qed.

End RenderFailures.

Lemma render_without_background_fails_witness :
  fst (generateWallSnapshot Host.runtime
         (Host.world [Host.store [Host.tag "a" "2024-01-01T00:00:00.000Z"]]))
  = Throw NoBackground.
Proof.
  apply (render_without_background_fails Host.runtime
           (Host.world [Host.store [Host.tag "a" "2024-01-01T00:00:00.000Z"]])
           [Host.tag "a" "2024-01-01T00:00:00.000Z"]).
  - vm_compute. reflexivity.
  - vm_compute. reflexivity.
  - repeat constructor.
Defined.

Lemma undecodable_image_fails_the_render_witness :
  fst (generateWallSnapshot Host.runtime wall_with_junk) = Throw SharpError.
Proof.
  apply (undecodable_image_fails_the_render Host.runtime wall_with_junk
           [Host.sticker_item "j" "2024-01-01T00:00:00.000Z" "data:image/png;base64,AAAA"]
           "/srv/leftys/public/leftys-bg.png" (Binary (Host.png "wall" 1000 800))
           1000%float 800%float).
  - vm_compute. reflexivity.
  - vm_compute. reflexivity.
  - vm_compute. reflexivity.
  - vm_compute. reflexivity.
  - reflexivity.
  - vm_compute. reflexivity.
  - constructor. vm_compute. reflexivity.
Defined.

Lemma fresh_render_accounts_for_every_item_witness :
  exists background overlays,
    fs (snd (generateWallSnapshot Host.runtime wall_with_three))
      !! snapshot_path Host.runtime "1704067200002"
    = Some (Binary (Composite background overlays))
    /\ length overlays + 1 = 3
    /\ forallb (overlay_fits 1000 800) overlays = true.
Proof.
  apply (fresh_render_accounts_for_every_item Host.runtime wall_with_three
           (fresh_result "1704067200002" 1000 800 3 1)
           (snd (generateWallSnapshot Host.runtime wall_with_three))).
  - vm_compute. reflexivity.
  - reflexivity.
Defined.

(** ** The key and the order of the items *)

Lemma maximum_perm l l' : Permutation l l' -> maximum l = maximum l'.
Proof.
  intros H. pose proof (maximum_spec l) as Hl. pose proof (maximum_spec l') as Hl'.
  destruct (maximum l) as [m|], (maximum l') as [m'|].
  - destruct Hl as [Hin Hle], Hl' as [Hin' Hle']. rewrite List.Forall_forall in Hle, Hle'.
    f_equal. apply Z.le_antisymm.
    + apply Hle'. eapply Permutation_in; [exact H | exact Hin].
    + apply Hle. eapply Permutation_in; [symmetry; exact H | exact Hin'].
  - subst l'. symmetry in H. apply Permutation_nil in H. subst l. now destruct Hl.
  - subst l. apply Permutation_nil in H. subst l'. now destruct Hl'.
  - reflexivity.
Qed.

Lemma to_int_parses n :
  NilZero.int_of_string (NilZero.string_of_int (Z.to_int n)) = Some (Z.to_int n).
Proof.
  apply NilZero.isi; destruct n; cbn; intros E; try discriminate E;
    injection E as E; now apply DecimalPos.Unsigned.to_uint_nonnil in E.
Qed.

Lemma String_of_int_inj a b : JS.String_of_int a = JS.String_of_int b -> a = b.
Proof.
  unfold JS.String_of_int. intros H. apply DecimalZ.to_int_inj.
  pose proof (to_int_parses a) as Ha. rewrite H, to_int_parses in Ha. now injection Ha.
Qed.

Lemma String_of_int_not_empty n : JS.String_of_int n <> "empty".
Proof.
  unfold JS.String_of_int. intros H.
  pose proof (to_int_parses n) as Hok. rewrite H in Hok. discriminate Hok.
Qed.

Section KeyOrder.
Variable rt : Runtime.

Lemma latestChangeMs_perm items items' :
  Permutation items items' -> latestChangeMs rt items = latestChangeMs rt items'.
Proof.
  intros H. rewrite !latestChangeMs_maximum. apply maximum_perm.
  unfold timestamps. now apply omap_Permutation.
Qed.

Lemma latestChangeMs_cons item items :
  latestChangeMs rt (item :: items)
  = match Date_parse rt (createdAt item), latestChangeMs rt items with
    | None, latest => latest
    | Some t, None => Some t
    | Some t, Some m => Some (Z.max t m)
    end.
Proof.
  rewrite !latestChangeMs_maximum. unfold timestamps. cbn.
  fold (timestamps rt items).
  destruct (Date_parse rt (createdAt item)) as [t|]; [|reflexivity].
  cbn. now destruct (maximum (timestamps rt items)).
Qed.

Lemma key_of_permutation (items items' : list GraffitiItem) :
  Permutation items items' -> snapshotKey_of rt items = snapshotKey_of rt items'.
Proof. intros H. unfold snapshotKey_of. now rewrite (latestChangeMs_perm items items' H). Qed.

Lemma timestamps_JSON_items items :
  timestamps rt (map JSON_item items) = timestamps rt items.
Proof.
  unfold timestamps. induction items as [|item items IH]; [reflexivity|].
  cbn. rewrite createdAt_JSON_item. fold (timestamps rt (map JSON_item items)) in *.
  fold (timestamps rt items) in *. unfold timestamps in IH |- *. now rewrite IH.
Qed.

Lemma key_of_JSON_items items :
  snapshotKey_of rt (map JSON_item items) = snapshotKey_of rt items.
Proof.
  unfold snapshotKey_of. now rewrite !latestChangeMs_maximum, timestamps_JSON_items.
Qed.

(** The key of a listing is the key of the store file. *)
Lemma key_of_listing items :
  snapshotKey_of rt (sort (by_createdAt rt) (map JSON_item items)) = snapshotKey_of rt items.
Proof.
  rewrite (key_of_permutation _ (map JSON_item items)) by apply sort_perm.
  apply key_of_JSON_items.
Qed.

(** X23. The key does not depend on the order of the items, and so not on
    the order of the store file, which the listing sorts: two stores
    holding the same items are rendered under one key. *)
Theorem key_ignores_the_order (w w' : World) (persisted persisted' : list GraffitiItem) :
  fs w !! DATA_FILE rt = Some (Json persisted) ->
  fs w' !! DATA_FILE rt = Some (Json persisted') ->
  Permutation persisted persisted' ->
  exists items items',
    fst (getGraffiti rt w) = Return items
    /\ fst (getGraffiti rt w') = Return items'
    /\ snapshotKey_of rt items = snapshotKey_of rt persisted
    /\ snapshotKey_of rt items = snapshotKey_of rt items'.
Proof.
  intros H H' Hperm. rewrite (getGraffiti_json rt w _ H), (getGraffiti_json rt w' _ H').
  do 2 eexists. split; [reflexivity|]. split; [reflexivity|].
  split; [apply key_of_listing|]. rewrite !key_of_listing.
  now apply key_of_permutation.
Qed.

(** X24. A snapshot outlives an append that is not later than the latest
    item: when the clock reads no later than the latest date listed, as
    within one millisecond of the last append, the appended item leaves
    the key as it is, and the render after it returns the snapshot
    written before from the cache, counting the new item and not drawing
    it. *)
Theorem append_within_the_same_instant_is_not_drawn
        (w : World) (r : SnapshotResult) (w1 : World) (items : list GraffitiItem)
        (item : NewGraffitiItem) (t latest : Z) :
  generateWallSnapshot rt w = (Return r, w1) ->
  fst (getGraffiti rt w) = Return items ->
  latestChangeMs rt items = Some latest ->
  Date_parse rt (toISOString rt (ticks w1)) = Some t ->
  (t <= latest)%Z ->
  exists next w2 r2 w3,
    addGraffiti rt item w1 = (Return next, w2)
    /\ generateWallSnapshot rt w2 = (Return r2, w3)
    /\ fromCache r2 = true
    /\ snapshotKey r2 = snapshotKey r
    /\ itemCount r2 = S (itemCount r)
    /\ fs w3 !! snapshot_path rt (snapshotKey r) = fs w1 !! snapshot_path rt (snapshotKey r).
Proof.
  intros Hrender Hitems Hlatest Hnow Hle.
  destruct (generateWallSnapshot_returns rt w r w1 Hrender)
    as (items' & meta & Hitems' & Hget1 & Hc & Hr).
  assert (items' = items) by congruence. subst items'.
  assert (Hkey : snapshotKey r = snapshotKey_of rt items)
    by (rewrite Hr; now destruct (fromCache r)).
  assert (Hcount : itemCount r = length items)
    by (rewrite Hr; now destruct (fromCache r)).
  destruct (addGraffiti_run rt item w1 items) as (w2 & Hadd & Hfile & _ & _ & Hp);
    [now rewrite Hget1|].
  set (next := with_id_createdAt item _ _) in *.
  pose proof (getGraffiti_json rt w2 _ Hfile) as Hget2.
  assert (Hsame : snapshotKey_of rt (sort (by_createdAt rt) (map JSON_item (items ++ [next])))
                  = snapshotKey_of rt items).
  { rewrite key_of_listing, (key_of_permutation (items ++ [next]) (next :: items)).
    - unfold snapshotKey_of. rewrite latestChangeMs_cons. unfold next.
      rewrite createdAt_with_id_createdAt, Hnow, Hlatest. do 2 f_equal. lia.
    - symmetry. apply Permutation_cons_append. }
  assert (Hc2 : cached_artifact (fs w2) (snapshot_path rt (snapshotKey_of rt
                  (sort (by_createdAt rt) (map JSON_item (items ++ [next])))))
                = Some meta).
  { rewrite Hsame. unfold cached_artifact in *.
    rewrite Hp; [exact Hc | apply snapshot_path_not_data]. }
  exists next, w2. do 2 eexists. split; [exact Hadd|].
  split; [exact (generateWallSnapshot_hit rt w2 _ _ meta Hget2 Hc2)|].
  cbn [fromCache snapshotKey itemCount hit_result fs logged].
  split; [reflexivity|]. split; [now rewrite Hsame, Hkey|].
  split; [now rewrite sort_length, length_map, length_app, Hcount, Nat.add_1_r|].
  apply Hp. rewrite Hkey. apply snapshot_path_not_data.
Qed.

(** X25. An append at an instant later than every date listed gives the
    store a key it did not have: the time of the append in decimal. *)
Theorem later_append_changes_the_key
        (item : NewGraffitiItem) (w : World) (prior : list GraffitiItem) (t : Z) :
  fst (getGraffiti rt w) = Return prior ->
  Date_parse rt (toISOString rt (ticks w)) = Some t ->
  Forall (fun u => (u < t)%Z) (timestamps rt prior) ->
  exists next w1 after,
    addGraffiti rt item w = (Return next, w1)
    /\ fst (getGraffiti rt w1) = Return after
    /\ snapshotKey_of rt after = JS.String_of_int t
    /\ snapshotKey_of rt after <> snapshotKey_of rt prior.
Proof.
  intros Hprior Hnow Hlater.
  destruct (addGraffiti_run rt item w prior Hprior) as (w1 & Hadd & Hfile & _).
  set (next := with_id_createdAt item _ _) in *.
  exists next, w1, (sort (by_createdAt rt) (map JSON_item (prior ++ [next]))).
  split; [exact Hadd|]. split; [now rewrite (getGraffiti_json rt w1 _ Hfile)|].
  assert (Hkey : snapshotKey_of rt (sort (by_createdAt rt) (map JSON_item (prior ++ [next])))
                 = JS.String_of_int t).
  { rewrite key_of_listing, (key_of_permutation (prior ++ [next]) (next :: prior)).
    - unfold snapshotKey_of. rewrite latestChangeMs_cons. unfold next.
      rewrite createdAt_with_id_createdAt, Hnow, latestChangeMs_maximum.
      pose proof (maximum_spec (timestamps rt prior)) as Hm.
      destruct (maximum (timestamps rt prior)) as [m|]; [|reflexivity].
      destruct Hm as [Hin _]. rewrite List.Forall_forall in Hlater.
      specialize (Hlater m Hin). do 2 f_equal. lia.
    - symmetry. apply Permutation_cons_append. }
  split; [exact Hkey|]. rewrite Hkey. unfold snapshotKey_of.
  rewrite latestChangeMs_maximum.
  pose proof (maximum_spec (timestamps rt prior)) as Hm.
  destruct (maximum (timestamps rt prior)) as [m|].
  - destruct Hm as [Hin _]. rewrite List.Forall_forall in Hlater.
    specialize (Hlater m Hin). intros H. apply String_of_int_inj in H. lia.
  - apply String_of_int_not_empty.
Qed.

End KeyOrder.

Lemma key_ignores_the_order_witness :
  exists items items',
    fst (getGraffiti Host.runtime
           (Host.world [Host.store [Host.tag "a" "2024-01-01T00:00:00.005Z";
                                    Host.tag "b" "2024-01-01T00:00:00.002Z"]]))
    = Return items
    /\ fst (getGraffiti Host.runtime
              (Host.world [Host.store [Host.tag "b" "2024-01-01T00:00:00.002Z";
                                       Host.tag "a" "2024-01-01T00:00:00.005Z"]]))
       = Return items'
    /\ snapshotKey_of Host.runtime items
       = snapshotKey_of Host.runtime [Host.tag "a" "2024-01-01T00:00:00.005Z";
                                      Host.tag "b" "2024-01-01T00:00:00.002Z"]
    /\ snapshotKey_of Host.runtime items = snapshotKey_of Host.runtime items'.
Proof.
  apply (key_ignores_the_order Host.runtime
           (Host.world [Host.store [Host.tag "a" "2024-01-01T00:00:00.005Z";
                                    Host.tag "b" "2024-01-01T00:00:00.002Z"]])
           (Host.world [Host.store [Host.tag "b" "2024-01-01T00:00:00.002Z";
                                    Host.tag "a" "2024-01-01T00:00:00.005Z"]])
           [Host.tag "a" "2024-01-01T00:00:00.005Z"; Host.tag "b" "2024-01-01T00:00:00.002Z"]
           [Host.tag "b" "2024-01-01T00:00:00.002Z"; Host.tag "a" "2024-01-01T00:00:00.005Z"]).
  - vm_compute. reflexivity.
  - vm_compute. reflexivity.
  - apply perm_swap.
Defined.

Lemma append_within_the_same_instant_is_not_drawn_witness :
  exists next w2 r2 w3,
    addGraffiti Host.runtime Host.new_tag (snd (generateWallSnapshot Host.runtime wall_of_now))
    = (Return next, w2)
    /\ generateWallSnapshot Host.runtime w2 = (Return r2, w3)
    /\ fromCache r2 = true
    /\ snapshotKey r2 = snapshotKey (fresh_result "1704067200000" 1000 800 1 0)
    /\ itemCount r2 = S (itemCount (fresh_result "1704067200000" 1000 800 1 0))
    /\ fs w3 !! snapshot_path Host.runtime
                  (snapshotKey (fresh_result "1704067200000" 1000 800 1 0))
       = fs (snd (generateWallSnapshot Host.runtime wall_of_now))
           !! snapshot_path Host.runtime
                (snapshotKey (fresh_result "1704067200000" 1000 800 1 0)).
Proof.
  apply (append_within_the_same_instant_is_not_drawn Host.runtime wall_of_now
           (fresh_result "1704067200000" 1000 800 1 0)
           (snd (generateWallSnapshot Host.runtime wall_of_now))
           [Host.tag "a" "2024-01-01T00:00:00.000Z"] Host.new_tag
           1704067200000 1704067200000).
  - vm_compute. reflexivity.
  - vm_compute. reflexivity.
  - vm_compute. reflexivity.
  - vm_compute. reflexivity.
  - lia.
Defined.

Lemma later_append_changes_the_key_witness :
  exists next w1 after,
    addGraffiti Host.runtime Host.new_tag
      (Host.world [Host.store [Host.tag "a" "2023-05-01T10:00:00.000Z"]])
    = (Return next, w1)
    /\ fst (getGraffiti Host.runtime w1) = Return after
    /\ snapshotKey_of Host.runtime after = JS.String_of_int 1704067200000
    /\ snapshotKey_of Host.runtime after
       <> snapshotKey_of Host.runtime [Host.tag "a" "2023-05-01T10:00:00.000Z"].
Proof.
  apply (later_append_changes_the_key Host.runtime Host.new_tag
           (Host.world [Host.store [Host.tag "a" "2023-05-01T10:00:00.000Z"]])
           [Host.tag "a" "2023-05-01T10:00:00.000Z"] 1704067200000).
  - vm_compute. reflexivity.
  - vm_compute. reflexivity.
  - apply List.Forall_forall. intros u Hu. vm_compute in Hu. destruct Hu as [<-|[]].
    reflexivity.
Defined.

(** ** The registry over many requests *)

Module RegistryFacts.
Import Router.

Ltac in_step_parts := split; [|split; [|split; [|split; [|split]]]].

Lemma in_step_onclose i reg : in_step reg -> in_step (onclose i reg).
Proof.
  intros (H1 & H2 & H3 & H4 & H5 & H6). unfold in_step, onclose. cbn.
  assert (Hclosed : forall s, In s (match servers reg !! i with
                                    | Some closedServer => closed reg ++ [closedServer]
                                    | None => closed reg
                                    end) ->
                              In s (closed reg) \/ servers reg !! i = Some s).
  { intros s. destruct (servers reg !! i) as [si|]; [|now left].
    intros Hin. apply in_app_or in Hin as [Hin|[<-|[]]]; [now left | now right]. }
  in_step_parts.
  - intros j. destruct (decide (i = j)) as [->|Hne].
    + rewrite !lookup_delete_eq. split; intros H; exact (False_ind _ (is_Some_None H)).
    + rewrite !lookup_delete_ne by exact Hne. apply H1.
  - intros j t s Ht Hs. destruct (decide (i = j)) as [->|Hne].
    + rewrite lookup_delete_eq in Ht. discriminate Ht.
    + rewrite lookup_delete_ne in Ht, Hs by exact Hne. now apply (H2 j).
  - intros j s Hs. destruct (decide (i = j)) as [->|Hne].
    + rewrite lookup_delete_eq in Hs. discriminate Hs.
    + rewrite lookup_delete_ne in Hs by exact Hne. split; [now apply (H3 j)|].
      intros Hin. apply Hclosed in Hin as [Hin|Hi]; [now apply (H3 j s Hs)|].
      apply Hne. now apply (H4 i j s).
  - intros j k s Hj Hk. destruct (decide (i = j)) as [->|Hj'].
    + rewrite lookup_delete_eq in Hj. discriminate Hj.
    + destruct (decide (i = k)) as [->|Hk'].
      * rewrite lookup_delete_eq in Hk. discriminate Hk.
      * rewrite lookup_delete_ne in Hj, Hk by assumption. now apply (H4 j k s).
  - destruct (servers reg !! i) as [si|] eqn:E; [|exact H5].
    eapply Permutation_NoDup; [apply Permutation_cons_append|].
    constructor; [now apply (H3 i si E) | exact H5].
  - destruct (servers reg !! i) as [si|] eqn:E; [|exact H6].
    apply Forall_app. split; [exact H6|]. repeat constructor. now apply (H3 i si E).
Qed.

(** More servers constructed, and nothing else. *)
Lemma in_step_constructed reg n g :
  in_step reg ->
  constructed reg <= n ->
  in_step {| transports := transports reg; servers := servers reg; constructed := n;
             closed := closed reg; generated := g |}.
Proof.
  intros (H1 & H2 & H3 & H4 & H5 & H6) Hn. unfold in_step. cbn.
  in_step_parts; try assumption.
  - intros j s Hs. destruct (H3 j s Hs). split; [lia | assumption].
  - eapply List.Forall_impl; [|exact H6]. cbn. intros; lia.
Qed.

Lemma in_step_open i reg g :
  in_step reg ->
  in_step (onsessioninitialized i (S (constructed reg)) (constructed reg)
             {| transports := transports reg; servers := servers reg;
                constructed := S (S (constructed reg));
                closed := closed reg; generated := g |}).
Proof.
  intros (H1 & H2 & H3 & H4 & H5 & H6). unfold in_step, onsessioninitialized. cbn.
  assert (Hfresh : forall j, servers reg !! j <> Some (constructed reg)).
  { intros j Hj. destruct (H3 j _ Hj). lia. }
  in_step_parts.
  - intros j. destruct (decide (i = j)) as [->|Hne].
    + rewrite !lookup_insert_eq. split; intros _; now eexists.
    + rewrite !lookup_insert_ne by exact Hne. apply H1.
  - intros j t s Ht Hs. destruct (decide (i = j)) as [->|Hne].
    + rewrite lookup_insert_eq in Ht, Hs. congruence.
    + rewrite lookup_insert_ne in Ht, Hs by exact Hne. now apply (H2 j).
  - intros j s Hs. destruct (decide (i = j)) as [->|Hne].
    + rewrite lookup_insert_eq in Hs. injection Hs as <-. split; [lia|].
      intros Hin. rewrite List.Forall_forall in H6. specialize (H6 _ Hin). lia.
    + rewrite lookup_insert_ne in Hs by exact Hne. destruct (H3 j s Hs).
      split; [lia | assumption].
  - intros j k s Hj Hk. destruct (decide (i = j)) as [<-|Hj'], (decide (i = k)) as [<-|Hk'].
    + reflexivity.
    + rewrite lookup_insert_eq in Hj. rewrite lookup_insert_ne in Hk by exact Hk'.
      injection Hj as <-. now apply Hfresh in Hk.
    + rewrite lookup_insert_eq in Hk. rewrite lookup_insert_ne in Hj by exact Hj'.
      injection Hk as <-. now apply Hfresh in Hj.
    + rewrite lookup_insert_ne in Hj, Hk by assumption. now apply (H4 j k s).
  - exact H5.
  - eapply List.Forall_impl; [|exact H6]. cbn. intros; lia.
Qed.

Section OneRequest.
Variable rt : Runtime.
Variable handle_fresh : Request -> FreshReply.
Variable handle_live : string -> Request -> LiveReply.

Lemma handle_existing_in_step i req reg :
  in_step reg -> in_step (snd (handle_existing handle_live i req reg)).
Proof.
  intros H. unfold handle_existing. destruct (handle_live i req); cbn [snd];
    [exact H | now apply in_step_onclose | exact H].
Qed.

Lemma route_in_step req reg :
  in_step reg -> in_step (snd (route rt handle_fresh handle_live req reg)).
Proof.
  intros H. unfold route, post, get_or_delete.
  destruct (lookup_transport reg req) as [i|].
  - pose proof (handle_existing_in_step i req reg H) as Hi.
    destruct (method req); destruct (handle_existing handle_live i req reg) as [[res|] reg'];
      exact Hi.
  - destruct (method req); cbn [snd]; try exact H.
    destruct (isInitializeRequest req); cbn [negb snd]; [|exact H].
    destruct (handle_fresh req); cbn [snd].
    + now apply in_step_open.
    + apply in_step_constructed; [exact H | cbn; lia].
    + apply in_step_constructed; [exact H | cbn; lia].
Qed.
End OneRequest.

End RegistryFacts.

(** X26. Whatever requests come and whatever the transports answer, the
    two maps of the router go in step from the empty registry on: they
    hold the same session ids, each with the server and the transport
    that were constructed for it together; no two sessions share a
    server; no server of a session held has been closed; and no server
    is closed twice. *)
Theorem registry_stays_in_step (rt : Runtime) (exchanges : list Exchange) :
  in_step (serve rt exchanges no_sessions).
Proof.
  assert (H0 : in_step no_sessions).
  { unfold in_step, no_sessions. cbn. RegistryFacts.in_step_parts.
    - intros i. rewrite !lookup_empty. reflexivity.
    - intros i t s Ht. rewrite lookup_empty in Ht. discriminate Ht.
    - intros i s Hs. rewrite lookup_empty in Hs. discriminate Hs.
    - intros i j s Hs. rewrite lookup_empty in Hs. discriminate Hs.
    - constructor.
    - constructor. }
  revert H0. generalize no_sessions. unfold serve.
  induction exchanges as [|e rest IH]; intros reg H; [exact H|].
  cbn [fold_left]. apply IH. now apply RegistryFacts.route_in_step.
Qed.

(** X27. A session the transport closes is gone from both maps, its server
    is closed, and its id is an unknown one from then on: whatever is
    sent under it but a new handshake is answered 400 and changes
    nothing. *)
Theorem closed_session_is_forgotten
        (rt : Runtime) (handle_fresh : Router.Request -> Router.FreshReply)
        (handle_live : string -> Router.Request -> Router.LiveReply)
        (req : Router.Request) (reg : Router.Registry) (i : string) (st server : nat) :
  Router.lookup_transport reg req = Some i ->
  Router.servers reg !! i = Some server ->
  handle_live i req = Router.Closed st ->
  exists reg',
    Router.route rt handle_fresh handle_live req reg
    = (Some {| Router.status := st; Router.body := "" |}, reg')
    /\ Router.transports reg' !! i = None
    /\ Router.servers reg' !! i = None
    /\ Router.closed reg' = Router.closed reg ++ [server]
    /\ forall fresh' live' req',
         Router.mcp_session_id req' = Some i ->
         is_initialization req' = false ->
         exists message,
           Router.route rt fresh' live' req' reg'
           = (Some {| Router.status := 400; Router.body := message |}, reg').
Proof.
  intros Hlookup Hserver Hclosed. exists (Router.onclose i reg).
  split.
  { unfold Router.route, Router.post, Router.get_or_delete, Router.handle_existing.
    rewrite Hlookup, Hclosed. now destruct (Router.method req). }
  cbn [Router.onclose Router.transports Router.servers Router.closed].
  rewrite !lookup_delete_eq, Hserver. repeat split.
  intros fresh' live' req' Hid Hinit.
  assert (Hgone : Router.lookup_transport (Router.onclose i reg) req' = None).
  { apply RouterFacts.unknown_session_lookup. unfold unknown_session. rewrite Hid.
    right. apply lookup_delete_eq. }
  unfold Router.route, Router.post, Router.get_or_delete, is_initialization in *.
  rewrite Hgone. destruct (Router.method req'); [|now eexists..].
  rewrite Hinit. now eexists.
Qed.

(** X28. The router catches what a transport throws on POST only: there
    the client gets a 500; on GET and DELETE the handler's promise
    rejects and the router sends nothing.  The registry is as it was in
    both cases. *)
Theorem transport_error_is_caught_on_post_only
        (rt : Runtime) (handle_fresh : Router.Request -> Router.FreshReply)
        (handle_live : string -> Router.Request -> Router.LiveReply)
        (req : Router.Request) (reg : Router.Registry) (i message : string) :
  Router.lookup_transport reg req = Some i ->
  handle_live i req = Router.LiveThrows message ->
  Router.route rt handle_fresh handle_live req reg
  = (match Router.method req with
     | Router.POST => Some {| Router.status := 500; Router.body := "error" |}
     | _ => None
     end, reg).
Proof.
  intros Hlookup Hthrows.
  unfold Router.route, Router.post, Router.get_or_delete, Router.handle_existing.
  rewrite Hlookup, Hthrows. now destruct (Router.method req).
Qed.

Lemma closed_session_is_forgotten_witness :
  exists reg',
    Router.route Host.runtime accepting serving delete_call live_session
    = (Some {| Router.status := 200; Router.body := "" |}, reg')
    /\ Router.transports reg' !! "uuid-0" = None
    /\ Router.servers reg' !! "uuid-0" = None
    /\ Router.closed reg' = Router.closed live_session ++ [0]
    /\ forall fresh' live' req',
         Router.mcp_session_id req' = Some "uuid-0" ->
         is_initialization req' = false ->
         exists message,
           Router.route Host.runtime fresh' live' req' reg'
           = (Some {| Router.status := 400; Router.body := message |}, reg').
Proof.
  apply (closed_session_is_forgotten Host.runtime accepting serving delete_call live_session
           "uuid-0" 200 0).
  - vm_compute. reflexivity.
  - vm_compute. reflexivity.
  - reflexivity.
Defined.

Lemma transport_error_is_caught_on_post_only_witness :
  Router.route Host.runtime accepting crashing delete_call live_session
  = (match Router.method delete_call with
     | Router.POST => Some {| Router.status := 500; Router.body := "error" |}
     | _ => None
     end, live_session).
Proof.
  apply (transport_error_is_caught_on_post_only Host.runtime accepting crashing delete_call
           live_session "uuid-0" "boom").
  - vm_compute. reflexivity.
  - reflexivity.
Defined.

(** ** A read during a write *)

(** X29. [fs.writeFile] empties the file when it opens it and writes
    afterwards.  An append whose read of the store file falls in between,
    while another append has opened the file and not yet written, finds
    no JSON and throws the parser's error; the other append goes through,
    and the store file then holds the listing with its record last and
    nothing of the call that failed. *)
Theorem read_during_a_write_fails
        (rt : Runtime) (first second : NewGraffitiItem) (w : World)
        (persisted : list GraffitiItem) :
  fs w !! DATA_FILE rt = Some (Json persisted) ->
  exists w',
    Tasks.run rt [0; 0; 0; 0; 1; 1; 1; 0] [Tasks.Called first; Tasks.Called second] w
    = Some ([Tasks.Settled (Return (next_of rt first w));
             Tasks.Settled (Throw SyntaxError)], w')
    /\ fs w' !! DATA_FILE rt
       = Some (Json (sort (by_createdAt rt) (map JSON_item persisted)
                     ++ [next_of rt first w])).
Proof.
  intros Hfile.
  change [0; 0; 0; 0; 1; 1; 1; 0] with ([0; 0; 0; 0] ++ [1; 1; 1] ++ [0]).
  rewrite run_app.
  pose proof (run_stretches rt 4 [] (Tasks.Called first) [Tasks.Called second] w) as H0.
  cbn [length app repeat] in H0. rewrite H0. clear H0.
  change (stretches rt 4) with (stretches rt (2 + (1 + 1))).
  rewrite stretches_add, called_then_access. cbn [fs drawn_from]. rewrite Hfile.
  rewrite stretches_add, one_stretch, step_read. cbn [fs drawn_from]. rewrite Hfile.
  rewrite one_stretch, step_open.
  rewrite run_app.
  match goal with
  | |- context [Tasks.run rt [1; 1; 1] [?t; _] ?w0] =>
      pose proof (run_stretches rt 3 [t] (Tasks.Called second) [] w0) as H1
  end.
  cbn [length app repeat] in H1. rewrite H1. clear H1.
  change (stretches rt 3) with (stretches rt (2 + 1)).
  rewrite stretches_add, called_then_access. cbn [fs drawn_from stored logged].
  rewrite lookup_insert_eq, one_stretch, step_read. cbn [fs drawn_from stored logged].
  rewrite lookup_insert_eq.
  match goal with
  | |- context [Tasks.run rt [0] [?t; ?u] ?w0] =>
      pose proof (run_stretches rt 1 [] t [u] w0) as H2
  end.
  cbn [length app repeat] in H2. rewrite H2. clear H2.
  rewrite one_stretch. cbn [Tasks.step].
  unfold Tasks.write. cbn [fs drawn_from stored logged]. rewrite lookup_insert_eq.
  eexists. split; [reflexivity|]. cbn [fs]. apply lookup_insert_eq.
Qed.

Lemma read_during_a_write_fails_witness :
  exists w',
    Tasks.run Host.runtime [0; 0; 0; 0; 1; 1; 1; 0]
              [Tasks.Called Host.new_tag; Tasks.Called Host.new_tag]
              (Host.world [Host.store [Host.tag "a" "2023-05-01T10:00:00.000Z"]])
    = Some ([Tasks.Settled
               (Return (next_of Host.runtime Host.new_tag
                          (Host.world [Host.store [Host.tag "a" "2023-05-01T10:00:00.000Z"]])));
             Tasks.Settled (Throw SyntaxError)], w')
    /\ fs w' !! DATA_FILE Host.runtime
       = Some (Json (sort (by_createdAt Host.runtime)
                          (map JSON_item [Host.tag "a" "2023-05-01T10:00:00.000Z"])
                     ++ [next_of Host.runtime Host.new_tag
                           (Host.world [Host.store [Host.tag "a" "2023-05-01T10:00:00.000Z"]])])).
Proof.
  apply (read_during_a_write_fails Host.runtime Host.new_tag Host.new_tag
           (Host.world [Host.store [Host.tag "a" "2023-05-01T10:00:00.000Z"]])
           [Host.tag "a" "2023-05-01T10:00:00.000Z"]).
  vm_compute. reflexivity.
Defined.

(** ** The client's arguments *)

(** X30. [maybeInlineImageBlob] looks at one key.  Where [image_blob_file]
    holds a string it reads the file the operating system resolves that
    name to from the client's working directory, and the arguments it
    returns hold the file in base64 under [image_blob], over whatever
    was there, hold no [image_blob_file], and hold every other key as it
    was; where there is no such file it throws.  Where the key is absent
    or holds anything but a string, the arguments come back as they are
    and no file is read. *)
Theorem blob_file_is_inlined
        (toString_base64 : Buffer -> string) (realpath : string -> option string)
        (args : gmap string Client.Json) (w : World) :
  match args !! "image_blob_file" with
  | Some (Client.JString path) =>
      match realpath path with
      | Some absolute =>
          match fs w !! absolute with
          | Some f =>
              exists next,
                Client.maybeInlineImageBlob toString_base64 realpath args w
                = (Return next, logged [EvRead absolute] w)
                /\ next !! "image_blob"
                   = Some (Client.JString (toString_base64 (file_bytes f)))
                /\ next !! "image_blob_file" = None
                /\ forall key, key <> "image_blob" -> key <> "image_blob_file" ->
                               next !! key = args !! key
          | None =>
              Client.maybeInlineImageBlob toString_base64 realpath args w
              = (Throw ENOENT, logged [EvRead absolute] w)
          end
      | None =>
          exists e, Client.maybeInlineImageBlob toString_base64 realpath args w = (Throw e, w)
      end
  | _ => Client.maybeInlineImageBlob toString_base64 realpath args w = (Return args, w)
  end.
Proof.
  unfold Client.maybeInlineImageBlob, Client.readFile_as_written.
  destruct (args !! "image_blob_file") as [[| | |path| |]|]; try reflexivity.
  cbn [Client.as_string]. unfold bind.
  destruct (realpath path) as [absolute|]; [|now eexists].
  rewrite readFile_run.
  destruct (fs w !! absolute) as [f|]; [|reflexivity].
  eexists. split; [reflexivity|]. split; [|split].
  - rewrite lookup_delete_ne by discriminate. apply lookup_insert_eq.
  - apply lookup_delete_eq.
  - intros key H1 H2. rewrite lookup_delete_ne by congruence.
    now rewrite lookup_insert_ne by congruence.
Qed.

(** The example of the README: a file named from the directory the
    client runs in is read where it lies. *)
Example sample_file_is_inlined :
  exists next,
    Client.maybeInlineImageBlob (fun _ => "c2FtcGxl") (from_directory "/home/me")
                                sample_args client_world
    = (Return next, logged [EvRead "/home/me/sample.png"] client_world)
    /\ next !! "image_blob" = Some (Client.JString "c2FtcGxl")
    /\ next !! "image_blob_file" = None.
Proof. eexists. split; [vm_compute; reflexivity|]. split; vm_compute; reflexivity. Qed.
